(** * CloudBalancer: a shallow embedding of the balancer core

    The development follows the Go packages of the repository:
    [backend] (backend records), [algorithm] (the selection strategy),
    [load_balancer] (the core and its health prober), [rate_limiter]
    (the keyed token bucket), [middleware] (admission) and [handler]
    (the admin rate-limit endpoint).  Definitions come first, package by
    package; the theorems about them follow. *)

From Stdlib Require Import ZArith QArith Lia Lqa Ascii String.
From stdpp Require Import gmap strings list fin_maps pretty.

Local Open Scope Z_scope.
Local Open Scope string_scope.

(** ** Go's [int] and results of calls *)

(** [int] is 64 bits wide on the platforms the balancer is built for;
    addition wraps around. *)
Definition MaxInt : Z := 2 ^ 63 - 1.
Definition MinInt : Z := - 2 ^ 63.

Definition wrap_int (z : Z) : Z := (z + 2 ^ 63) mod 2 ^ 64 - 2 ^ 63.
Definition int_add (a b : Z) : Z := wrap_int (a + b).

(** Go's [%] truncates towards zero, like [Z.rem]. *)
Definition int_rem (a b : Z) : Z := Z.rem a b.

Definition len {A} (l : list A) : Z := Z.of_nat (length l).

(** [l[i]]: indexing a slice; [None] stands for the run-time panic
    "index out of range". *)
Definition index {A} (l : list A) (i : Z) : option A :=
  if bool_decide (0 <= i) then l !! Z.to_nat i else None.

(** What a call of type [(T, error)] produces: a value, an error built
    by [fmt.Errorf], or a run-time panic. *)
Inductive outcome (A : Type) : Type :=
| Ret (a : A)
| Error (msg : string)
| Panic.
Arguments Ret {A} a.
Arguments Error {A} msg.
Arguments Panic {A}.

(** A [float64] of the configuration: a finite value, taken as the
    rational it is, an infinity, or a NaN, which the YAML of the
    configuration can all express. *)
Inductive float64 : Type :=
| Finite (q : Q)
| PosInf
| NegInf
| NaN.

(** [x <= 0] on a [float64]; every comparison with a NaN is false. *)
Definition float64_le_0 (x : float64) : bool :=
  match x with
  | Finite q => Qle_bool q 0
  | NegInf => true
  | PosInf => false
  | NaN => false
  end.

(** ** Package [backend] *)

Module backend.

Record Backend : Type := mkBackend {
  ID : string;
  URL : string;
  isHealthy : bool;
  activeConnections : Z
}.

(** The pool is a slice of [*Backend]: backends are shared objects,
    mutated by the prober and read by the selection path.  A pointer is
    an address into a store of backend records. *)
Definition ptr : Type := nat.

(** [NewBackend] allocates a record, healthy and without connections,
    at an address not in use; the reverse proxy it is given is not
    part of the model. *)
Definition fresh (h : gmap nat Backend) : ptr :=
  S (max_list (elements (dom h))).

Definition NewBackend (h : gmap nat Backend) (id url : string)
  : ptr * gmap nat Backend :=
  let p := fresh h in
  (p, <[p := mkBackend id url true 0]> h).

(** Reading through a pointer that holds no record is a nil
    dereference ([None]). *)
Definition IsHealthy (h : gmap nat Backend) (b : ptr) : option bool :=
  isHealthy <$> h !! b.

Definition SetHealthy (h : gmap nat Backend) (b : ptr) (healthy : bool)
  : gmap nat Backend :=
  alter (fun r => mkBackend (ID r) (URL r) healthy (activeConnections r)) b h.

(** [activeConnections] is an [int64], changed by atomic additions that
    wrap around as [int]'s do. *)
Definition ActiveConnections (h : gmap nat Backend) (b : ptr) : option Z :=
  activeConnections <$> h !! b.

Definition IncrementConnections (h : gmap nat Backend) (b : ptr)
  : gmap nat Backend :=
  alter (fun r => mkBackend (ID r) (URL r) (isHealthy r)
                    (int_add (activeConnections r) 1)) b h.

Definition DecrementConnections (h : gmap nat Backend) (b : ptr)
  : gmap nat Backend :=
  alter (fun r => mkBackend (ID r) (URL r) (isHealthy r)
                    (int_add (activeConnections r) (-1))) b h.

(** [ServeHTTP]: count the request in, let the reverse proxy forward
    it, count it out (deferred, so also when the proxy panics).
    [Proxy] is the run of [b.Proxy.ServeHTTP]: it takes the store as
    forwarding starts to the store as it ends, other requests and the
    prober having run meanwhile, together with what came of it.
    [None] is the nil dereference of [b]. *)
Definition ServeHTTP {A} (Proxy : gmap nat Backend -> gmap nat Backend * A)
    (h : gmap nat Backend) (b : ptr) : option (gmap nat Backend * A) :=
  match h !! b with
  | None => None
  | Some _ =>
      let h1 := IncrementConnections h b in
      let '(h2, res) := Proxy h1 in
      Some (DecrementConnections h2 b, res)
  end.

(** The prober writes health flags while requests are being served.
    A call that reads flags is therefore run against the stores it
    meets: [hs k] is the store at the call's read number [k] (from 0).
    [still h] is the store [h] that nobody writes during the call. *)
Definition still (h : gmap nat Backend) : nat -> gmap nat Backend :=
  fun _ => h.

Definition ErrUnknownStrategy (name : string) : string :=
  "unknown balancing strategy: " +:+ name.

End backend.

(** ** Package [algorithm] *)

Module algorithm.
Import backend.

Record RoundRobinStrategy : Type := mkRoundRobin { current : Z }.

Definition NewRoundRobinStrategy : RoundRobinStrategy :=
  {| current := 0 |}.

(** The scan loop of [NextBackend].  One unit of [fuel] pays for one
    iteration, that is for one inspected backend; [None] means the
    fuel ran out before the loop returned.  Iteration [k] reads the
    flag of its backend in the store [hs k].  The cursor is returned
    with the result, since the loop writes [s.current] before it
    returns (also before a panic raised by [IsHealthy]). *)
Fixpoint NextBackend_loop (fuel : nat) (hs : nat -> gmap nat Backend) (k : nat)
    (backends : list ptr) (start cur : Z) : option (outcome ptr * Z) :=
  match fuel with
  | O => None
  | S fuel' =>
      match index backends cur with
      | None => Some (Panic, cur)
      | Some backendItem =>
          let cur' := int_rem (int_add cur 1) (len backends) in
          match IsHealthy (hs k) backendItem with
          | None => Some (Panic, cur')
          | Some true => Some (Ret backendItem, cur')
          | Some false =>
              if bool_decide (cur' = start)
              then Some (Error "no healthy backends available", cur')
              else NextBackend_loop fuel' hs (S k) backends start cur'
          end
      end
  end.

(** [NextBackend]: the loop is run with enough fuel to inspect every
    backend of the pool once; [NextBackend_returns] below shows that
    this is always enough. *)
Definition NextBackend (hs : nat -> gmap nat Backend) (s : RoundRobinStrategy)
    (backends : list ptr) : option (outcome ptr * RoundRobinStrategy) :=
  if bool_decide (len backends = 0)
  then Some (Error "no backends available", s)
  else
    match NextBackend_loop (length backends) hs 0 backends (current s) (current s) with
    | Some (r, c) => Some (r, {| current := c |})
    | None => None
    end.

(** [N] calls of [NextBackend], one after the other, against the
    same pool and a store that stays as it is; the results are listed
    in call order. *)
Fixpoint NextBackend_calls (N : nat) (h : gmap nat Backend)
    (s : RoundRobinStrategy) (backends : list ptr)
    : option (list (outcome ptr) * RoundRobinStrategy) :=
  match N with
  | O => Some ([], s)
  | S N' =>
      match NextBackend (still h) s backends with
      | None => None
      | Some (r, s1) =>
          match NextBackend_calls N' h s1 backends with
          | None => None
          | Some (rs, s2) => Some (r :: rs, s2)
          end
      end
  end.

(** How often backend [b] was the value returned in a list of results. *)
Fixpoint times_chosen (b : ptr) (rs : list (outcome ptr)) : nat :=
  match rs with
  | [] => 0
  | Ret b' :: rs' =>
      if bool_decide (b' = b) then S (times_chosen b rs') else times_chosen b rs'
  | _ :: rs' => times_chosen b rs'
  end.

(** The [Strategy] interface has one implementation. *)
Inductive Strategy : Type :=
| RoundRobin (s : RoundRobinStrategy).

Definition Name (s : Strategy) : string :=
  match s with RoundRobin _ => "RoundRobin" end.

Definition Strategy_NextBackend (hs : nat -> gmap nat Backend) (s : Strategy)
    (backends : list ptr) : option (outcome ptr * Strategy) :=
  match s with
  | RoundRobin rr =>
      match NextBackend hs rr backends with
      | Some (r, rr') => Some (r, RoundRobin rr')
      | None => None
      end
  end.

Definition GetStrategy (name : string) : outcome Strategy :=
  if bool_decide (name = "RoundRobin")
  then Ret (RoundRobin NewRoundRobinStrategy)
  else Error (ErrUnknownStrategy name).

End algorithm.

(** ** Package [config] *)

Module config.

Definition SupportedBalancingMethods : list string := ["RoundRobin"].

(** Durations are counted in nanoseconds.  Fields of different structs
    that share a name in the sources carry the name of their struct in
    front here. *)
Record ServerConfig : Type := mkServerConfig {
  ServerPort : Z
}.

Record LoadBalancerConfig : Type := mkLoadBalancerConfig {
  Method : string;
  HealthCheckInterval : Z
}.

Record BackendConfig : Type := mkBackendConfig {
  ID : string;
  Host : string;
  Port : Z;
  ConnectTimeout : Z;
  ReadTimeout : Z;
  MaxConnection : Z;
  Enabled : bool
}.

Record LoggingConfig : Type := mkLoggingConfig {
  Environment : string;
  Level : string
}.

Record RateLimitConfig : Type := mkRateLimitConfig {
  RateLimitEnabled : bool;
  DefaultRate : float64;
  DefaultBurst : Z
}.

Record Config : Type := mkConfig {
  Server : ServerConfig;
  LoadBalancer : LoadBalancerConfig;
  Backends : list BackendConfig;
  Logging : LoggingConfig;
  RateLimit : RateLimitConfig
}.

(** The errors of [validateConfig], each with the values its message
    is formatted from. *)
Inductive ConfigError : Type :=
| UnsupportedMethod (method : string) (supported : list string)
| NoBackends
| EmptyID (i : nat)
| NoEnabledBackends
| RateNotPositive (rate : float64)
| BurstNotPositive (burst : Z).

(** The loop of [validateConfig] over the backends: the first backend
    without an id stops it; otherwise the enabled ones are counted. *)
Fixpoint count_enabled (i : nat) (enabledBackends : Z) (bs : list BackendConfig)
    : ConfigError + Z :=
  match bs with
  | [] => inr enabledBackends
  | backend :: bs' =>
      if bool_decide (ID backend = EmptyString) then inl (EmptyID i)
      else count_enabled (S i)
             (if Enabled backend then int_add enabledBackends 1 else enabledBackends)
             bs'
  end.

(** [validateConfig]: [None] is the nil error. *)
Definition validateConfig (config : Config) : option ConfigError :=
  if negb (bool_decide (Method (LoadBalancer config) ∈ SupportedBalancingMethods))
  then Some (UnsupportedMethod (Method (LoadBalancer config)) SupportedBalancingMethods)
  else if bool_decide (len (Backends config) = 0) then Some NoBackends
  else
    match count_enabled 0 0 (Backends config) with
    | inl err => Some err
    | inr enabledBackends =>
        if bool_decide (enabledBackends = 0) then Some NoEnabledBackends
        else if RateLimitEnabled (RateLimit config) then
          if float64_le_0 (DefaultRate (RateLimit config))
          then Some (RateNotPositive (DefaultRate (RateLimit config)))
          else if bool_decide (DefaultBurst (RateLimit config) <= 0)
          then Some (BurstNotPositive (DefaultBurst (RateLimit config)))
          else None
        else None
    end.

End config.

(** ** Package [load_balancer] *)

Module load_balancer.
Import backend algorithm.

Record loadBalancer : Type := mkLoadBalancer {
  backends : list ptr;
  strategy : Strategy
}.

(** [GetNextBackend] delegates to the current strategy; the strategy's
    cursor is the only state that changes. *)
Definition GetNextBackend (hs : nat -> gmap nat Backend) (lb : loadBalancer)
    : option (outcome ptr * loadBalancer) :=
  match Strategy_NextBackend hs (strategy lb) (backends lb) with
  | None => None
  | Some (res, s') =>
      let lb' := {| backends := backends lb; strategy := s' |} in
      match res with
      | Error err => Some (Error err, lb')
      | Ret b => Some (Ret b, lb')
      | Panic => Some (Panic, lb')
      end
  end.

Definition GetBackends (lb : loadBalancer) : list ptr := backends lb.
Definition GetStrategy (lb : loadBalancer) : Strategy := strategy lb.
Definition SetStrategy (lb : loadBalancer) (s : Strategy) : loadBalancer :=
  {| backends := backends lb; strategy := s |}.

(** What one probe meets: [http.NewRequestWithContext] fails, the
    client's [Do] fails, or a response with a status code arrives. *)
Inductive probe : Type :=
| RequestError
| TransportError
| Response (StatusCode : Z).

Inductive level : Type := LevelError | LevelWarn | LevelInfo.

Definition StatusOK : Z := 200.

(** [checkBackendHealth]: the new store and the messages logged.
    [None] is the nil dereference of [b.URL]. *)
Definition checkBackendHealth (h : gmap nat Backend) (b : ptr) (p : probe)
    : option (gmap nat Backend * list (level * string)) :=
  match h !! b with
  | None => None
  | Some r =>
      match p with
      | RequestError =>
          Some (h, [(LevelError, "Failed to create health check request")])
      | TransportError =>
          let wasHealthy := isHealthy r in
          let h' := SetHealthy h b false in
          Some (h',
                (LevelWarn, "Health check connection failed") ::
                (if wasHealthy
                 then [(LevelWarn, "Backend became unhealthy due to connection error")]
                 else []))
      | Response StatusCode =>
          let healthy := bool_decide (StatusCode = StatusOK) in
          let wasHealthy := isHealthy r in
          let h' := SetHealthy h b healthy in
          Some (h',
                if bool_decide (wasHealthy = healthy) then []
                else if healthy
                     then [(LevelInfo, "Backend became healthy")]
                     else [(LevelWarn, "Backend became unhealthy")])
      end
  end.

(** [HealthCheck] starts one probe per backend.  The probes run side
    by side in no fixed order; they are taken in pool order here, which
    makes no difference to the store, as probes of different backends
    commute.  [meets i] is what the probe of the backend at position
    [i] of the pool meets.  The log lines are left out. *)
Fixpoint HealthCheck_from (i : nat) (h : gmap nat Backend) (bs : list ptr)
    (meets : nat -> probe) : option (gmap nat Backend) :=
  match bs with
  | [] => Some h
  | b :: bs' =>
      match checkBackendHealth h b (meets i) with
      | None => None
      | Some (h1, _) => HealthCheck_from (S i) h1 bs' meets
      end
  end.

Definition HealthCheck (h : gmap nat Backend) (lb : loadBalancer)
    (meets : nat -> probe) : option (gmap nat Backend) :=
  HealthCheck_from 0 h (backends lb) meets.

(** The loop of [NewLoadBalancer] over the configured backends.
    [url_Parse] stands for [url.Parse]: the parsed URL in its string
    form, or the message of its error. *)
Fixpoint new_backends (url_Parse : string -> string + string)
    (cfgs : list config.BackendConfig) (h : gmap nat Backend) (acc : list ptr)
    : outcome (list ptr * gmap nat Backend) :=
  match cfgs with
  | [] => Ret (acc, h)
  | backendConfig :: cfgs' =>
      if negb (config.Enabled backendConfig) then new_backends url_Parse cfgs' h acc
      else
        match url_Parse ("http://" +:+ config.Host backendConfig +:+ ":"
                         +:+ pretty (config.Port backendConfig)) with
        | inr err => Error ("invalid backend URL: " +:+ err)
        | inl backendURL =>
            let '(b, h1) := NewBackend h (config.ID backendConfig) backendURL in
            new_backends url_Parse cfgs' h1 (acc ++ [b])%list
        end
  end.

(** [NewLoadBalancer]: the balancer and the store with its backends.
    The transports, the proxies and the start of the prober are not
    part of the model. *)
Definition NewLoadBalancer (url_Parse : string -> string + string)
    (cfg : config.Config) (h : gmap nat Backend)
    : outcome (loadBalancer * gmap nat Backend) :=
  match algorithm.GetStrategy (config.Method (config.LoadBalancer cfg)) with
  | Error err => Error ("failed to create balancing strategy: " +:+ err)
  | Panic => Panic
  | Ret strategy =>
      match new_backends url_Parse (config.Backends cfg) h [] with
      | Error err => Error err
      | Panic => Panic
      | Ret (bs, h') =>
          if bool_decide (len bs = 0) then Error "no enabled backends configured"
          else Ret ({| backends := bs; strategy := strategy |}, h')
      end
  end.

End load_balancer.

(** ** Package [rate_limiter] *)

Module rate_limiter.
Local Open Scope Q_scope.

(** [Rate] is a [float64] in the sources; rates are exact rationals
    here, so the limiter is followed in exact arithmetic. *)
Record UserLimits : Type := mkUserLimits {
  Rate : Q;
  Burst : Z
}.

(** Modelled from the spec: [rate.Limiter] of golang.org/x/time/rate,
    the bucket behind every client, is not part of the sources.  The
    spec describes it as a standard continuous-refill token bucket:
    capacity [burst], refill [limit] tokens per second capped at
    [burst], one token consumed by an admission; tokens may be
    fractional.  Rates, token counts and clock readings (seconds) are
    exact rationals; a fresh bucket is full. *)
Record Limiter : Type := mkLimiter {
  limit : Q;
  burst : Z;
  tokens : Q;
  last : Q
}.

(** Modelled from the spec: a bucket "starting fresh" holds [burst]
    tokens and has not been used yet. *)
Definition NewLimiter (r : Q) (b : Z) : Limiter :=
  {| limit := r; burst := b; tokens := inject_Z b; last := 0 |}.

(** Modelled from the spec: the tokens available at clock reading
    [now], after the refill since [last], capped at [burst]. *)
Definition advance (lim : Limiter) (now : Q) : Q :=
  let elapsed := if Qle_bool (last lim) now then now - last lim else 0 in
  let t := tokens lim + elapsed * limit lim in
  if Qle_bool t (inject_Z (burst lim)) then t else inject_Z (burst lim).

(** Modelled from the spec: [Limiter.Allow] at clock reading [now]
    admits when a whole token is available and consumes it; a refused
    attempt leaves the bucket as it was. *)
Definition Limiter_Allow (lim : Limiter) (now : Q) : bool * Limiter :=
  let t := advance lim now in
  if Qle_bool 1 t
  then (true, {| limit := limit lim; burst := burst lim;
                 tokens := t - 1; last := now |})
  else (false, lim).

(** The two [sync.Map]s of the limiter, keyed by client id.  The
    logger and the mutex carry no data. *)
Record TokenBucket : Type := mkTokenBucket {
  defaultRate : Q;
  defaultBurst : Z;
  limiters : gmap string Limiter;
  clientLimits : gmap string UserLimits
}.

Definition NewTokenBucket (defaultRate : Q) (defaultBurst : Z) : TokenBucket :=
  {| defaultRate := defaultRate; defaultBurst := defaultBurst;
     limiters := ∅; clientLimits := ∅ |}.

Definition GetClientLimits (tb : TokenBucket) (clientID : string) : UserLimits :=
  match clientLimits tb !! clientID with
  | Some limits => limits
  | None => {| Rate := defaultRate tb; Burst := defaultBurst tb |}
  end.

Definition GetBurst (tb : TokenBucket) (clientID : string) : Z :=
  Burst (GetClientLimits tb clientID).

Definition GetRate (tb : TokenBucket) (clientID : string) : Q :=
  Rate (GetClientLimits tb clientID).

Definition store_limiter (tb : TokenBucket) (clientID : string)
    (lim : Limiter) : TokenBucket :=
  {| defaultRate := defaultRate tb; defaultBurst := defaultBurst tb;
     limiters := <[clientID := lim]> (limiters tb);
     clientLimits := clientLimits tb |}.

(** [getLimiter]: the client's bucket, created from the client's
    limits (or the defaults) when there is none yet. *)
Definition getLimiter (tb : TokenBucket) (clientID : string)
    : Limiter * TokenBucket :=
  match limiters tb !! clientID with
  | Some limiter => (limiter, tb)
  | None =>
      let limits := GetClientLimits tb clientID in
      let limiter := NewLimiter (Rate limits) (Burst limits) in
      (limiter, store_limiter tb clientID limiter)
  end.

(** [Allow]: the bucket is a shared object held by the map, so what
    [limiter.Allow()] does to it is what the map holds afterwards. *)
Definition Allow (tb : TokenBucket) (clientID : string) (now : Q)
    : bool * TokenBucket :=
  let '(limiter, tb1) := getLimiter tb clientID in
  let '(allowed, limiter') := Limiter_Allow limiter now in
  (allowed, store_limiter tb1 clientID limiter').

Definition SetClientLimits (tb : TokenBucket) (clientID : string)
    (myrate : Q) (burst : Z) : TokenBucket :=
  {| defaultRate := defaultRate tb; defaultBurst := defaultBurst tb;
     limiters := <[clientID := NewLimiter myrate burst]> (limiters tb);
     clientLimits :=
       <[clientID := {| Rate := myrate; Burst := burst |}]> (clientLimits tb) |}.

Definition DeleteClientLimits (tb : TokenBucket) (clientID : string)
    : TokenBucket :=
  {| defaultRate := defaultRate tb; defaultBurst := defaultBurst tb;
     limiters := delete clientID (limiters tb);
     clientLimits := delete clientID (clientLimits tb) |}.

Definition UpdateClientLimits (tb : TokenBucket) (clientID : string)
    (updateFn : UserLimits -> UserLimits) : TokenBucket :=
  let limits := updateFn (GetClientLimits tb clientID) in
  {| defaultRate := defaultRate tb; defaultBurst := defaultBurst tb;
     limiters := <[clientID := NewLimiter (Rate limits) (Burst limits)]> (limiters tb);
     clientLimits := <[clientID := limits]> (clientLimits tb) |}.

(** Calls of [Allow] for one client, one per clock reading of [ts] and
    in that order; the answers are listed in call order. *)
Fixpoint Allow_at (ts : list Q) (tb : TokenBucket) (clientID : string)
    : list bool * TokenBucket :=
  match ts with
  | [] => ([], tb)
  | now :: ts' =>
      let '(a, tb1) := Allow tb clientID now in
      let '(rest, tb2) := Allow_at ts' tb1 clientID in
      (a :: rest, tb2)
  end.

(** Clock readings that never go back, from [t] on. *)
Fixpoint nondecreasing_from (t : Q) (ts : list Q) : Prop :=
  match ts with
  | [] => True
  | t' :: ts' => t <= t' /\ nondecreasing_from t' ts'
  end.

End rate_limiter.

(** ** The pieces of Go's [strings] and [net/http] that the handlers use *)

Module gostrings.

(** [strings.Split(s, sep)] for a separator of one byte, the only kind
    the sources pass (",", ":" and "/"): the pieces between the
    separators, one more than there are separators. *)
Fixpoint Split (s : string) (sep : ascii) : list string :=
  match s with
  | EmptyString => [EmptyString]
  | String c s' =>
      if bool_decide (c = sep) then EmptyString :: Split s' sep
      else match Split s' sep with
           | [] => [String c EmptyString]
           | tok :: rest => String c tok :: rest
           end
  end.

Definition of_codes (l : list N) : string :=
  string_of_list_ascii (map ascii_of_N l).

Definition str_rev (s : string) : string :=
  string_of_list_ascii (rev (list_ascii_of_string s)).

(** The UTF-8 encodings of the code points [unicode.IsSpace] accepts:
    tab to carriage return, space, U+0085, U+00A0, U+1680,
    U+2000..U+200A, U+2028, U+2029, U+202F, U+205F and U+3000. *)
Definition white_space : list string :=
  map of_codes
    [[9]; [10]; [11]; [12]; [13]; [32];
     [194; 133]; [194; 160]; [225; 154; 128];
     [226; 128; 128]; [226; 128; 129]; [226; 128; 130]; [226; 128; 131];
     [226; 128; 132]; [226; 128; 133]; [226; 128; 134]; [226; 128; 135];
     [226; 128; 136]; [226; 128; 137]; [226; 128; 138];
     [226; 128; 168]; [226; 128; 169]; [226; 128; 175];
     [226; 129; 159]; [227; 128; 128]]%N.

(** The width in bytes of the entry of [table] that [s] starts with,
    0 when it starts with none. *)
Definition width (table : list string) (s : string) : nat :=
  match find (fun enc => String.prefix enc s) table with
  | Some enc => String.length enc
  | None => 0%nat
  end.

(** Drop entries of [table] from the front of [s] while there are
    any; [skip] counts the bytes of the current entry still to drop. *)
Fixpoint trim_front (table : list string) (skip : nat) (s : string) : string :=
  match skip with
  | S k =>
      match s with
      | EmptyString => EmptyString
      | String _ s' => trim_front table k s'
      end
  | O =>
      match width table s with
      | O => s
      | S k =>
          match s with
          | EmptyString => EmptyString
          | String _ s' => trim_front table k s'
          end
      end
  end.

Definition TrimLeftSpace (s : string) : string :=
  trim_front white_space 0 s.

Definition TrimRightSpace (s : string) : string :=
  str_rev (trim_front (map str_rev white_space) 0 (str_rev s)).

(** [strings.TrimSpace]: leading, then trailing white space removed. *)
Definition TrimSpace (s : string) : string :=
  TrimRightSpace (TrimLeftSpace s).

(** [strings.HasPrefix]. *)
Definition HasPrefix (s prefix : string) : bool := String.prefix prefix s.

End gostrings.

Module http.
Import gostrings.

Definition in_range (lo hi : N) (c : ascii) : bool :=
  (lo <=? N_of_ascii c)%N && (N_of_ascii c <=? hi)%N.

Definition validHeaderFieldByte (c : ascii) : bool :=
  in_range 48 57 c || in_range 65 90 c || in_range 97 122 c
  || bool_decide (N_of_ascii c ∈ [33; 35; 36; 37; 38; 39; 42; 43; 45; 46; 94; 95; 96; 124; 126]%N).

Fixpoint canonical (upper : bool) (s : string) : string :=
  match s with
  | EmptyString => EmptyString
  | String c s' =>
      let c' :=
        if upper && in_range 97 122 c then ascii_of_N (N_of_ascii c - 32)
        else if negb upper && in_range 65 90 c then ascii_of_N (N_of_ascii c + 32)
        else c in
      String c' (canonical (bool_decide (c' = "-"%char)) s')
  end.

(** [textproto.CanonicalMIMEHeaderKey]: a key made of header field
    bytes gets a capital at its start and after each hyphen and small
    letters elsewhere; any other key is left as it is. *)
Definition CanonicalMIMEHeaderKey (s : string) : string :=
  if forallb validHeaderFieldByte (list_ascii_of_string s)
  then canonical true s
  else s.

(** [Header.Get]: the first value stored under the canonical form of
    the key, the empty string when there is none. *)
Definition Header_Get (hd : gmap string (list string)) (key : string) : string :=
  match hd !! CanonicalMIMEHeaderKey key with
  | Some (v :: _) => v
  | _ => EmptyString
  end.

(** [RateLimitRequest] of package [handler], the JSON shape of the
    admin endpoint's bodies; it is declared here because [Request] and
    [ResponseWriter] below carry decoded bodies. *)
Record RateLimitRequest : Type := mkRateLimitRequest {
  Rate : Q;
  Burst : Z
}.

(** The parts of [http.Request] that the handlers read.  [Body] is
    what [json.NewDecoder(r.Body).Decode] yields for a rate-limit
    request, [None] when decoding fails. *)
Record Request : Type := mkRequest {
  Method : string;
  Path : string;
  Header : gmap string (list string);
  RemoteAddr : string;
  Body : option RateLimitRequest
}.

Inductive body : Type :=
| NoBody
| Text (s : string)
| JSON (v : RateLimitRequest).

(** What a handler has written to its [ResponseWriter]. *)
Record ResponseWriter : Type := mkResponse {
  StatusCode : Z;
  Written : body
}.

Definition StatusOK : Z := 200.
Definition StatusCreated : Z := 201.
Definition StatusNoContent : Z := 204.
Definition StatusBadRequest : Z := 400.
Definition StatusMethodNotAllowed : Z := 405.

(** [http.Error] writes the status and the message followed by a
    newline. *)
Definition Error (error : string) (code : Z) : ResponseWriter :=
  {| StatusCode := code; Written := Text (error +:+ of_codes [10%N]) |}.

(** [w.WriteHeader(code)] with nothing written after it. *)
Definition WriteHeader (code : Z) : ResponseWriter :=
  {| StatusCode := code; Written := NoBody |}.

(** [Header.Set]: the value replaces whatever is stored under the
    canonical form of the key. *)
Definition Header_Set (hd : gmap string (list string)) (key value : string)
    : gmap string (list string) :=
  <[CanonicalMIMEHeaderKey key := [value]]> hd.

Definition StatusTooManyRequests : Z := 429.
Definition StatusBadGateway : Z := 502.
Definition StatusServiceUnavailable : Z := 503.

(** An answer a handler writes by itself: the headers it sets, the
    status, and the members of the JSON object it encodes as the body
    ([map[string]string], which the encoder writes in key order). *)
Record Reply : Type := mkReply {
  ReplyHeader : gmap string (list string);
  ReplyStatus : Z;
  ReplyBody : list (string * string)
}.

End http.

(** ** Package [middleware] *)

Module middleware.
Import gostrings http.

Definition getClientID (r : Request) : string :=
  let apiKey := Header_Get (Header r) "X-API-Key" in
  if negb (bool_decide (apiKey = EmptyString)) then "api:" +:+ apiKey
  else
    let forwardedFor := Header_Get (Header r) "X-Forwarded-For" in
    if negb (bool_decide (forwardedFor = EmptyString)) then
      let ips := Split forwardedFor ","%char in
      match index ips 0 with
      | Some ip => TrimSpace ip
      | None => EmptyString (* not reached: [Split] returns a piece *)
      end
    else
      match index (Split (RemoteAddr r) ":"%char) 0 with
      | Some host => host
      | None => EmptyString (* not reached: [Split] returns a piece *)
      end.

(** What became of a request in the middleware: [next.ServeHTTP] was
    called, or the middleware answered by itself. *)
Inductive passed : Type :=
| Next
| Stopped (w : Reply).

(** [Middleware], for a request arriving at clock reading [now]. *)
Definition Middleware (tb : rate_limiter.TokenBucket) (r : Request) (now : Q)
    : rate_limiter.TokenBucket * passed :=
  if HasPrefix (Path r) "/admin/" || bool_decide (Path r = "/health")
  then (tb, Next)
  else
    let clientID := getClientID r in
    let '(allowed, tb') := rate_limiter.Allow tb clientID now in
    if negb allowed then
      (tb', Stopped
              {| ReplyHeader :=
                   Header_Set (Header_Set ∅ "Content-Type" "application/json")
                     "Retry-After" "60";
                 ReplyStatus := StatusTooManyRequests;
                 ReplyBody :=
                   [("error", "Rate limit exceeded. Please slow down your requests.")] |})
    else (tb', Next).

End middleware.

(** ** Package [handler]: the admin rate-limit endpoint *)

Module handler.
Import gostrings http rate_limiter.

(** Each handler returns the limiter state it leaves and what it
    wrote.  [getRateLimit] encodes the limits without calling
    [WriteHeader], so the status is 200.  This is the answer when the
    encoder succeeds: rates being rationals here, there is no rate it
    cannot write, and a connection that fails under it is not
    modelled.  The 500 the sources answer with when [Encode] fails is
    therefore left out; the limiter is not touched on that path
    either. *)
Definition getRateLimit (tb : TokenBucket) (clientID : string)
    : TokenBucket * ResponseWriter :=
  let limits := GetClientLimits tb clientID in
  (tb, {| StatusCode := StatusOK;
          Written := JSON {| http.Rate := rate_limiter.Rate limits;
                             http.Burst := rate_limiter.Burst limits |} |}).

Definition createRateLimit (tb : TokenBucket) (r : Request) (clientID : string)
    : TokenBucket * ResponseWriter :=
  match Body r with
  | None => (tb, Error "Invalid request body" StatusBadRequest)
  | Some limits =>
      if Qle_bool (http.Rate limits) 0 || bool_decide (http.Burst limits <= 0)
      then (tb, Error "Rate and burst must be positive" StatusBadRequest)
      else (SetClientLimits tb clientID (http.Rate limits) (http.Burst limits),
            WriteHeader StatusCreated)
  end.

Definition updateRateLimit (tb : TokenBucket) (r : Request) (clientID : string)
    : TokenBucket * ResponseWriter :=
  match Body r with
  | None => (tb, Error "Invalid request body" StatusBadRequest)
  | Some limits =>
      if Qle_bool (http.Rate limits) 0 || bool_decide (http.Burst limits <= 0)
      then (tb, Error "Rate and burst must be positive" StatusBadRequest)
      else (UpdateClientLimits tb clientID
              (fun ul => {| rate_limiter.Rate := http.Rate limits;
                            rate_limiter.Burst := http.Burst limits |}),
            WriteHeader StatusOK)
  end.

Definition deleteRateLimit (tb : TokenBucket) (clientID : string)
    : TokenBucket * ResponseWriter :=
  (DeleteClientLimits tb clientID, WriteHeader StatusNoContent).

Definition HandleRateLimit (tb : TokenBucket) (r : Request)
    : TokenBucket * ResponseWriter :=
  let parts := Split (Path r) "/"%char in
  if bool_decide (len parts < 4)
  then (tb, Error "Invalid URL format. Use /admin/ratelimit/{clientID}" StatusBadRequest)
  else
    match index parts 3 with
    | None => (* not reached: [parts] has four pieces or more *)
        (tb, {| StatusCode := 0; Written := NoBody |})
    | Some clientID =>
        if bool_decide (Method r = "GET") then getRateLimit tb clientID
        else if bool_decide (Method r = "POST") then createRateLimit tb r clientID
        else if bool_decide (Method r = "PUT") then updateRateLimit tb r clientID
        else if bool_decide (Method r = "DELETE") then deleteRateLimit tb clientID
        else (tb, Error "Method not allowed" StatusMethodNotAllowed)
    end.

End handler.

(** ** Package [handler]: the methods of [Handler] *)

Module Handler.

(** [AdminChangeStrategy].  [decoded] is what decoding the body into
    the request struct yields: its strategy field, [None] when decoding
    fails. *)
Definition AdminChangeStrategy (lb : load_balancer.loadBalancer) (r : http.Request)
    (decoded : option string) : load_balancer.loadBalancer * http.Reply :=
  if negb (bool_decide (http.Method r = "POST"))
  then (lb, {| http.ReplyHeader := ∅; http.ReplyStatus := http.StatusMethodNotAllowed;
               http.ReplyBody := [] |})
  else
    match decoded with
    | None =>
        (lb, {| http.ReplyHeader := ∅; http.ReplyStatus := http.StatusBadRequest;
                http.ReplyBody := [("error", "Invalid request body")] |})
    | Some name =>
        match algorithm.GetStrategy name with
        | Ret strategy =>
            (load_balancer.SetStrategy lb strategy,
             {| http.ReplyHeader := ∅; http.ReplyStatus := http.StatusOK;
                http.ReplyBody := [("message", "Strategy changed successfully");
                              ("strategy", algorithm.Name strategy)] |})
        | Error err =>
            (lb, {| http.ReplyHeader := ∅; http.ReplyStatus := http.StatusBadRequest;
                    http.ReplyBody := [("error", err)] |})
        | Panic => (* not reached: [GetStrategy] does not panic *)
            (lb, {| http.ReplyHeader := ∅; http.ReplyStatus := 0; http.ReplyBody := [] |})
        end
    end.

(** What the proxying handler did with a request: answered 503 by
    itself, had backend [b] serve it, or panicked (on a nil backend or
    an index out of range, or because the proxy did). *)
Inductive served (A : Type) : Type :=
| Unavailable (w : http.Reply)
| Proxied (b : backend.ptr) (res : A)
| Panicked.
Arguments Unavailable {A} w.
Arguments Proxied {A} b res.
Arguments Panicked {A}.

(** [Handler.LoadBalancer]: select, then serve through the backend.
    [Proxy b] is the run of backend [b]'s reverse proxy, as for
    [ServeHTTP]; what comes of it is its result, or [None] when it
    panics, as [httputil.ReverseProxy] does with [http.ErrAbortHandler]
    when copying the response fails.  The panic goes through
    [ServeHTTP], whose deferred decrement runs, and through the
    handler. *)
Definition LoadBalancer {A}
    (Proxy : backend.ptr -> gmap nat backend.Backend
             -> gmap nat backend.Backend * option A)
    (hs : nat -> gmap nat backend.Backend) (h : gmap nat backend.Backend)
    (lb : load_balancer.loadBalancer)
    : option (gmap nat backend.Backend * load_balancer.loadBalancer * served A) :=
  match load_balancer.GetNextBackend hs lb with
  | None => None
  | Some (Error _, lb') =>
      Some (h, lb',
            Unavailable
              {| http.ReplyHeader := http.Header_Set ∅ "Content-Type" "application/json";
                 http.ReplyStatus := http.StatusServiceUnavailable;
                 http.ReplyBody := [("error", "No healthy backends available")] |})
  | Some (Panic, lb') => Some (h, lb', Panicked)
  | Some (Ret b, lb') =>
      match backend.ServeHTTP (Proxy b) h b with
      | None => Some (h, lb', Panicked)
      | Some (h', None) => Some (h', lb', Panicked)
      | Some (h', Some res) => Some (h', lb', Proxied b res)
      end
  end.

End Handler.

(** ** The Round-Robin algorithm as the specification words it

    "Record [start = c]; loop: [b = pool[c]]; [c = (c+1) mod len(pool)];
    if [b.is_healthy()] return [b]; if [c == start] return error
    no healthy backends available.  If the pool is empty return
    no backends available."  The loop is given as the relation between
    the cursor it starts an iteration with and what it eventually
    returns, together with the cursor it leaves behind. *)

Module spec.
Import backend.

Section RoundRobin.
Variable is_healthy : ptr -> bool.
Variable pool : list ptr.

Inductive scan (start : Z) : Z -> outcome ptr * Z -> Prop :=
| scan_healthy c b :
    index pool c = Some b ->
    is_healthy b = true ->
    scan start c (Ret b, (c + 1) mod len pool)
| scan_wrapped c b :
    index pool c = Some b ->
    is_healthy b = false ->
    (c + 1) mod len pool = start ->
    scan start c (Error "no healthy backends available", (c + 1) mod len pool)
| scan_continue c b res :
    index pool c = Some b ->
    is_healthy b = false ->
    (c + 1) mod len pool <> start ->
    scan start ((c + 1) mod len pool) res ->
    scan start c res.

Inductive next (c : Z) : outcome ptr * Z -> Prop :=
| next_empty :
    pool = [] -> next c (Error "no backends available", c)
| next_scan res :
    pool <> [] -> scan c c res -> next c res.
End RoundRobin.

End spec.

(** ** The client identifier as the specification words it

    "If header X-API-Key is present and non-empty: "api:" + value.
    Else if X-Forwarded-For present: the first comma-separated token,
    trimmed.  Else: the host portion of the remote address (text up to
    the first ":")." *)

(** The text of [s] up to, and without, the first [sep]; all of [s]
    when [sep] does not occur. *)
Fixpoint up_to (sep : ascii) (s : string) : string :=
  match s with
  | EmptyString => EmptyString
  | String c s' =>
      if bool_decide (c = sep) then EmptyString else String c (up_to sep s')
  end.

(** A string that is entries of [table] written one after the other. *)
Inductive made_of (table : list string) : string -> Prop :=
| made_of_nil : made_of table EmptyString
| made_of_cons enc s :
    enc ∈ table -> made_of table s -> made_of table (enc +:+ s).

(** White space, by code point: the control characters tab to carriage
    return, the space, and the code points of Unicode's White_Space
    property: U+0085, U+00A0, U+1680, U+2000 to U+200A, U+2028, U+2029,
    U+202F, U+205F and U+3000. *)
Definition space_code_points : list N :=
  [9; 10; 11; 12; 13; 32; 133; 160; 5760;
   8192; 8193; 8194; 8195; 8196; 8197; 8198; 8199; 8200; 8201; 8202;
   8232; 8233; 8239; 8287; 12288]%N.

(** The UTF-8 encoding of a code point below U+10000 that is no
    surrogate: one, two or three bytes. *)
Definition utf8 (cp : N) : string :=
  string_of_list_ascii
    (map ascii_of_N
       (if (cp <? 128)%N then [cp]
        else if (cp <? 2048)%N then [192 + cp / 64; 128 + cp mod 64]
        else [224 + cp / 4096; 128 + (cp / 64) mod 64; 128 + cp mod 64])%N).

(** White space as it stands in a string. *)
Definition white : list string := map utf8 space_code_points.

(** [t] is [s] trimmed: [s] is [t] between two runs of white space, and
    [t] neither starts nor ends with white space. *)
Definition trimmed (s t : string) : Prop :=
  (exists pre post,
      s = pre +:+ t +:+ post /\ made_of white pre /\ made_of white post)
  /\ (forall sp rest, sp ∈ white -> t <> sp +:+ rest)
  /\ (forall sp rest, sp ∈ white -> t <> rest +:+ sp).

(** The value of a header that is present and not empty: the first
    value the request carries under the header's name.  The names of
    header fields do not depend on the case of their letters; a server
    of net/http hands the headers of a request over under names with a
    capital at the start and after each hyphen, and [name] is given in
    that form: X-Api-Key for the header X-API-Key. *)
Definition present (hd : gmap string (list string)) (name : string)
    : option string :=
  match hd !! name with
  | Some (v :: _) => if bool_decide (v = EmptyString) then None else Some v
  | _ => None
  end.

(** The three rules, in their order. *)
Inductive client_id_rule (r : http.Request) : string -> Prop :=
| rule_api_key key :
    present (http.Header r) "X-Api-Key" = Some key ->
    client_id_rule r ("api:" +:+ key)
| rule_forwarded_for forwarded token :
    present (http.Header r) "X-Api-Key" = None ->
    present (http.Header r) "X-Forwarded-For" = Some forwarded ->
    trimmed (up_to "," forwarded) token ->
    client_id_rule r token
| rule_remote_addr :
    present (http.Header r) "X-Api-Key" = None ->
    present (http.Header r) "X-Forwarded-For" = None ->
    client_id_rule r (up_to ":" (http.RemoteAddr r)).

(** A table of encodings none of which is empty or starts another. *)
Definition prefix_code (table : list string) : Prop :=
  Forall (fun enc => enc <> EmptyString) table
  /\ Forall (fun enc =>
               Forall (fun enc' => String.prefix enc enc' = true -> enc = enc') table)
       table.

(** The bytes of [s] after its first byte. *)
Definition later_bytes (s : string) : list ascii :=
  match s with
  | EmptyString => []
  | String _ s' => list_ascii_of_string s'
  end.

(** ** Conditions of use *)

(** Every pointer of the pool holds a record, and the pool's length is
    an [int]. *)
Definition pool_ok (h : gmap nat backend.Backend) (backends : list backend.ptr)
    : Prop :=
  len backends <= MaxInt /\ Forall (fun b => is_Some (h !! b)) backends.

(** The cursor indexes the pool. *)
Definition cursor_ok (s : algorithm.RoundRobinStrategy)
    (backends : list backend.ptr) : Prop :=
  0 <= algorithm.current s < len backends.

(** The same for a strategy value; an empty pool is never indexed. *)
Definition strategy_ok (s : algorithm.Strategy) (backends : list backend.ptr)
    : Prop :=
  match s with
  | algorithm.RoundRobin rr => backends = [] \/ cursor_ok rr backends
  end.

(** What [b.is_healthy()] reads in store [h]. *)
Definition reads_healthy (h : gmap nat backend.Backend) (b : backend.ptr) : bool :=
  match backend.IsHealthy h b with Some true => true | _ => false end.

(** Iterations left before a cursor at [cur], in a pool of [n]
    backends, is back at [start]. *)
Definition remaining (n start cur : Z) : Z :=
  if bool_decide (cur < start) then start - cur else n - cur + start.

(** A client's bucket starts fresh with rate [R] and burst [B]: the
    limits were just installed by [SetClientLimits], or nothing is
    stored for the client and [R] and [B] are the defaults. *)
Definition starts_fresh (tb : rate_limiter.TokenBucket) (clientID : string)
    (R : Q) (B : Z) : Prop :=
  (exists tb0, tb = rate_limiter.SetClientLimits tb0 clientID R B)
  \/ (rate_limiter.limiters tb !! clientID = None
      /\ rate_limiter.clientLimits tb !! clientID = None
      /\ rate_limiter.defaultRate tb = R
      /\ rate_limiter.defaultBurst tb = B).

(** A bucket of rate [R] and burst [B], first used at [t1] and last at
    [t], less than [1 / R] seconds later, from which [j] tokens were
    taken: it holds the other [B - j] and what was refilled since [t1]. *)
Definition drawn (R : Q) (B : Z) (t1 : Q) (lim : rate_limiter.Limiter)
    (j : Z) (t : Q) : Prop :=
  rate_limiter.limit lim = R /\ rate_limiter.burst lim = B
  /\ rate_limiter.last lim = t
  /\ (t1 <= t)%Q /\ ((t - t1) * R < 1)%Q
  /\ (rate_limiter.tokens lim == inject_Z (B - j) + (t - t1) * R)%Q.

(** Requests starting ([true]) and ending ([false]) on backend [b], in
    the order their atomic additions take effect. *)
Definition count_requests (evs : list bool) (h : gmap nat backend.Backend)
    (b : backend.ptr) : gmap nat backend.Backend :=
  foldl (fun h1 (e : bool) =>
           if e then backend.IncrementConnections h1 b
           else backend.DecrementConnections h1 b)
        h evs.

(** The flag a probe leaves, given the flag it found. *)
Definition flag_after (p : load_balancer.probe) (old : bool) : bool :=
  match p with
  | load_balancer.RequestError => old
  | load_balancer.TransportError => false
  | load_balancer.Response StatusCode => bool_decide (StatusCode = 200)
  end.

(** A probe that marks its backend unhealthy. *)
Definition probe_fails (p : load_balancer.probe) : Prop :=
  match p with
  | load_balancer.RequestError => False
  | load_balancer.TransportError => True
  | load_balancer.Response StatusCode => StatusCode <> 200
  end.

(** What a probe logs when it finds the flag it is about to write. *)
Definition steady_logs (p : load_balancer.probe)
    : list (load_balancer.level * string) :=
  match p with
  | load_balancer.RequestError =>
      [(load_balancer.LevelError, "Failed to create health check request")]
  | load_balancer.TransportError =>
      [(load_balancer.LevelWarn, "Health check connection failed")]
  | load_balancer.Response _ => []
  end.

(** The bucket a client is admitted against carries the client's
    limits, and a client with stored limits has a bucket. *)
Definition buckets_match (tb : rate_limiter.TokenBucket) : Prop :=
  (forall clientID lim,
      rate_limiter.limiters tb !! clientID = Some lim ->
      rate_limiter.limit lim = rate_limiter.GetRate tb clientID
      /\ rate_limiter.burst lim = rate_limiter.GetBurst tb clientID)
  /\ (forall clientID,
        is_Some (rate_limiter.clientLimits tb !! clientID) ->
        is_Some (rate_limiter.limiters tb !! clientID)).

(** Every stored entry has a positive rate and a positive burst. *)
Definition limits_positive (tb : rate_limiter.TokenBucket) : Prop :=
  forall clientID limits,
    rate_limiter.clientLimits tb !! clientID = Some limits ->
    (0 < rate_limiter.Rate limits)%Q /\ 0 < rate_limiter.Burst limits.

(** A default rate that is not [<= 0]: a positive number, +Inf, or a
    NaN. *)
Definition rate_not_le_0 (x : float64) : Prop :=
  match x with
  | Finite q => (0 < q)%Q
  | PosInf => True
  | NegInf => False
  | NaN => True
  end.

(** The address [NewLoadBalancer] formats for a configured backend. *)
Definition backend_address (c : config.BackendConfig) : string :=
  "http://" +:+ config.Host c +:+ ":" +:+ pretty (config.Port c).

(** The configured backends that are enabled, in the order of the
    configuration. *)
Definition enabled (cfgs : list config.BackendConfig)
    : list config.BackendConfig :=
  filter (fun c => config.Enabled c = true) cfgs.

(** Backend [b] of store [h] is as built from the configuration [c]:
    it carries the id of [c] and the parsed address, is healthy and has
    no connection. *)
Definition built_from (url_Parse : string -> string + string)
    (h : gmap nat backend.Backend) (b : backend.ptr)
    (c : config.BackendConfig) : Prop :=
  exists u,
    url_Parse (backend_address c) = inl u
    /\ h !! b = Some (backend.mkBackend (config.ID c) u true 0).

(** The address of [c] parses. *)
Definition parses (url_Parse : string -> string + string)
    (c : config.BackendConfig) : Prop :=
  exists u, url_Parse (backend_address c) = inl u.

(** ** Example data: the pool of the end-to-end scenarios *)

Module example.
Import backend algorithm load_balancer.

Fixpoint new_pool (ids : list string) (h : gmap nat Backend)
    : list ptr * gmap nat Backend :=
  match ids with
  | [] => ([], h)
  | id :: ids' =>
      let '(b, h1) := NewBackend h id ("http://" +:+ id +:+ ":8080") in
      let '(bs, h2) := new_pool ids' h1 in
      (b :: bs, h2)
  end.

(** Pool [b1, b2, b3], all healthy. *)
Definition pool3 : list ptr := (new_pool ["b1"; "b2"; "b3"] ∅).1.
Definition store3 : gmap nat Backend := (new_pool ["b1"; "b2"; "b3"] ∅).2.

(** The same pool after [b2] answered its probe with a 500. *)
Definition store3_b2_down : gmap nat Backend :=
  match checkBackendHealth store3 2%nat (Response 500) with
  | Some (h, _) => h
  | None => store3
  end.

(** The same pool with every backend unreachable. *)
Definition store3_all_down : gmap nat Backend :=
  foldr (fun b h => SetHealthy h b false) store3 pool3.

Definition lb3 : loadBalancer :=
  {| backends := pool3; strategy := RoundRobin NewRoundRobinStrategy |}.

(** A configuration of three backends, the second one disabled, and
    the balancer and store built from it with the identity standing
    for [url.Parse]. *)
Definition cfg3 : config.Config :=
  config.mkConfig (config.mkServerConfig 8080)
    (config.mkLoadBalancerConfig "RoundRobin" 10000000000)
    [config.mkBackendConfig "b1" "10.0.0.1" 9001 0 0 0 true;
     config.mkBackendConfig "b2" "10.0.0.2" 9002 0 0 0 false;
     config.mkBackendConfig "b3" "10.0.0.3" 9003 0 0 0 true]
    (config.mkLoggingConfig "dev" "info")
    (config.mkRateLimitConfig true (Finite (10 # 1)) 20).

Definition lb_cfg3 : loadBalancer :=
  {| backends := [1%nat; 2%nat]; strategy := RoundRobin NewRoundRobinStrategy |}.

Definition store_cfg3 : gmap nat Backend :=
  <[2%nat := mkBackend "b3" "http://10.0.0.3:9003" true 0]>
    (<[1%nat := mkBackend "b1" "http://10.0.0.1:9001" true 0]> ∅).
End example.

(** * Properties *)

(** ** Integer and indexing facts *)

Lemma wrap_int_small z : MinInt <= z <= MaxInt -> wrap_int z = z.
Proof.
  unfold MinInt, MaxInt, wrap_int. intros Hz.
  rewrite Z.mod_small; lia.
Qed.

Lemma next_cursor_mod c n :
  0 <= c < n -> n <= MaxInt -> int_rem (int_add c 1) n = (c + 1) mod n.
Proof.
  intros Hc Hn. unfold int_add, int_rem.
  rewrite wrap_int_small by (unfold MinInt, MaxInt in *; lia).
  apply Z.rem_mod_nonneg; lia.
Qed.

Lemma succ_mod c n :
  0 <= c < n -> (c + 1) mod n = if bool_decide (c + 1 = n) then 0 else c + 1.
Proof.
  intros Hc. case_bool_decide as E.
  - rewrite E. apply Z.mod_same. lia.
  - apply Z.mod_small. lia.
Qed.

Lemma succ_mod_range c n : 0 <= c < n -> 0 <= (c + 1) mod n < n.
Proof. intros Hc. apply Z.mod_pos_bound. lia. Qed.

Lemma index_lookup {A} (l : list A) (c : Z) :
  0 <= c -> index l c = l !! Z.to_nat c.
Proof. intros Hc. unfold index. by rewrite bool_decide_eq_true_2. Qed.

Lemma index_in_range {A} (l : list A) (c : Z) :
  0 <= c < len l -> exists b, l !! Z.to_nat c = Some b /\ b ∈ l.
Proof.
  unfold len. intros Hc.
  destruct (lookup_lt_is_Some_2 l (Z.to_nat c)) as [b Hb]; [lia|].
  exists b. split; [done|]. apply list_elem_of_lookup. eauto.
Qed.

Lemma index_out_of_range {A} (l : list A) (c : Z) :
  ~ (0 <= c < len l) -> index l c = None.
Proof.
  unfold index, len. intros Hc. case_bool_decide; [|done].
  apply lookup_ge_None. lia.
Qed.

(** ** Allocation of backends *)

Section allocation.
Import backend.

Lemma fresh_above (h : gmap nat Backend) (p : ptr) :
  is_Some (h !! p) -> (p < fresh h)%nat.
Proof.
  intros Hp. unfold fresh.
  assert (p ∈ elements (dom h)) as Hin by (by apply elem_of_elements, elem_of_dom).
  apply max_list_elem_of_le in Hin. apply Nat.lt_succ_r. exact Hin.
Qed.

Lemma NewBackend_fresh (h : gmap nat Backend) (id url : string) :
  h !! (NewBackend h id url).1 = None.
Proof.
  simpl. destruct (h !! fresh h) eqn:E; [|done].
  pose proof (fresh_above h (fresh h) ltac:(eauto)). lia.
Qed.

(** A pool allocated backend by backend holds distinct pointers, all
    healthy at first. *)
Lemma new_pool_distinct (ids : list string) :
  forall h,
    NoDup (example.new_pool ids h).1
    /\ Forall (fun b => h !! b = None
                        /\ IsHealthy (example.new_pool ids h).2 b = Some true)
         (example.new_pool ids h).1
    /\ (forall p x, h !! p = Some x -> (example.new_pool ids h).2 !! p = Some x).
Proof.
  induction ids as [|id ids IH]; intros h; simpl.
  { split; [constructor|]. split; [constructor|done]. }
  destruct (example.new_pool ids _) as [bs h2] eqn:Hrec.
  specialize (IH (<[fresh h := mkBackend id ("http://" +:+ id +:+ ":8080") true 0]> h)).
  rewrite Hrec in IH. simpl in *. destruct IH as (Hnd & Hall & Hkeep).
  assert (Hf : h !! fresh h = None) by apply (NewBackend_fresh h id EmptyString).
  split; [|split].
  - constructor; [|done]. intros Hin.
    rewrite Forall_forall in Hall. destruct (Hall _ Hin) as [Hnone _].
    by rewrite lookup_insert_eq in Hnone.
  - constructor.
    + split; [done|]. unfold IsHealthy.
      erewrite Hkeep by apply lookup_insert_eq. done.
    + eapply Forall_impl; [exact Hall|]. intros b [Hnone Hh]. simpl in *.
      split; [|done].
      destruct (decide (fresh h = b)) as [<-|Hne]; [by rewrite lookup_insert_eq in Hnone|].
      by rewrite lookup_insert_ne in Hnone.
  - intros p x Hp. apply Hkeep.
    destruct (decide (fresh h = p)) as [<-|Hne].
    { exfalso. pose proof (fresh_above h (fresh h) (mk_is_Some _ _ Hp)). lia. }
    by rewrite lookup_insert_ne.
Qed.

End allocation.

(** ** The scan loop of Round-Robin *)

Section round_robin.
Import backend algorithm.

Variable backends : list ptr.
Hypothesis Hlen : len backends <= MaxInt.

Lemma IsHealthy_None h b : IsHealthy h b = None -> h !! b = None.
Proof. unfold IsHealthy. by destruct (h !! b). Qed.

Lemma reads_healthy_true h b : IsHealthy h b = Some true -> reads_healthy h b = true.
Proof. unfold reads_healthy. by intros ->. Qed.

Lemma reads_healthy_false h b : IsHealthy h b = Some false -> reads_healthy h b = false.
Proof. unfold reads_healthy. by intros ->. Qed.

Lemma remaining_next start cur (d : nat) :
  0 <= start < len backends ->
  0 <= cur < len backends ->
  Z.of_nat (S d) = remaining (len backends) start cur ->
  (cur + 1) mod len backends <> start ->
  Z.of_nat d = remaining (len backends) start ((cur + 1) mod len backends).
Proof.
  intros Hs Hc Hd Hw. revert Hd Hw. unfold remaining. rewrite succ_mod by done.
  repeat case_bool_decide; lia.
Qed.

(** Whatever the prober writes meanwhile, the loop returns before the
    cursor has gone round: with a backend whose flag it read as true,
    or with the error. *)
Lemma loop_reads (hs : nat -> gmap nat Backend) (d : nat) :
  forall (fuel k : nat) (start cur : Z),
    0 <= start < len backends ->
    0 <= cur < len backends ->
    Z.of_nat d = remaining (len backends) start cur ->
    (d <= fuel)%nat ->
    exists r c',
      NextBackend_loop fuel hs k backends start cur = Some (r, c')
      /\ 0 <= c' < len backends
      /\ ((forall j, Forall (fun b => is_Some (hs j !! b)) backends) ->
          (exists b j, r = Ret b /\ b ∈ backends /\ (k <= j < k + d)%nat
                       /\ IsHealthy (hs j) b = Some true)
          \/ r = Error "no healthy backends available").
Proof.
  induction d as [|d IH]; intros fuel k start cur Hs Hc Hd Hf.
  { exfalso. unfold remaining in Hd. case_bool_decide; lia. }
  destruct fuel as [|fuel]; [lia|]. simpl.
  destruct (index_in_range backends cur Hc) as (b & Hb & Hin).
  rewrite index_lookup by lia. rewrite Hb.
  rewrite next_cursor_mod by done.
  pose proof (succ_mod_range cur _ Hc) as Hr.
  destruct (IsHealthy (hs k) b) as [[|]|] eqn:Hh.
  - eexists _, _. split; [done|]. split; [done|]. intros _.
    left. exists b, k. repeat split; [done|lia|lia|done].
  - case_bool_decide as Hw.
    + eexists _, _. split; [done|]. split; [done|]. intros _. by right.
    + destruct (IH fuel (S k) start ((cur + 1) mod len backends))
        as (r & c' & Hl & Hc' & Hres);
        [done|done|by apply remaining_next|lia|].
      exists r, c'. split; [done|]. split; [done|]. intros Hall.
      destruct (Hres Hall) as [(b' & j & Hr' & Hin' & Hj & Hh')|Hr']; [|by right].
      left. exists b', j. repeat split; [done|done|lia|lia|done].
  - eexists _, _. split; [done|]. split; [done|]. intros Hall.
    exfalso. apply IsHealthy_None in Hh.
    specialize (Hall k). rewrite Forall_forall in Hall.
    destruct (Hall b Hin) as [x Hx]. congruence.
Qed.

(** Against a store that stays as it is the loop follows the
    specification's loop. *)
Lemma loop_scan (h : gmap nat Backend) (d : nat) :
  forall (fuel k : nat) (start cur : Z),
    0 <= start < len backends ->
    0 <= cur < len backends ->
    Z.of_nat d = remaining (len backends) start cur ->
    (d <= fuel)%nat ->
    Forall (fun b => is_Some (h !! b)) backends ->
    exists r c',
      NextBackend_loop fuel (still h) k backends start cur = Some (r, c')
      /\ spec.scan (reads_healthy h) backends start cur (r, c').
Proof.
  induction d as [|d IH]; intros fuel k start cur Hs Hc Hd Hf Hall.
  { exfalso. unfold remaining in Hd. case_bool_decide; lia. }
  destruct fuel as [|fuel]; [lia|]. simpl. unfold still at 1.
  destruct (index_in_range backends cur Hc) as (b & Hb & Hin).
  rewrite index_lookup by lia. rewrite Hb.
  rewrite next_cursor_mod by done.
  pose proof (succ_mod_range cur _ Hc) as Hr.
  destruct (IsHealthy h b) as [[|]|] eqn:Hh.
  - eexists _, _. split; [done|].
    apply spec.scan_healthy; auto using reads_healthy_true.
    by rewrite index_lookup by lia.
  - case_bool_decide as Hw.
    + eexists _, _. split; [done|].
      apply spec.scan_wrapped with b; auto using reads_healthy_false.
      by rewrite index_lookup by lia.
    + destruct (IH fuel (S k) start ((cur + 1) mod len backends))
        as (r & c' & Hl & Hsc);
        [done|done|by apply remaining_next|lia|done|].
      exists r, c'. split; [done|].
      eapply spec.scan_continue; eauto using reads_healthy_false.
      by rewrite index_lookup by lia.
  - exfalso. apply IsHealthy_None in Hh.
    rewrite Forall_forall in Hall. destruct (Hall b Hin) as [x Hx]. congruence.
Qed.

Lemma remaining_start (c : Z) :
  0 <= c < len backends ->
  Z.of_nat (length backends) = remaining (len backends) c c.
Proof.
  intros Hc. unfold remaining. rewrite bool_decide_eq_false_2 by lia.
  unfold len. lia.
Qed.

(** What the specification's loop can return. *)
Lemma scan_result h start c res :
  spec.scan (reads_healthy h) backends start c res ->
  (exists b, res.1 = Ret b /\ b ∈ backends /\ IsHealthy h b = Some true)
  \/ (res.1 = Error "no healthy backends available" /\ res.2 = start).
Proof.
  induction 1 as [c b Hb Hh|c b Hb Hh Hw|c b res Hb Hh Hw Hsc IH]; simpl.
  - left. exists b. split; [done|]. split.
    + unfold index in Hb. case_bool_decide; [|done].
      apply list_elem_of_lookup. eauto.
    + unfold reads_healthy in Hh. by destruct (IsHealthy h b) as [[|]|].
  - right. done.
  - done.
Qed.

Lemma scan_deterministic h start c res1 res2 :
  spec.scan (reads_healthy h) backends start c res1 ->
  spec.scan (reads_healthy h) backends start c res2 ->
  res1 = res2.
Proof.
  intros H1. revert res2.
  induction H1 as [c b Hb Hh|c b Hb Hh Hw|c b res Hb Hh Hw Hsc IH];
    intros res2 H2; inversion H2; subst; simplify_eq; try congruence; auto.
Qed.

(** A healthy backend under the cursor is returned at once. *)
Lemma NextBackend_at_cursor h (c : Z) (b : ptr) :
  0 <= c < len backends ->
  backends !! Z.to_nat c = Some b ->
  IsHealthy h b = Some true ->
  NextBackend (still h) {| current := c |} backends
  = Some (Ret b, {| current := (c + 1) mod len backends |}).
Proof.
  intros Hc Hb Hh. unfold NextBackend.
  rewrite bool_decide_eq_false_2 by lia. simpl.
  destruct (length backends) as [|k] eqn:Hk; [unfold len in Hc; lia|].
  simpl. unfold still at 1. rewrite index_lookup by lia. rewrite Hb, Hh.
  by rewrite next_cursor_mod.
Qed.

(** [N] calls against an all-healthy pool walk the pool in order from
    the cursor; the backend at position [j] is chosen once per full
    turn, and once more when the last, partial turn reaches it. *)
Lemma calls_all_healthy h (N : nat) :
  Forall (fun b => IsHealthy h b = Some true) backends ->
  NoDup backends ->
  forall c : Z,
    0 <= c < len backends ->
    exists rs s',
      NextBackend_calls N h {| current := c |} backends = Some (rs, s')
      /\ length rs = N
      /\ (forall i : nat, (i < N)%nat ->
            rs !! i = Ret <$> backends !! Z.to_nat ((c + Z.of_nat i) mod len backends))
      /\ (forall (j : nat) (b : ptr), backends !! j = Some b ->
            Z.of_nat (times_chosen b rs)
            = (Z.of_nat N + len backends - 1 - (Z.of_nat j - c) mod len backends)
                / len backends).
Proof.
  intros Hall Hnd. induction N as [|N IH]; intros c Hc.
  { exists [], {| current := c |}. split; [done|]. split; [done|].
    split; [intros i Hi; lia|]. intros j b Hj. simpl.
    symmetry. apply Z.div_small.
    pose proof (Z.mod_pos_bound (Z.of_nat j - c) (len backends)). lia. }
  destruct (index_in_range backends c Hc) as (b0 & Hb0 & Hin0).
  assert (Hh0 : IsHealthy h b0 = Some true).
  { rewrite Forall_forall in Hall. auto. }
  pose proof (succ_mod_range c _ Hc) as Hr.
  destruct (IH _ Hr) as (rs & s' & Hrun & Hlen' & Hseq & Hcnt).
  exists (Ret b0 :: rs), s'. split.
  { simpl. rewrite (NextBackend_at_cursor h c b0) by done. by rewrite Hrun. }
  split; [simpl; lia|]. split.
  - intros [|i] Hi.
    + simpl. rewrite Z.add_0_r, Z.mod_small by lia. by rewrite Hb0.
    + simpl. rewrite Hseq by lia. do 3 f_equal.
      rewrite Zplus_mod_idemp_l. f_equal. lia.
  - intros j b Hj. simpl. specialize (Hcnt j b Hj).
    assert (Hjn : 0 <= Z.of_nat j < len backends).
    { apply lookup_lt_Some in Hj. unfold len. lia. }
    assert (Ho' : (Z.of_nat j - (c + 1) mod len backends) mod len backends
                  = if bool_decide (Z.of_nat j = c) then len backends - 1
                    else (Z.of_nat j - c) mod len backends - 1).
    { rewrite Zminus_mod_idemp_r.
      case_bool_decide as E.
      - replace (Z.of_nat j - (c + 1)) with (-1 + 1 * 0) by lia.
        replace (-1 + 1 * 0) with (len backends - 1 + (-1) * len backends) by lia.
        rewrite Z.mod_add by lia. apply Z.mod_small. lia.
      - destruct (decide (c < Z.of_nat j)).
        + rewrite !Z.mod_small by lia. lia.
        + replace (Z.of_nat j - (c + 1))
            with (Z.of_nat j - (c + 1) + len backends + (-1) * len backends) by lia.
          rewrite Z.mod_add by lia.
          replace (Z.of_nat j - c)
            with (Z.of_nat j - c + len backends + (-1) * len backends) by lia.
          rewrite Z.mod_add by lia.
          rewrite !Z.mod_small by lia. lia. }
    rewrite Ho' in Hcnt. clear Ho'.
    destruct (decide (b0 = b)) as [Eb|Eb].
    + subst b0. rewrite (bool_decide_eq_true_2 (b = b)) by done.
      assert (Z.to_nat c = j) as Ecj by (eapply NoDup_lookup; eauto).
      rewrite bool_decide_eq_true_2 in Hcnt by lia.
      replace (Z.of_nat j - c) with 0 by lia. rewrite Z.mod_0_l by lia.
      rewrite Nat2Z.inj_succ, Hcnt.
      replace (Z.of_nat (S N) + len backends - 1 - 0)
        with (Z.of_nat N + len backends - 1 - (len backends - 1) + 1 * len backends) by lia.
      rewrite Z.div_add by lia. lia.
    + rewrite (bool_decide_eq_false_2 (b0 = b)) by done.
      assert (Z.of_nat j <> c) as Ecj.
      { intros E. apply Eb. rewrite <- E, Nat2Z.id in Hb0. congruence. }
      rewrite bool_decide_eq_false_2 in Hcnt by done.
      rewrite Hcnt. f_equal. lia.
Qed.

End round_robin.

(** ** Selection: the claims *)

Section selection.
Import backend algorithm load_balancer.

Lemma NextBackend_spec h s backends :
  pool_ok h backends ->
  backends = [] \/ cursor_ok s backends ->
  exists r c',
    NextBackend (still h) s backends = Some (r, {| current := c' |})
    /\ spec.next (reads_healthy h) backends (current s) (r, c').
Proof.
  intros [Hlen Hall] [->|Hc].
  - exists (Error "no backends available"), (current s). destruct s as [c]. simpl.
    split; [done|]. by apply spec.next_empty.
  - destruct (loop_scan backends Hlen h (length backends) (length backends) 0
                (current s) (current s) Hc Hc (remaining_start backends _ Hc)
                ltac:(lia) Hall) as (r & c' & Hl & Hsc).
    exists r, c'. unfold NextBackend.
    rewrite bool_decide_eq_false_2 by (unfold cursor_ok in Hc; lia).
    rewrite Hl. split; [done|].
    apply spec.next_scan; [|done].
    intros ->. unfold cursor_ok, len in Hc. simpl in Hc. lia.
Qed.

Lemma next_deterministic h backends c res1 res2 :
  spec.next (reads_healthy h) backends c res1 ->
  spec.next (reads_healthy h) backends c res2 ->
  res1 = res2.
Proof.
  intros [He1|r1 Hn1 H1] [He2|r2 Hn2 H2]; try done.
  eapply scan_deterministic; eauto.
Qed.

(** With the cursor in the pool the call returns, whatever the prober
    writes meanwhile. *)
Lemma NextBackend_reads hs s backends :
  (forall j, pool_ok (hs j) backends) ->
  cursor_ok s backends ->
  exists r c',
    NextBackend_loop (length backends) hs 0 backends (current s) (current s)
      = Some (r, c')
    /\ NextBackend hs s backends = Some (r, {| current := c' |})
    /\ 0 <= c' < len backends
    /\ ((exists b j, r = Ret b /\ b ∈ backends /\ (j < length backends)%nat
                     /\ IsHealthy (hs j) b = Some true)
        \/ r = Error "no healthy backends available").
Proof.
  intros Hok Hc.
  assert (Hlen : len backends <= MaxInt) by apply (Hok 0%nat).
  destruct (loop_reads backends Hlen hs (length backends)
              (length backends) 0 (current s) (current s) Hc Hc
              (remaining_start backends _ Hc) ltac:(lia))
    as (r & c' & Hl & Hc' & Hres).
  specialize (Hres (fun j => proj2 (Hok j))).
  exists r, c'. split; [done|]. split; [|split; [done|]].
  - unfold NextBackend.
    rewrite bool_decide_eq_false_2 by (unfold cursor_ok in Hc; lia).
    by rewrite Hl.
  - destruct Hres as [(b & j & Hr & Hin & Hj & Hh)|Hr]; [|by right].
    left. exists b, j. repeat split; [done|done|lia|done].
Qed.

(** Whatever the cursor is, the call returns: a cursor outside the
    pool makes the first indexing panic. *)
Lemma NextBackend_returns hs s backends :
  len backends <= MaxInt ->
  exists r s', NextBackend hs s backends = Some (r, s').
Proof.
  intros Hlen. unfold NextBackend. case_bool_decide as He; [eauto|].
  destruct (decide (0 <= current s < len backends)) as [Hc|Hc].
  - destruct (loop_reads backends Hlen hs (length backends)
                (length backends) 0 (current s) (current s) Hc Hc
                (remaining_start backends _ Hc) ltac:(lia))
      as (r & c' & -> & _). eauto.
  - destruct (length backends) as [|k] eqn:Hk; [unfold len in He; lia|].
    simpl. rewrite index_out_of_range by done. eauto.
Qed.

End selection.

(** C1: a call of [GetNextBackend] hands on, unchanged, what the
    strategy's [NextBackend] returns.  Whatever the prober writes while
    the selection runs, a backend that is returned is a member of the
    pool whose [IsHealthy] read true during the selection (at one of
    its at most [len(pool)] reads); a backend whose flag reads false
    throughout is never returned; and when no backend of the pool reads
    healthy the result is an error. *)
Theorem GetNextBackend_healthy_only
    (hs : nat -> gmap nat backend.Backend) (lb : load_balancer.loadBalancer) :
  (forall j, pool_ok (hs j) (load_balancer.backends lb)) ->
  strategy_ok (load_balancer.strategy lb) (load_balancer.backends lb) ->
  exists res s',
    algorithm.Strategy_NextBackend hs (load_balancer.strategy lb) (load_balancer.backends lb)
      = Some (res, s')
    /\ load_balancer.GetNextBackend hs lb
      = Some (res, {| load_balancer.backends := load_balancer.backends lb;
                      load_balancer.strategy := s' |})
    /\ (forall b, res = Ret b ->
          b ∈ load_balancer.backends lb
          /\ exists j, (j < length (load_balancer.backends lb))%nat
                       /\ backend.IsHealthy (hs j) b = Some true)
    /\ (forall b, (forall j, backend.IsHealthy (hs j) b = Some false) -> res <> Ret b)
    /\ ((forall j, Forall (fun b => backend.IsHealthy (hs j) b = Some false)
                     (load_balancer.backends lb)) ->
          exists msg, res = Error msg).
Proof.
  destruct lb as [bs [rr]]. simpl. intros Hok Hc.
  assert (Hcall : exists r c',
             algorithm.NextBackend hs rr bs = Some (r, {| algorithm.current := c' |})
             /\ ((exists b j, r = Ret b /\ b ∈ bs /\ (j < length bs)%nat
                              /\ backend.IsHealthy (hs j) b = Some true)
                 \/ exists msg, r = Error msg)).
  { destruct Hc as [->|Hc].
    - exists (Error "no backends available"), (algorithm.current rr).
      destruct rr as [c]. split; [done|]. right. eauto.
    - destruct (NextBackend_reads hs rr bs Hok Hc) as (r & c' & _ & Hn & _ & Hres).
      exists r, c'. split; [done|].
      destruct Hres as [Hres|Hres]; [by left|right; eauto]. }
  destruct Hcall as (r & c' & Hn & Hres).
  exists r, (algorithm.RoundRobin {| algorithm.current := c' |}).
  unfold load_balancer.GetNextBackend. simpl. rewrite Hn.
  split; [done|]. split; [by destruct r|].
  split; [|split].
  - intros b ->. destruct Hres as [(b' & j & Hb & Hin & Hj & Hh)|[msg Hm]]; [|done].
    simplify_eq. eauto.
  - intros b Hf ->. destruct Hres as [(b' & j & Hb & Hin & Hj & Hh)|[msg Hm]]; [|done].
    simplify_eq. specialize (Hf j). congruence.
  - intros Hnone. destruct Hres as [(b' & j & Hb & Hin & Hj & Hh)|Hm]; [|done].
    specialize (Hnone j). rewrite Forall_forall in Hnone.
    specialize (Hnone b' Hin). congruence.
Qed.

Lemma GetNextBackend_healthy_only_witness :
  exists res s',
    algorithm.Strategy_NextBackend (backend.still example.store3_all_down)
      (load_balancer.strategy example.lb3) (load_balancer.backends example.lb3)
      = Some (res, s')
    /\ load_balancer.GetNextBackend (backend.still example.store3_all_down) example.lb3
      = Some (res, {| load_balancer.backends := load_balancer.backends example.lb3;
                      load_balancer.strategy := s' |})
    /\ (forall b, res = Ret b ->
          b ∈ load_balancer.backends example.lb3
          /\ exists j, (j < length (load_balancer.backends example.lb3))%nat
                       /\ backend.IsHealthy (backend.still example.store3_all_down j) b
                          = Some true)
    /\ (forall b,
          (forall j, backend.IsHealthy (backend.still example.store3_all_down j) b
                     = Some false) ->
          res <> Ret b)
    /\ ((forall j, Forall (fun b => backend.IsHealthy (backend.still example.store3_all_down j) b
                                    = Some false)
                     (load_balancer.backends example.lb3)) ->
          exists msg, res = Error msg).
Proof.
  apply (GetNextBackend_healthy_only (backend.still example.store3_all_down) example.lb3).
  - intros j. split; [by vm_compute|]. apply (bool_decide_unpack _). by vm_compute.
  - right. by vm_compute.
Defined.

(** C2: [NextBackend] is the specified algorithm.  On a pool whose
    pointers hold records, with the cursor inside the pool (or the pool
    empty), the call returns, what it returns and the cursor it leaves
    are related to the old cursor by the specification's algorithm
    ([spec.next]: the error no backends available for the empty pool,
    else inspect [pool[c]], advance to [(c+1) mod len(pool)], return the
    backend when healthy, and the error no healthy backends available
    once the cursor is back at the recorded start), and the algorithm
    allows no other result. *)
Theorem NextBackend_refines_spec
    (h : gmap nat backend.Backend) (s : algorithm.RoundRobinStrategy)
    (backends : list backend.ptr) :
  pool_ok h backends ->
  backends = [] \/ cursor_ok s backends ->
  exists r s',
    algorithm.NextBackend (backend.still h) s backends = Some (r, s')
    /\ spec.next (reads_healthy h) backends (algorithm.current s)
         (r, algorithm.current s')
    /\ (forall res,
          spec.next (reads_healthy h) backends (algorithm.current s) res ->
          res = (r, algorithm.current s')).
Proof.
  intros Hok Hc.
  destruct (NextBackend_spec h s backends Hok Hc) as (r & c' & Hn & Hsp).
  exists r, {| algorithm.current := c' |}. simpl.
  split; [done|]. split; [done|].
  intros res Hres. eapply next_deterministic; eauto.
Qed.

Lemma NextBackend_refines_spec_witness :
  exists r s',
    algorithm.NextBackend (backend.still example.store3_b2_down)
      {| algorithm.current := 1 |} example.pool3
      = Some (r, s')
    /\ spec.next (reads_healthy example.store3_b2_down) example.pool3 1
         (r, algorithm.current s')
    /\ (forall res,
          spec.next (reads_healthy example.store3_b2_down) example.pool3 1 res ->
          res = (r, algorithm.current s')).
Proof.
  apply (NextBackend_refines_spec example.store3_b2_down
           {| algorithm.current := 1 |} example.pool3).
  - split; [by vm_compute|]. apply (bool_decide_unpack _). by vm_compute.
  - right. by vm_compute.
Defined.

(** C3: [N >= 1] calls of [NextBackend], one after the other, on a
    freshly constructed Round-Robin strategy and a pool of [K >= 1]
    distinct backends that all stay healthy: every call returns a
    backend, call number [i] (from 0) returns the backend at position
    [i mod K] of the pool, so the results are the pool order repeated,
    and every backend of the pool is returned [N / K] times or
    [(N + K - 1) / K] times, the quotient rounded down or up. *)
Theorem round_robin_fair
    (h : gmap nat backend.Backend) (backends : list backend.ptr) (N : nat) :
  (1 <= length backends)%nat ->
  (1 <= N)%nat ->
  len backends <= MaxInt ->
  NoDup backends ->
  Forall (fun b => backend.IsHealthy h b = Some true) backends ->
  exists rs s',
    algorithm.NextBackend_calls N h algorithm.NewRoundRobinStrategy backends
      = Some (rs, s')
    /\ length rs = N
    /\ (forall i : nat, (i < N)%nat ->
          rs !! i = Ret <$> backends !! (i mod length backends)%nat)
    /\ (forall b, b ∈ backends ->
          algorithm.times_chosen b rs = (N / length backends)%nat
          \/ algorithm.times_chosen b rs
             = ((N + length backends - 1) / length backends)%nat).
Proof.
  intros HK HN Hlen Hnd Hall.
  destruct (calls_all_healthy backends Hlen h N Hall Hnd 0)
    as (rs & s' & Hrun & Hlr & Hseq & Hcnt); [unfold len; lia|].
  exists rs, s'. split; [done|]. split; [done|]. split.
  - intros i Hi. rewrite (Hseq i Hi). do 2 f_equal.
    rewrite Z.add_0_l. unfold len. rewrite <- Nat2Z.inj_mod. apply Nat2Z.id.
  - intros b Hb. apply list_elem_of_lookup in Hb as [j Hj].
    specialize (Hcnt j b Hj).
    assert (Hjn : (j < length backends)%nat) by (by eapply lookup_lt_Some).
    rewrite Z.sub_0_r, Z.mod_small in Hcnt by (unfold len; lia).
    unfold len in Hcnt.
    set (K := length backends) in *.
    assert (Hlo : Z.of_nat N / Z.of_nat K
                  <= (Z.of_nat N + Z.of_nat K - 1 - Z.of_nat j) / Z.of_nat K)
      by (apply Z.div_le_mono; lia).
    assert (Hhi : (Z.of_nat N + Z.of_nat K - 1 - Z.of_nat j) / Z.of_nat K
                  <= (Z.of_nat N + Z.of_nat K - 1) / Z.of_nat K)
      by (apply Z.div_le_mono; lia).
    assert (Hgap : (Z.of_nat N + Z.of_nat K - 1) / Z.of_nat K
                   <= Z.of_nat N / Z.of_nat K + 1).
    { replace (Z.of_nat N / Z.of_nat K + 1)
        with ((Z.of_nat N + 1 * Z.of_nat K) / Z.of_nat K)
        by (rewrite Z.div_add by lia; lia).
      apply Z.div_le_mono; lia. }
    assert (Hfl : Z.of_nat (N / K) = Z.of_nat N / Z.of_nat K)
      by apply Nat2Z.inj_div.
    assert (Hce : Z.of_nat ((N + K - 1) / K) = (Z.of_nat N + Z.of_nat K - 1) / Z.of_nat K).
    { rewrite Nat2Z.inj_div. f_equal. lia. }
    lia.
Qed.

Lemma round_robin_fair_witness :
  exists rs s',
    algorithm.NextBackend_calls 7 example.store3 algorithm.NewRoundRobinStrategy example.pool3
      = Some (rs, s')
    /\ length rs = 7%nat
    /\ (forall i : nat, (i < 7)%nat ->
          rs !! i = Ret <$> example.pool3 !! (i mod length example.pool3)%nat)
    /\ (forall b, b ∈ example.pool3 ->
          algorithm.times_chosen b rs = (7 / length example.pool3)%nat
          \/ algorithm.times_chosen b rs
             = ((7 + length example.pool3 - 1) / length example.pool3)%nat).
Proof.
  apply (round_robin_fair example.store3 example.pool3 7).
  - vm_compute. lia.
  - lia.
  - by vm_compute.
  - apply (bool_decide_unpack _). by vm_compute.
  - apply (bool_decide_unpack _). by vm_compute.
Defined.

(** C8: for a pool whose pointers hold records and a cursor in
    [[0, len(pool))] (so the pool is not empty), whatever the prober
    writes meanwhile, the scan loop returns within [len(pool)]
    iterations, each of which inspects one backend; the call returns a
    backend or the error no healthy backends available, and the cursor
    it leaves is again in [[0, len(pool))]. *)
Theorem NextBackend_terminates
    (hs : nat -> gmap nat backend.Backend) (s : algorithm.RoundRobinStrategy)
    (backends : list backend.ptr) :
  backends <> [] ->
  (forall j, pool_ok (hs j) backends) ->
  cursor_ok s backends ->
  exists r c',
    algorithm.NextBackend_loop (length backends) hs 0 backends
      (algorithm.current s) (algorithm.current s) = Some (r, c')
    /\ algorithm.NextBackend hs s backends = Some (r, {| algorithm.current := c' |})
    /\ ((exists b, r = Ret b) \/ r = Error "no healthy backends available")
    /\ 0 <= c' < len backends.
Proof.
  intros Hne Hok Hc.
  destruct (NextBackend_reads hs s backends Hok Hc) as (r & c' & Hl & Hn & Hc' & Hres).
  exists r, c'. split; [done|]. split; [done|]. split; [|done].
  destruct Hres as [(b & j & Hr & _)|Hr]; eauto.
Qed.

Lemma NextBackend_terminates_witness :
  exists r c',
    algorithm.NextBackend_loop (length example.pool3)
      (backend.still example.store3_all_down) 0 example.pool3 2 2 = Some (r, c')
    /\ algorithm.NextBackend (backend.still example.store3_all_down)
         {| algorithm.current := 2 |} example.pool3
       = Some (r, {| algorithm.current := c' |})
    /\ ((exists b, r = Ret b) \/ r = Error "no healthy backends available")
    /\ 0 <= c' < len example.pool3.
Proof.
  apply (NextBackend_terminates (backend.still example.store3_all_down)
           {| algorithm.current := 2 |} example.pool3).
  - by vm_compute.
  - intros j. split; [by vm_compute|]. apply (bool_decide_unpack _). by vm_compute.
  - by vm_compute.
Defined.

(** ** Health probes *)

(** C6: one probe of a backend that holds record [r].  When the probe
    request cannot be built the store is left as it was; when the
    transport call fails the backend's flag becomes false; when a
    response arrives the flag becomes true exactly when the status code
    is 200.  Nothing else in the record, and no other backend, changes. *)
Theorem checkBackendHealth_flag
    (h : gmap nat backend.Backend) (b : backend.ptr) (r : backend.Backend)
    (p : load_balancer.probe) :
  h !! b = Some r ->
  exists h' logs,
    load_balancer.checkBackendHealth h b p = Some (h', logs)
    /\ h' !! b
       = Some (backend.mkBackend (backend.ID r) (backend.URL r)
                 (match p with
                  | load_balancer.RequestError => backend.isHealthy r
                  | load_balancer.TransportError => false
                  | load_balancer.Response StatusCode => bool_decide (StatusCode = 200)
                  end)
                 (backend.activeConnections r))
    /\ (p = load_balancer.RequestError -> h' = h)
    /\ (forall b', b' <> b -> h' !! b' = h !! b').
Proof.
  intros Hb. unfold load_balancer.checkBackendHealth. rewrite Hb.
  destruct p as [| |code]; eexists _, _; (split; [reflexivity|]).
  - split; [by destruct r|]. split; done.
  - unfold backend.SetHealthy. rewrite lookup_alter_eq, Hb. simpl.
    split; [done|]. split; [done|].
    intros b' Hne. by rewrite lookup_alter_ne.
  - unfold backend.SetHealthy. rewrite lookup_alter_eq, Hb. simpl.
    split; [done|]. split; [done|].
    intros b' Hne. by rewrite lookup_alter_ne.
Qed.

Lemma checkBackendHealth_flag_witness :
  exists h' logs,
    load_balancer.checkBackendHealth example.store3 2%nat (load_balancer.Response 503)
      = Some (h', logs)
    /\ h' !! 2%nat
       = Some (backend.mkBackend "b2" "http://b2:8080" (bool_decide (503 = 200)) 0)
    /\ (load_balancer.Response 503 = load_balancer.RequestError -> h' = example.store3)
    /\ (forall b', b' <> 2%nat -> h' !! b' = example.store3 !! b').
Proof.
  apply (checkBackendHealth_flag example.store3 2%nat
           (backend.mkBackend "b2" "http://b2:8080" true 0)
           (load_balancer.Response 503)).
  by vm_compute.
Defined.

(** ** The rate limiter's table of client limits *)

Section client_limits.
Import rate_limiter.

Lemma TokenBucket_eq (tb1 tb2 : TokenBucket) :
  defaultRate tb1 = defaultRate tb2 ->
  defaultBurst tb1 = defaultBurst tb2 ->
  limiters tb1 = limiters tb2 ->
  clientLimits tb1 = clientLimits tb2 ->
  tb1 = tb2.
Proof. destruct tb1, tb2. simpl. by intros -> -> -> ->. Qed.

Lemma DeleteClientLimits_absent tb clientID :
  clientLimits tb !! clientID = None ->
  limiters tb !! clientID = None ->
  DeleteClientLimits tb clientID = tb.
Proof.
  intros Hc Hl. apply TokenBucket_eq; simpl; [done|done| |]; by apply delete_id.
Qed.

Lemma DeleteClientLimits_lookup tb clientID :
  clientLimits (DeleteClientLimits tb clientID) !! clientID = None
  /\ limiters (DeleteClientLimits tb clientID) !! clientID = None.
Proof. simpl. by rewrite !lookup_delete_eq. Qed.

End client_limits.

(** C5: for every limiter state, client id, rate and burst, reading the
    client's limits right after [SetClientLimits] gives exactly that
    rate and burst, and reading them right after [DeleteClientLimits]
    gives exactly the default rate and burst. *)
Theorem set_delete_then_get
    (tb : rate_limiter.TokenBucket) (clientID : string) (r : Q) (b : Z) :
  rate_limiter.GetClientLimits (rate_limiter.SetClientLimits tb clientID r b) clientID
  = {| rate_limiter.Rate := r; rate_limiter.Burst := b |}
  /\ rate_limiter.GetClientLimits (rate_limiter.DeleteClientLimits tb clientID) clientID
     = {| rate_limiter.Rate := rate_limiter.defaultRate tb;
          rate_limiter.Burst := rate_limiter.defaultBurst tb |}.
Proof.
  unfold rate_limiter.GetClientLimits. simpl.
  by rewrite lookup_insert_eq, lookup_delete_eq.
Qed.

(** ** Splitting strings *)

Section splitting.
Import gostrings.

Lemma Split_nonempty s sep : Split s sep <> [].
Proof.
  destruct s as [|c s]; simpl; [done|].
  case_bool_decide; [done|]. by destruct (Split s sep).
Qed.

Lemma Split_head s sep : Split s sep !! 0%nat = Some (up_to sep s).
Proof.
  induction s as [|c s IH]; simpl; [done|].
  case_bool_decide; [done|].
  destruct (Split s sep) as [|tok rest]; [done|].
  simpl in *. by simplify_eq.
Qed.

Lemma Split_app s1 s2 sep :
  Split (s1 +:+ String sep s2) sep = (Split s1 sep ++ Split s2 sep)%list.
Proof.
  induction s1 as [|c s1 IH]; simpl.
  - by rewrite bool_decide_eq_true_2.
  - case_bool_decide; [by rewrite IH|].
    rewrite IH. pose proof (Split_nonempty s1 sep).
    by destruct (Split s1 sep).
Qed.

Lemma Split_no_sep s sep :
  sep ∉ list_ascii_of_string s -> Split s sep = [s].
Proof.
  induction s as [|c s IH]; simpl; [done|].
  intros Hn. rewrite not_elem_of_cons in Hn. destruct Hn as [Hc Hs].
  rewrite bool_decide_eq_false_2 by done. by rewrite IH.
Qed.

Lemma up_to_no_sep s sep : sep ∉ list_ascii_of_string (up_to sep s).
Proof.
  induction s as [|c s IH]; simpl; [apply not_elem_of_nil|].
  case_bool_decide as E; simpl; [apply not_elem_of_nil|].
  apply not_elem_of_cons. split; [congruence|done].
Qed.

(** [up_to sep s] is followed in [s] by the first [sep], or by nothing. *)
Lemma up_to_prefix s sep :
  s = up_to sep s \/ exists rest, s = up_to sep s +:+ String sep rest.
Proof.
  induction s as [|c s IH]; simpl; [by left|].
  case_bool_decide as E.
  - right. exists s. by rewrite E.
  - destruct IH as [IH|[rest IH]].
    + left. by f_equal.
    + right. exists rest.
      change (String c s = String c (up_to sep s +:+ String sep rest)).
      by f_equal.
Qed.

End splitting.

(** ** Trimming white space *)

Section trimming.
Import gostrings.

Lemma app_empty_r (s : string) : s +:+ EmptyString = s.
Proof.
  induction s as [|c s IH]; [done|].
  change (String c (s +:+ EmptyString) = String c s). by rewrite IH.
Qed.

Lemma app_assoc_str (a b c : string) : (a +:+ b) +:+ c = a +:+ (b +:+ c).
Proof.
  induction a as [|x a IH]; [done|].
  change (String x ((a +:+ b) +:+ c) = String x (a +:+ (b +:+ c))). by rewrite IH.
Qed.

Lemma string_of_list_ascii_app (l1 l2 : list ascii) :
  string_of_list_ascii (l1 ++ l2)%list
  = string_of_list_ascii l1 +:+ string_of_list_ascii l2.
Proof.
  induction l1 as [|x l1 IH]; [done|].
  change (String x (string_of_list_ascii (l1 ++ l2)%list)
          = String x (string_of_list_ascii l1 +:+ string_of_list_ascii l2)).
  by rewrite IH.
Qed.

Lemma list_ascii_of_string_app (a b : string) :
  list_ascii_of_string (a +:+ b)
  = (list_ascii_of_string a ++ list_ascii_of_string b)%list.
Proof.
  induction a as [|x a IH]; [done|].
  change (x :: list_ascii_of_string (a +:+ b)
          = x :: (list_ascii_of_string a ++ list_ascii_of_string b)%list).
  by rewrite IH.
Qed.

Lemma str_rev_involutive (s : string) : str_rev (str_rev s) = s.
Proof.
  unfold str_rev. rewrite list_ascii_of_string_of_list_ascii, rev_involutive.
  apply string_of_list_ascii_of_string.
Qed.

Lemma str_rev_app (a b : string) : str_rev (a +:+ b) = str_rev b +:+ str_rev a.
Proof.
  unfold str_rev.
  by rewrite list_ascii_of_string_app, rev_app_distr, string_of_list_ascii_app.
Qed.

Lemma prefix_split (enc s : string) :
  String.prefix enc s = true -> exists rest, s = enc +:+ rest.
Proof.
  revert s. induction enc as [|a enc IH]; intros s; [by exists s|].
  destruct s as [|b s]; simpl; [done|].
  destruct (ascii_dec a b) as [->|]; [|done].
  intros [rest ->]%IH. by exists rest.
Qed.

Lemma prefix_app_l (enc p q : string) :
  String.prefix enc p = true -> String.prefix enc (p +:+ q) = true.
Proof.
  revert p. induction enc as [|a enc IH]; intros p.
  { by destruct (p +:+ q). }
  destruct p as [|b p]; simpl; [done|].
  change (String b p +:+ q) with (String b (p +:+ q)). simpl.
  destruct (ascii_dec a b); [apply IH|done].
Qed.

Lemma width_found table s k :
  width table s = S k ->
  exists enc, enc ∈ table /\ String.prefix enc s = true /\ String.length enc = S k.
Proof.
  unfold width. destruct (find _ table) as [enc|] eqn:Hf; [|done].
  apply find_some in Hf as [Hin Hp]. intros Hl.
  exists enc. by rewrite list_elem_of_In.
Qed.

Lemma width_empty table : width table EmptyString = 0%nat.
Proof.
  destruct (width table EmptyString) as [|k] eqn:Hw; [done|].
  apply width_found in Hw as (enc & _ & Hp & Hl). by destruct enc.
Qed.

Lemma width_none table s :
  Forall (fun enc => enc <> EmptyString) table ->
  width table s = 0%nat <-> Forall (fun enc => String.prefix enc s = false) table.
Proof.
  intros Hne. unfold width. split.
  - destruct (find _ table) as [enc|] eqn:Hf.
    + apply find_some in Hf as [Hin Hp]. intros Hl.
      rewrite Forall_forall in Hne. apply list_elem_of_In, Hne in Hin.
      by destruct enc.
    + intros _. apply Forall_forall. intros enc Hin.
      apply (find_none _ _ Hf). by apply list_elem_of_In.
  - intros Hall. destruct (find _ table) as [enc|] eqn:Hf; [|done].
    apply find_some in Hf as [Hin Hp].
    rewrite Forall_forall in Hall. apply list_elem_of_In, Hall in Hin. congruence.
Qed.

Lemma trim_front_empty table k : trim_front table k EmptyString = EmptyString.
Proof. destruct k; simpl; [|done]. by destruct (width table EmptyString). Qed.

(** What [trim_front] returns starts with no entry of the table. *)
Lemma trim_front_no_leading table s :
  forall k, width table (trim_front table k s) = 0%nat.
Proof.
  induction s as [|c s IH]; intros k.
  { rewrite trim_front_empty. apply width_empty. }
  destruct k as [|k]; simpl; [|apply IH].
  destruct (width table (String c s)) as [|k] eqn:Hw; [done|apply IH].
Qed.

(** What it drops, after the [k] bytes still owed to the current
    entry, is made of entries of the table. *)
Lemma trim_front_drops table s :
  forall k e rest,
    s = e +:+ rest ->
    String.length e = k ->
    exists pre, rest = pre +:+ trim_front table k s /\ made_of table pre.
Proof.
  induction s as [|c s IH]; intros k e rest Hs Hk.
  { destruct e; [|done]. simpl in Hs. subst. exists EmptyString.
    rewrite trim_front_empty. split; [done|constructor]. }
  destruct k as [|k].
  - destruct e; [|done]. change (String c s = rest) in Hs. subst rest. simpl.
    destruct (width table (String c s)) as [|k] eqn:Hw.
    { exists EmptyString. split; [done|constructor]. }
    apply width_found in Hw as (enc & Hin & Hp & Hl).
    apply prefix_split in Hp as [rest1 Hs].
    destruct enc as [|a enc]; [done|].
    change (String c s = String a (enc +:+ rest1)) in Hs.
    injection Hs as -> ->.
    destruct (IH k enc rest1 eq_refl) as (pre & Hpre & Hm); [by simpl in Hl; lia|].
    exists (String a enc +:+ pre). split; [|by constructor].
    rewrite app_assoc_str. by rewrite <- Hpre.
  - destruct e as [|a e]; [done|].
    change (String c s = String a (e +:+ rest)) in Hs.
    injection Hs as -> ->.
    simpl. apply (IH k e rest eq_refl). simpl in Hk. lia.
Qed.

Lemma white_space_nonempty :
  Forall (fun enc => enc <> EmptyString) white_space.
Proof. apply (bool_decide_unpack _). by vm_compute. Qed.

(** [TrimSpace s] is [s] without a run of white space at its front and
    one at its end, and neither starts nor ends with white space. *)
Lemma TrimSpace_trims (s : string) :
  (exists pre post,
      s = pre +:+ TrimSpace s +:+ post
      /\ made_of white_space pre
      /\ made_of (map str_rev white_space) (str_rev post))
  /\ width white_space (TrimSpace s) = 0%nat
  /\ width (map str_rev white_space) (str_rev (TrimSpace s)) = 0%nat.
Proof.
  unfold TrimSpace, TrimRightSpace.
  set (u := TrimLeftSpace s).
  destruct (trim_front_drops white_space s 0 EmptyString s eq_refl eq_refl)
    as (pre & Hpre & Hm).
  fold (TrimLeftSpace s) in Hpre. fold u in Hpre.
  set (rt := map str_rev white_space).
  destruct (trim_front_drops rt (str_rev u) 0 EmptyString (str_rev u) eq_refl eq_refl)
    as (post & Hpost & Hmr).
  assert (Hu : u = str_rev (trim_front rt 0 (str_rev u)) +:+ str_rev post).
  { rewrite <- str_rev_app, <- Hpost. by rewrite str_rev_involutive. }
  split; [|split].
  - exists pre, (str_rev post). split; [by rewrite <- Hu|].
    split; [done|]. by rewrite str_rev_involutive.
  - apply (width_none _ _ white_space_nonempty).
    pose proof (trim_front_no_leading white_space s 0) as Hnl.
    fold (TrimLeftSpace s) in Hnl. fold u in Hnl.
    apply (width_none _ _ white_space_nonempty) in Hnl.
    eapply Forall_impl; [exact Hnl|]. intros enc Hf. simpl in Hf.
    destruct (String.prefix enc (str_rev (trim_front rt 0 (str_rev u)))) eqn:Hp; [|done].
    apply (prefix_app_l _ _ (str_rev post)) in Hp. rewrite <- Hu in Hp. congruence.
  - rewrite str_rev_involutive. apply trim_front_no_leading.
Qed.

(** *** Trimming is determined

    The encodings of white space form a prefix code, also read from
    the end, and no encoding continues with a byte that starts one:
    so a string has one trimmed form, and [TrimSpace] returns it. *)

Lemma prefix_app_refl (a x : string) : String.prefix a (a +:+ x) = true.
Proof.
  induction a as [|c a IH]; [by destruct x|].
  change (String c a +:+ x) with (String c (a +:+ x)). simpl.
  by destruct (ascii_dec c c).
Qed.

Lemma prefix_app_cases (a b x : string) :
  String.prefix a (b +:+ x) = true ->
  String.prefix a b = true \/ String.prefix b a = true.
Proof.
  revert b. induction a as [|c a IH]; intros b; [by left; destruct b|].
  destruct b as [|d b]; [by right|].
  change (String d b +:+ x) with (String d (b +:+ x)). simpl.
  destruct (ascii_dec c d) as [->|]; [|done].
  destruct (ascii_dec d d); [|done]. apply IH.
Qed.

Lemma str_app_inv_head (a x y : string) : a +:+ x = a +:+ y -> x = y.
Proof.
  induction a as [|c a IH]; [done|].
  change (String c (a +:+ x) = String c (a +:+ y) -> x = y).
  intros [= H]. by apply IH.
Qed.

Lemma width_entry table enc x :
  prefix_code table -> enc ∈ table ->
  width table (enc +:+ x) = String.length enc.
Proof.
  intros [_ Hfree] Hin. unfold width.
  destruct (find _ table) as [enc0|] eqn:Hf.
  - apply find_some in Hf as [Hin0 Hp]. apply list_elem_of_In in Hin0.
    rewrite Forall_forall in Hfree.
    pose proof (Hfree _ Hin0) as H0. pose proof (Hfree _ Hin) as H1.
    rewrite Forall_forall in H0, H1.
    destruct (prefix_app_cases _ _ _ Hp) as [Hc|Hc].
    + by rewrite (H0 _ Hin Hc).
    + by rewrite (H1 _ Hin0 Hc).
  - pose proof (find_none _ _ Hf enc) as Hn. cbv beta in Hn.
    rewrite prefix_app_refl in Hn. discriminate Hn. by apply list_elem_of_In.
Qed.

Lemma trim_front_skip table (e x : string) :
  trim_front table (String.length e) (e +:+ x) = trim_front table 0 x.
Proof.
  induction e as [|c e IH]; [done|].
  change (String c e +:+ x) with (String c (e +:+ x)). simpl String.length.
  exact IH.
Qed.

Lemma trim_front_entry table enc x :
  prefix_code table -> enc ∈ table ->
  trim_front table 0 (enc +:+ x) = trim_front table 0 x.
Proof.
  intros Hcode Hin. pose proof (width_entry table enc x Hcode Hin) as Hw.
  destruct Hcode as [Hne _]. rewrite Forall_forall in Hne.
  pose proof (Hne _ Hin) as He. destruct enc as [|c enc]; [done|].
  change (String c enc +:+ x) with (String c (enc +:+ x)) in *.
  simpl. rewrite Hw. simpl. apply trim_front_skip.
Qed.

Lemma trim_front_run table pre x :
  prefix_code table -> made_of table pre ->
  trim_front table 0 (pre +:+ x) = trim_front table 0 x.
Proof.
  intros Hcode. induction 1 as [|enc s Hin _ IH]; [done|].
  rewrite app_assoc_str. by rewrite trim_front_entry.
Qed.

Lemma trim_front_stays table s :
  width table s = 0%nat -> trim_front table 0 s = s.
Proof. intros Hw. destruct s; simpl; [by rewrite Hw|]. by rewrite Hw. Qed.

Lemma made_of_snoc table s enc :
  made_of table s -> enc ∈ table -> made_of table (s +:+ enc).
Proof.
  intros Hs Hin. induction Hs as [|e s He _ IH].
  - change (made_of table enc). rewrite <- (app_empty_r enc). by repeat constructor.
  - rewrite app_assoc_str. by constructor.
Qed.

Lemma made_of_rev table s :
  made_of table s -> made_of (map str_rev table) (str_rev s).
Proof.
  induction 1 as [|enc s Hin _ IH]; [constructor|].
  rewrite str_rev_app. apply made_of_snoc; [done|].
  apply list_elem_of_fmap. eauto.
Qed.

Lemma map_str_rev_involutive (table : list string) :
  map str_rev (map str_rev table) = table.
Proof.
  rewrite map_map. rewrite <- (map_id table) at 2.
  apply map_ext. intros a. apply str_rev_involutive.
Qed.

Lemma made_of_unrev table s :
  made_of (map str_rev table) (str_rev s) -> made_of table s.
Proof.
  intros H. apply made_of_rev in H.
  by rewrite map_str_rev_involutive, str_rev_involutive in H.
Qed.

(** The table of the specification is the table of [TrimSpace]. *)
Lemma white_white_space : white = white_space.
Proof. by vm_compute. Qed.

Lemma white_space_code : prefix_code white_space.
Proof.
  split; [apply white_space_nonempty|].
  apply (bool_decide_unpack _). by vm_compute.
Qed.

Lemma white_space_rev_code : prefix_code (map str_rev white_space).
Proof. split; apply (bool_decide_unpack _); by vm_compute. Qed.

(** No encoding of white space goes on with a byte that starts one. *)
Lemma white_space_leads :
  forallb (fun enc =>
             forallb (fun enc' =>
                        match enc' with
                        | EmptyString => true
                        | String c _ => negb (existsb (Ascii.eqb c) (later_bytes enc))
                        end) white_space) white_space = true.
Proof. by vm_compute. Qed.

Lemma later_bytes_app (t : string) c (u : string) :
  t <> EmptyString -> c ∈ later_bytes (t +:+ String c u).
Proof.
  destruct t as [|d t]; [done|]. intros _.
  change (String d t +:+ String c u) with (String d (t +:+ String c u)). simpl.
  rewrite list_ascii_of_string_app. apply elem_of_app. right.
  simpl. by left.
Qed.

(** After a text that does not start with white space, a run of white
    space does not make it start with white space. *)
Lemma width_no_straddle t post :
  t <> EmptyString ->
  (forall sp rest, sp ∈ white_space -> t <> sp +:+ rest) ->
  made_of white_space post ->
  width white_space (t +:+ post) = 0%nat.
Proof.
  intros Ht Hnp Hpost.
  apply (width_none _ _ white_space_nonempty), Forall_forall. intros enc Hin.
  destruct (String.prefix enc (t +:+ post)) eqn:Hp; [exfalso|done].
  destruct (prefix_app_cases _ _ _ Hp) as [Hc|Hc].
  { apply prefix_split in Hc as [rest ->]. by apply (Hnp enc rest). }
  apply prefix_split in Hc as [u ->].
  apply prefix_split in Hp as [y Hy]. rewrite app_assoc_str in Hy.
  apply str_app_inv_head in Hy.
  destruct u as [|c u].
  { apply (Hnp (t +:+ EmptyString) EmptyString Hin). by rewrite !app_empty_r. }
  change (String c u +:+ y) with (String c (u +:+ y)) in Hy.
  destruct Hpost as [|enc' s' Hin' _]; [done|].
  pose proof white_space_leads as Hl.
  rewrite forallb_forall in Hl. apply list_elem_of_In in Hin.
  specialize (Hl _ Hin). rewrite forallb_forall in Hl.
  pose proof Hin' as Hin2. apply list_elem_of_In in Hin2. specialize (Hl _ Hin2).
  destruct enc' as [|c' e'].
  { pose proof white_space_nonempty as Hne. rewrite Forall_forall in Hne.
    by apply (Hne _ Hin'). }
  change (String c' e' +:+ s') with (String c' (e' +:+ s')) in Hy.
  injection Hy as -> _.
  apply negb_true_iff in Hl.
  assert (existsb (Ascii.eqb c) (later_bytes (t +:+ String c u)) = true) as Hex.
  { apply existsb_exists. exists c. split; [|apply Ascii.eqb_refl].
    apply list_elem_of_In. by apply later_bytes_app. }
  congruence.
Qed.

(** [TrimSpace s] is [s] trimmed, and nothing else is. *)
Lemma trimmed_TrimSpace (s t : string) : trimmed s t <-> t = TrimSpace s.
Proof.
  unfold trimmed. rewrite white_white_space. split.
  - intros ((pre & post & -> & Hpre & Hpost) & Hnp & Hns).
    unfold TrimSpace, TrimLeftSpace.
    rewrite (trim_front_run _ pre _ white_space_code Hpre).
    destruct (decide (t = EmptyString)) as [->|Ht].
    { change (EmptyString +:+ post) with post.
      rewrite <- (app_empty_r post).
      rewrite (trim_front_run _ post _ white_space_code Hpost). done. }
    rewrite trim_front_stays by (by apply width_no_straddle).
    unfold TrimRightSpace. rewrite str_rev_app.
    rewrite (trim_front_run _ _ _ white_space_rev_code (made_of_rev _ _ Hpost)).
    rewrite trim_front_stays; [by rewrite str_rev_involutive|].
    apply (width_none _ _ (proj1 white_space_rev_code)), Forall_forall.
    intros e He. apply list_elem_of_fmap in He as (enc & -> & Hin).
    destruct (String.prefix (str_rev enc) (str_rev t)) eqn:Hp; [exfalso|done].
    apply prefix_split in Hp as [rest Hr].
    apply (Hns enc (str_rev rest) Hin).
    rewrite <- (str_rev_involutive t), Hr, str_rev_app.
    by rewrite str_rev_involutive.
  - intros ->.
    destruct (TrimSpace_trims s) as ((pre & post & Hs & Hpre & Hpost) & Hl & Hr).
    split; [|split].
    + exists pre, post. split; [done|]. split; [done|]. by apply made_of_unrev.
    + intros sp rest Hin Ht.
      apply (width_none _ _ white_space_nonempty) in Hl.
      rewrite Forall_forall in Hl. specialize (Hl _ Hin).
      rewrite Ht, prefix_app_refl in Hl. done.
    + intros sp rest Hin Ht.
      apply (width_none _ _ (proj1 white_space_rev_code)) in Hr.
      rewrite Forall_forall in Hr.
      assert (str_rev sp ∈ map str_rev white_space) as Hin'
        by (apply list_elem_of_fmap; eauto).
      specialize (Hr _ Hin').
      rewrite Ht, str_rev_app, prefix_app_refl in Hr. done.
Qed.

End trimming.

(** ** The admin rate-limit endpoint *)

Section admin_handler.
Import gostrings http rate_limiter handler.

Lemma HandleRateLimit_segment tb r clientID :
  Split (Path r) "/" !! 3%nat = Some clientID ->
  HandleRateLimit tb r =
    if bool_decide (Method r = "GET") then getRateLimit tb clientID
    else if bool_decide (Method r = "POST") then createRateLimit tb r clientID
    else if bool_decide (Method r = "PUT") then updateRateLimit tb r clientID
    else if bool_decide (Method r = "DELETE") then deleteRateLimit tb clientID
    else (tb, Error "Method not allowed" StatusMethodNotAllowed).
Proof.
  intros Hid. unfold HandleRateLimit.
  pose proof (lookup_lt_Some _ _ _ Hid) as Hlt.
  rewrite bool_decide_eq_false_2 by (unfold len; lia).
  rewrite index_lookup by lia.
  change (Z.to_nat 3) with 3%nat. by rewrite Hid.
Qed.

Lemma HandleRateLimit_short tb r :
  len (Split (Path r) "/") < 4 ->
  HandleRateLimit tb r
  = (tb, Error "Invalid URL format. Use /admin/ratelimit/{clientID}" StatusBadRequest).
Proof. intros Hlt. unfold HandleRateLimit. by rewrite bool_decide_eq_true_2. Qed.

Lemma Split_admin_path clientID rest :
  "/"%char ∉ list_ascii_of_string clientID ->
  Split ("/admin/ratelimit/" +:+ clientID +:+ "/" +:+ rest) "/"
  = ([EmptyString; "admin"; "ratelimit"; clientID] ++ Split rest "/")%list.
Proof.
  intros Hn.
  change ("/admin/ratelimit/" +:+ clientID +:+ "/" +:+ rest)
    with ("" +:+ String "/" ("admin" +:+ String "/" ("ratelimit" +:+
            String "/" (clientID +:+ String "/" rest)))).
  rewrite !Split_app. rewrite (Split_no_sep clientID) by done. done.
Qed.

Lemma Split_admin_path_bare clientID :
  "/"%char ∉ list_ascii_of_string clientID ->
  Split ("/admin/ratelimit/" +:+ clientID) "/"
  = [EmptyString; "admin"; "ratelimit"; clientID].
Proof.
  intros Hn.
  change ("/admin/ratelimit/" +:+ clientID)
    with ("" +:+ String "/" ("admin" +:+ String "/" ("ratelimit" +:+
            String "/" clientID))).
  rewrite !Split_app. rewrite (Split_no_sep clientID) by done. done.
Qed.

Lemma valid_limits (limits : RateLimitRequest) :
  (0 < http.Rate limits)%Q -> 0 < http.Burst limits ->
  Qle_bool (http.Rate limits) 0 || bool_decide (http.Burst limits <= 0) = false.
Proof.
  intros Hr Hb. rewrite bool_decide_eq_false_2 by lia.
  rewrite orb_false_r. apply not_true_is_false. intros Hle.
  apply Qle_bool_iff in Hle. by apply Qlt_not_le in Hr.
Qed.

End admin_handler.

(** C9: the admin rate-limit handler takes the fourth "/"-separated
    segment of the path as the client id, as it is.  Whatever that
    segment is, the request is dispatched on it by method alone; a POST
    with a valid body to the bare path "/admin/ratelimit/" answers 201
    and stores the limits under the empty client id; segments after
    the client id change nothing; and the 400 answer "Invalid URL
    format" is given exactly to paths of fewer than four segments. *)
Theorem HandleRateLimit_client_id
    (tb : rate_limiter.TokenBucket) (r : http.Request) :
  (forall clientID,
      gostrings.Split (http.Path r) "/" !! 3%nat = Some clientID ->
      handler.HandleRateLimit tb r =
        if bool_decide (http.Method r = "GET") then handler.getRateLimit tb clientID
        else if bool_decide (http.Method r = "POST") then handler.createRateLimit tb r clientID
        else if bool_decide (http.Method r = "PUT") then handler.updateRateLimit tb r clientID
        else if bool_decide (http.Method r = "DELETE") then handler.deleteRateLimit tb clientID
        else (tb, http.Error "Method not allowed" http.StatusMethodNotAllowed))
  /\ (forall limits,
        http.Path r = "/admin/ratelimit/" ->
        http.Method r = "POST" ->
        http.Body r = Some limits ->
        (0 < http.Rate limits)%Q ->
        0 < http.Burst limits ->
        handler.HandleRateLimit tb r
        = (rate_limiter.SetClientLimits tb EmptyString (http.Rate limits) (http.Burst limits),
           http.WriteHeader http.StatusCreated)
        /\ rate_limiter.clientLimits (handler.HandleRateLimit tb r).1 !! EmptyString
           = Some {| rate_limiter.Rate := http.Rate limits;
                     rate_limiter.Burst := http.Burst limits |})
  /\ (forall clientID rest r',
        "/"%char ∉ list_ascii_of_string clientID ->
        http.Path r = "/admin/ratelimit/" +:+ clientID +:+ "/" +:+ rest ->
        http.Path r' = "/admin/ratelimit/" +:+ clientID ->
        http.Method r' = http.Method r ->
        http.Body r' = http.Body r ->
        handler.HandleRateLimit tb r = handler.HandleRateLimit tb r')
  /\ ((handler.HandleRateLimit tb r).2
      = http.Error "Invalid URL format. Use /admin/ratelimit/{clientID}" http.StatusBadRequest
      <-> len (gostrings.Split (http.Path r) "/") < 4).
Proof.
  split; [|split; [|split]].
  - intros clientID Hid. by apply HandleRateLimit_segment.
  - intros limits Hp Hm Hb Hr Hbu.
    assert (Hrun : handler.HandleRateLimit tb r
                   = (rate_limiter.SetClientLimits tb EmptyString
                        (http.Rate limits) (http.Burst limits),
                      http.WriteHeader http.StatusCreated)).
    { rewrite (HandleRateLimit_segment tb r EmptyString) by (by rewrite Hp).
      rewrite Hm. simpl. unfold handler.createRateLimit.
      by rewrite Hb, valid_limits. }
    split; [done|]. rewrite Hrun. simpl. apply lookup_insert_eq.
  - intros clientID rest r' Hn Hp Hp' Hm Hb.
    rewrite (HandleRateLimit_segment tb r clientID)
      by (by rewrite Hp, Split_admin_path).
    rewrite (HandleRateLimit_segment tb r' clientID)
      by (by rewrite Hp', Split_admin_path_bare).
    unfold handler.createRateLimit, handler.updateRateLimit.
    by rewrite Hm, Hb.
  - split; [|intros Hlt; by rewrite HandleRateLimit_short].
    intros Hresp.
    destruct (decide (len (gostrings.Split (http.Path r) "/") < 4)) as [|Hge]; [done|].
    exfalso.
    destruct (lookup_lt_is_Some_2 (gostrings.Split (http.Path r) "/") 3) as [clientID Hid];
      [unfold len in Hge; lia|].
    rewrite (HandleRateLimit_segment tb r clientID Hid) in Hresp.
    unfold handler.createRateLimit, handler.updateRateLimit, handler.getRateLimit,
      handler.deleteRateLimit in Hresp.
    repeat case_bool_decide; destruct (http.Body r) as [limits|];
      repeat match type of Hresp with
             | context [if ?c then _ else _] => destruct c
             end;
      vm_compute in Hresp; discriminate Hresp.
Qed.

Lemma HandleRateLimit_client_id_witness :
  handler.HandleRateLimit (rate_limiter.NewTokenBucket 100 50)
    (http.mkRequest "POST" "/admin/ratelimit/" ∅ "10.0.0.1:4000"
       (Some (http.mkRateLimitRequest 1 2)))
  = (rate_limiter.SetClientLimits (rate_limiter.NewTokenBucket 100 50) EmptyString 1 2,
     http.WriteHeader http.StatusCreated)
  /\ rate_limiter.clientLimits
       (handler.HandleRateLimit (rate_limiter.NewTokenBucket 100 50)
          (http.mkRequest "POST" "/admin/ratelimit/" ∅ "10.0.0.1:4000"
             (Some (http.mkRateLimitRequest 1 2)))).1 !! EmptyString
     = Some {| rate_limiter.Rate := 1; rate_limiter.Burst := 2 |}.
Proof.
  apply (proj1 (proj2 (HandleRateLimit_client_id (rate_limiter.NewTokenBucket 100 50)
           (http.mkRequest "POST" "/admin/ratelimit/" ∅ "10.0.0.1:4000"
              (Some (http.mkRateLimitRequest 1 2)))))
           (http.mkRateLimitRequest 1 2)); reflexivity.
Defined.

(** C10: [DeleteClientLimits] always returns a limiter state; for a
    client id with no stored entry and no bucket that state is the one
    it was given; deleting a second time changes nothing more; and the
    admin handler answers DELETE with 204 whatever was stored for the
    client, also when nothing ever was. *)
Theorem DeleteClientLimits_idempotent
    (tb : rate_limiter.TokenBucket) (clientID : string) :
  (rate_limiter.clientLimits tb !! clientID = None ->
   rate_limiter.limiters tb !! clientID = None ->
   rate_limiter.DeleteClientLimits tb clientID = tb)
  /\ rate_limiter.DeleteClientLimits (rate_limiter.DeleteClientLimits tb clientID) clientID
     = rate_limiter.DeleteClientLimits tb clientID
  /\ handler.deleteRateLimit tb clientID
     = (rate_limiter.DeleteClientLimits tb clientID, http.WriteHeader 204)
  /\ (forall r,
        http.Method r = "DELETE" ->
        gostrings.Split (http.Path r) "/" !! 3%nat = Some clientID ->
        handler.HandleRateLimit tb r
        = (rate_limiter.DeleteClientLimits tb clientID, http.WriteHeader 204)).
Proof.
  split; [apply DeleteClientLimits_absent|].
  split.
  { apply DeleteClientLimits_absent; apply DeleteClientLimits_lookup. }
  split; [done|].
  intros r Hm Hid. rewrite (HandleRateLimit_segment tb r clientID Hid).
  by rewrite Hm.
Qed.

Lemma DeleteClientLimits_idempotent_witness :
  rate_limiter.DeleteClientLimits (rate_limiter.NewTokenBucket 100 50) "alice"
  = rate_limiter.NewTokenBucket 100 50
  /\ handler.HandleRateLimit (rate_limiter.NewTokenBucket 100 50)
       (http.mkRequest "DELETE" "/admin/ratelimit/alice" ∅ "10.0.0.1:4000" None)
     = (rate_limiter.DeleteClientLimits (rate_limiter.NewTokenBucket 100 50) "alice",
        http.WriteHeader 204).
Proof.
  split.
  - apply (proj1 (DeleteClientLimits_idempotent (rate_limiter.NewTokenBucket 100 50) "alice"));
      reflexivity.
  - apply (proj2 (proj2 (proj2
             (DeleteClientLimits_idempotent (rate_limiter.NewTokenBucket 100 50) "alice"))));
      reflexivity.
Defined.


(** ** Admission: the client identifier *)

Lemma Header_Get_present hd name stored :
  http.CanonicalMIMEHeaderKey name = stored ->
  http.Header_Get hd name = default EmptyString (present hd stored).
Proof.
  intros <-. unfold http.Header_Get, present.
  destruct (hd !! http.CanonicalMIMEHeaderKey name) as [[|v vs]|]; try done.
  by case_bool_decide.
Qed.

Lemma present_nonempty hd name v : present hd name = Some v -> v <> EmptyString.
Proof.
  unfold present.
  destruct (hd !! name) as [[|v' vs]|]; try done.
  case_bool_decide; congruence.
Qed.

(** What [getClientID] returns, by the headers present. *)
Lemma getClientID_cases (r : http.Request) :
  middleware.getClientID r =
    match present (http.Header r) "X-Api-Key" with
    | Some key => "api:" +:+ key
    | None =>
        match present (http.Header r) "X-Forwarded-For" with
        | Some forwarded => gostrings.TrimSpace (up_to "," forwarded)
        | None => up_to ":" (http.RemoteAddr r)
        end
    end.
Proof.
  unfold middleware.getClientID.
  rewrite (Header_Get_present _ "X-API-Key" "X-Api-Key") by (by vm_compute).
  rewrite (Header_Get_present _ "X-Forwarded-For" "X-Forwarded-For") by (by vm_compute).
  destruct (present (http.Header r) "X-Api-Key") as [key|] eqn:Hk; simpl.
  { apply present_nonempty in Hk. by rewrite bool_decide_eq_false_2. }
  destruct (present (http.Header r) "X-Forwarded-For") as [fwd|] eqn:Hf; simpl.
  { apply present_nonempty in Hf. rewrite bool_decide_eq_false_2 by done. simpl.
    rewrite index_lookup by lia. change (Z.to_nat 0) with 0%nat.
    by rewrite Split_head. }
  rewrite index_lookup by lia. change (Z.to_nat 0) with 0%nat.
  by rewrite Split_head.
Qed.

(** C7: the rate-limit client identifier of a request is the one the
    three rules give, and they give no other: "api:" followed by the
    X-API-Key value when that header is present and not empty; else,
    when X-Forwarded-For is present and not empty, its text up to the
    first comma, trimmed: without the white space around it, and
    neither starting nor ending with white space; else the text of the
    remote address up to its first ":". *)
Theorem getClientID_rule (r : http.Request) (id : string) :
  client_id_rule r id <-> id = middleware.getClientID r.
Proof.
  rewrite getClientID_cases. split.
  - intros [key Hk|forwarded token Hk Hf Ht|Hk Hf].
    + by rewrite Hk.
    + rewrite Hk, Hf. by apply trimmed_TrimSpace.
    + by rewrite Hk, Hf.
  - intros ->.
    destruct (present (http.Header r) "X-Api-Key") as [key|] eqn:Hk.
    { by apply rule_api_key. }
    destruct (present (http.Header r) "X-Forwarded-For") as [forwarded|] eqn:Hf.
    { apply (rule_forwarded_for r forwarded); [done|done|].
      by apply trimmed_TrimSpace. }
    by apply rule_remote_addr.
Qed.

(** A request with " 10.0.0.7 , 10.0.0.9" in X-Forwarded-For, sent
    under a lower-case name, and no API key is counted against
    10.0.0.7. *)
Example getClientID_forwarded :
  middleware.getClientID
    (http.mkRequest "GET" "/" (http.Header_Set ∅ "x-forwarded-for" " 10.0.0.7 , 10.0.0.9")
       "192.0.2.1:4711" None)
  = "10.0.0.7".
Proof. by vm_compute. Qed.


(** ** The token bucket *)

Section token_bucket.
Import rate_limiter.
Local Open Scope Q_scope.

Variable R : Q.
Variable B : Z.
Variable t1 : Q.
Hypothesis HR : 0 < R.
Hypothesis HB : (1 <= B)%Z.

Lemma inject_Z_sub a b : inject_Z (a - b) == inject_Z a - inject_Z b.
Proof. unfold Qminus. by rewrite <- inject_Z_opp, <- inject_Z_plus. Qed.

Lemma inject_Z_ge_1 j : (1 <= j)%Z -> 1 <= inject_Z j.
Proof. intros Hj. change 1 with (inject_Z 1). by rewrite <- Zle_Qle. Qed.

Lemma advance_fresh t : advance (NewLimiter R B) t == inject_Z B.
Proof.
  unfold advance. simpl.
  set (elapsed := if Qle_bool 0 t then t - 0 else 0).
  assert (0 <= elapsed) as He.
  { unfold elapsed. destruct (Qle_bool 0 t) eqn:E; [|lra].
    apply Qle_bool_iff in E. lra. }
  destruct (Qle_bool (inject_Z B + elapsed * R) (inject_Z B)) eqn:E; [|reflexivity].
  apply Qle_bool_iff in E.
  assert (0 <= elapsed * R) by (apply Qmult_le_0_compat; lra).
  lra.
Qed.

(** What is available at [t'], a later reading still less than
    [1 / R] seconds after the first call. *)
Lemma advance_drawn lim j t t' :
  drawn R B t1 lim j t -> (1 <= j)%Z -> t <= t' -> (t' - t1) * R < 1 ->
  advance lim t' == inject_Z (B - j) + (t' - t1) * R.
Proof.
  intros (Hl & Hb & Hlast & Ht & Hw & Htok) Hj Ht' Hw'.
  unfold advance. rewrite Hlast, Hl, Hb.
  assert (Qle_bool t t' = true) as -> by (by apply Qle_bool_iff).
  pose proof (inject_Z_sub B j) as Hs. pose proof (inject_Z_ge_1 j Hj) as H1.
  destruct (Qle_bool (tokens lim + (t' - t) * R) (inject_Z B)) eqn:E.
  - rewrite Htok. ring.
  - exfalso. apply not_true_iff_false in E. apply E.
    apply Qle_bool_iff. rewrite Htok. lra.
Qed.

Lemma Limiter_Allow_first :
  exists lim', Limiter_Allow (NewLimiter R B) t1 = (true, lim') /\ drawn R B t1 lim' 1 t1.
Proof.
  pose proof (advance_fresh t1) as Ha. unfold Limiter_Allow.
  assert (Qle_bool 1 (advance (NewLimiter R B) t1) = true) as ->.
  { apply Qle_bool_iff. rewrite Ha. by apply inject_Z_ge_1. }
  eexists. split; [reflexivity|].
  split; [done|]. split; [done|]. split; [done|]. simpl.
  split; [lra|]. split; [lra|].
  rewrite Ha. pose proof (inject_Z_sub B 1) as Hs. change (inject_Z 1) with 1 in Hs. lra.
Qed.

Lemma Limiter_Allow_admits lim j t t' :
  drawn R B t1 lim j t -> (1 <= j < B)%Z -> t <= t' -> (t' - t1) * R < 1 ->
  exists lim', Limiter_Allow lim t' = (true, lim') /\ drawn R B t1 lim' (j + 1) t'.
Proof.
  intros Hd Hj Ht' Hw'.
  pose proof (advance_drawn lim j t t' Hd ltac:(lia) Ht' Hw') as Ha.
  destruct Hd as (Hl & Hb & Hlast & Ht & Hw & Htok).
  assert (1 <= inject_Z (B - j)) as H1 by (apply inject_Z_ge_1; lia).
  assert (0 <= (t' - t1) * R) as H0 by (apply Qmult_le_0_compat; lra).
  unfold Limiter_Allow.
  assert (Qle_bool 1 (advance lim t') = true) as ->.
  { apply Qle_bool_iff. rewrite Ha. lra. }
  eexists. split; [reflexivity|].
  split; [done|]. split; [done|]. split; [done|]. simpl.
  split; [lra|]. split; [done|].
  rewrite Ha. pose proof (inject_Z_sub (B - j) 1) as Hs.
  change (inject_Z 1) with 1 in Hs.
  replace (B - (j + 1))%Z with (B - j - 1)%Z by lia. lra.
Qed.

Lemma Limiter_Allow_refuses lim t t' :
  drawn R B t1 lim B t -> t <= t' -> (t' - t1) * R < 1 ->
  Limiter_Allow lim t' = (false, lim).
Proof.
  intros Hd Ht' Hw'.
  pose proof (advance_drawn lim B t t' Hd HB Ht' Hw') as Ha.
  unfold Limiter_Allow.
  assert (Qle_bool 1 (advance lim t') = false) as ->; [|done].
  apply not_true_iff_false. intros E. apply Qle_bool_iff in E.
  rewrite Ha, Z.sub_diag in E. change (inject_Z 0) with 0 in E. lra.
Qed.

(** [1 / R] seconds after a refused call at [t'] one token more is
    available than at [t'], as far as the capacity allows: a whole
    token at least. *)
Lemma advance_after_wait lim t t' :
  drawn R B t1 lim B t -> t <= t' -> (t' - t1) * R < 1 ->
  1 <= advance lim (t' + 1 / R) <= inject_Z B.
Proof.
  intros (Hl & Hb & Hlast & Ht & Hw & Htok) Ht' Hw'.
  unfold advance. rewrite Hlast, Hl, Hb.
  assert (0 < 1 / R) as Hpos.
  { unfold Qdiv. rewrite Qmult_1_l. by apply Qinv_lt_0_compat. }
  assert (Qle_bool t (t' + 1 / R) = true) as ->
    by (apply Qle_bool_iff; lra).
  rewrite Z.sub_diag in Htok. change (inject_Z 0) with 0 in Htok.
  assert (tokens lim + (t' + 1 / R - t) * R == (t' - t1) * R + 1) as Hone.
  { rewrite Htok. field. intros E. rewrite E in HR. by apply Qlt_irrefl in HR. }
  pose proof (inject_Z_ge_1 B HB) as H1.
  assert (0 <= (t' - t1) * R) as H0 by (apply Qmult_le_0_compat; lra).
  destruct (Qle_bool (tokens lim + (t' + 1 / R - t) * R) (inject_Z B)) eqn:E.
  - apply Qle_bool_iff in E. rewrite Hone in *. lra.
  - lra.
Qed.

Variable clientID : string.

Lemma Allow_stored tb lim t :
  limiters tb !! clientID = Some lim ->
  Allow tb clientID t
  = ((Limiter_Allow lim t).1, store_limiter tb clientID (Limiter_Allow lim t).2).
Proof.
  intros Hl. unfold Allow, getLimiter. rewrite Hl.
  by destruct (Limiter_Allow lim t).
Qed.

(** The first use of a client without a bucket seeds one from the
    client's limits. *)
Lemma Allow_seeds tb t :
  limiters tb !! clientID = None ->
  GetClientLimits tb clientID = {| Rate := R; Burst := B |} ->
  Allow tb clientID t
  = Allow (store_limiter tb clientID (NewLimiter R B)) clientID t.
Proof.
  intros Hl Hg. unfold Allow at 1. unfold getLimiter. rewrite Hl, Hg. simpl.
  rewrite (Allow_stored _ (NewLimiter R B)) by (simpl; apply lookup_insert_eq).
  by destruct (Limiter_Allow (NewLimiter R B) t).
Qed.

Lemma Allow_at_cons t ts tb :
  Allow_at (t :: ts) tb clientID
  = ((Allow tb clientID t).1 :: (Allow_at ts (Allow tb clientID t).2 clientID).1,
     (Allow_at ts (Allow tb clientID t).2 clientID).2).
Proof.
  simpl. destruct (Allow tb clientID t) as [a tb1]. simpl.
  by destruct (Allow_at ts tb1 clientID).
Qed.

Lemma last_nonempty (a : Q) (l : list Q) (d d' : Q) :
  List.last (a :: l) d = List.last (a :: l) d'.
Proof.
  revert a. induction l as [|b l IH]; intros a; [done|].
  change (List.last (b :: l) d = List.last (b :: l) d'). apply IH.
Qed.

(** The calls after the first: admitted while tokens of the burst are
    left, then refused. *)
Lemma Allow_at_drawn (ts : list Q) :
  forall tb lim j t,
    limiters tb !! clientID = Some lim ->
    drawn R B t1 lim j t ->
    (1 <= j <= B)%Z ->
    (j + Z.of_nat (length ts) = B + 1)%Z ->
    nondecreasing_from t ts ->
    Forall (fun t' => (t' - t1) * R < 1) ts ->
    exists tb' lim' t'',
      Allow_at ts tb clientID
        = ((replicate (Z.to_nat (B - j)) true ++ [false])%list, tb')
      /\ limiters tb' !! clientID = Some lim'
      /\ drawn R B t1 lim' B t''
      /\ t'' <= List.last ts t.
Proof.
  induction ts as [|t' ts IH]; intros tb lim j t Hl Hd Hj Hk Hnd Hw.
  { simpl in Hk. lia. }
  destruct Hnd as [Ht' Hnd]. apply Forall_cons in Hw as [Hw' Hw].
  rewrite Allow_at_cons, (Allow_stored tb lim) by done.
  destruct ts as [|t2 ts].
  - assert (j = B) as -> by (simpl in Hk; lia).
    rewrite Limiter_Allow_refuses with (t := t) by done. cbn [fst snd].
    exists (store_limiter tb clientID lim), lim, t.
    rewrite Z.sub_diag. simpl.
    split; [done|]. split; [apply lookup_insert_eq|]. split; done.
  - assert (1 <= j < B)%Z as Hjb by (simpl in Hk; lia).
    destruct (Limiter_Allow_admits lim j t t' Hd Hjb Ht' Hw') as (lim1 & Ha & Hd1).
    rewrite Ha. cbn [fst snd].
    destruct (IH (store_limiter tb clientID lim1) lim1 (j + 1)%Z t')
      as (tb' & lim' & t'' & Hrun & Hl' & Hd' & Hlast);
      [apply lookup_insert_eq|done|lia|simpl in *; lia|done|done|].
    exists tb', lim', t''. rewrite Hrun. cbn [fst snd].
    split.
    { replace (Z.to_nat (B - j)) with (S (Z.to_nat (B - (j + 1)))) by lia.
      done. }
    split; [done|]. split; [done|].
    change (List.last (t' :: t2 :: ts) t) with (List.last (t2 :: ts) t).
    by rewrite (last_nonempty t2 ts t t').
Qed.

End token_bucket.

Lemma Forall_last_default (P : Q -> Prop) (ts : list Q) (d : Q) :
  Forall P ts -> P d -> P (List.last ts d).
Proof.
  intros Hall Hd. induction Hall as [|t ts Ht Hall IH]; [done|].
  destruct ts as [|t2 ts]; [done|].
  change (P (List.last (t2 :: ts) d)). apply IH.
Qed.

(** C4: a client whose bucket starts fresh with rate [R > 0] and burst
    [B >= 1], and [B + 1] calls of [Allow] in rapid succession: at clock
    readings [t1 :: ts] that never go back and all lie less than
    [1 / R] seconds after the first.  The first [B] calls answer true
    and the last answers false, since each admission took one token and
    less than one was refilled; [1 / R] seconds after the refused call
    the refill has made a whole token available (never more than [B]),
    and one more call answers true. *)
Theorem Allow_burst_then_refill
    (tb : rate_limiter.TokenBucket) (clientID : string) (R : Q) (B : Z)
    (t1 : Q) (ts : list Q) :
  (0 < R)%Q ->
  1 <= B ->
  starts_fresh tb clientID R B ->
  length ts = Z.to_nat B ->
  rate_limiter.nondecreasing_from t1 ts ->
  Forall (fun t => ((t - t1) * R < 1)%Q) ts ->
  exists tb1 lim,
    rate_limiter.Allow_at (t1 :: ts) tb clientID
      = ((replicate (Z.to_nat B) true ++ [false])%list, tb1)
    /\ rate_limiter.limiters tb1 !! clientID = Some lim
    /\ (rate_limiter.advance lim (List.last ts t1) < 1)%Q
    /\ (1 <= rate_limiter.advance lim (List.last ts t1 + 1 / R) <= inject_Z B)%Q
    /\ (rate_limiter.Allow tb1 clientID (List.last ts t1 + 1 / R)%Q).1 = true.
Proof.
  intros HR HB Hfresh Hlen Hnd Hw.
  assert (Hseed : exists tb0,
             rate_limiter.limiters tb0 !! clientID = Some (rate_limiter.NewLimiter R B)
             /\ rate_limiter.Allow tb clientID t1 = rate_limiter.Allow tb0 clientID t1).
  { destruct Hfresh as [[tb0 ->]|(Hl & Hc & Hr & Hb)].
    - eexists. split; [|reflexivity]. simpl. apply lookup_insert_eq.
    - exists (rate_limiter.store_limiter tb clientID (rate_limiter.NewLimiter R B)).
      split; [simpl; apply lookup_insert_eq|].
      apply Allow_seeds; [done|].
      unfold rate_limiter.GetClientLimits. by rewrite Hc, Hr, Hb. }
  destruct Hseed as (tb0 & Hl0 & Hfirst).
  destruct (Limiter_Allow_first R B t1 HR HB) as (lim1 & Ha1 & Hd1).
  rewrite Allow_at_cons, Hfirst, (Allow_stored clientID tb0 _ t1 Hl0), Ha1.
  cbn [fst snd].
  destruct (Allow_at_drawn R B t1 HR HB clientID ts
              (rate_limiter.store_limiter tb0 clientID lim1) lim1 1 t1)
    as (tb1 & lim & t'' & Hrun & Hl1 & Hd & Hlast);
    [apply lookup_insert_eq|done|lia|lia|done|done|].
  rewrite Hrun. cbn [fst snd].
  exists tb1, lim. split.
  { replace (Z.to_nat B) with (S (Z.to_nat (B - 1))) by lia. done. }
  split; [done|].
  assert (Hwl : ((List.last ts t1 - t1) * R < 1)%Q).
  { apply (Forall_last_default (fun t => ((t - t1) * R < 1)%Q)); [done|].
    assert ((t1 - t1) * R == 0)%Q as -> by ring. done. }
  assert (Hnow : (rate_limiter.advance lim (List.last ts t1)
                  == inject_Z (B - B) + (List.last ts t1 - t1) * R)%Q)
    by (eapply advance_drawn; eauto).
  assert (Hthen : (1 <= rate_limiter.advance lim (List.last ts t1 + 1 / R)
                   <= inject_Z B)%Q)
    by (eapply advance_after_wait; eauto).
  split.
  { rewrite Hnow, Z.sub_diag. change (inject_Z 0) with 0%Q. lra. }
  split; [done|].
  rewrite (Allow_stored clientID tb1 lim) by done. simpl.
  unfold rate_limiter.Limiter_Allow.
  assert (Qle_bool 1 (rate_limiter.advance lim (List.last ts t1 + 1 / R)) = true) as ->;
    [|done].
  apply Qle_bool_iff. apply Hthen.
Qed.

Lemma Allow_burst_then_refill_witness :
  exists tb1 lim,
    rate_limiter.Allow_at [10; 101 # 10; 51 # 5]%Q
      (rate_limiter.SetClientLimits (rate_limiter.NewTokenBucket 100 50) "api:alice" 2 2)
      "api:alice"
      = ((replicate (Z.to_nat 2) true ++ [false])%list, tb1)
    /\ rate_limiter.limiters tb1 !! "api:alice" = Some lim
    /\ (rate_limiter.advance lim (List.last [101 # 10; 51 # 5] 10) < 1)%Q
    /\ (1 <= rate_limiter.advance lim (List.last [101 # 10; 51 # 5] 10 + 1 / 2)
        <= inject_Z 2)%Q
    /\ (rate_limiter.Allow tb1 "api:alice"
          (List.last [101 # 10; 51 # 5] 10 + 1 / 2)%Q).1 = true.
Proof.
  apply (Allow_burst_then_refill
           (rate_limiter.SetClientLimits (rate_limiter.NewTokenBucket 100 50) "api:alice" 2 2)
           "api:alice" 2%Q 2 10%Q [101 # 10; 51 # 5]%Q).
  - reflexivity.
  - lia.
  - left. eexists. reflexivity.
  - reflexivity.
  - simpl. split; [unfold Qle; simpl; lia|]. split; [unfold Qle; simpl; lia|exact I].
  - constructor; [reflexivity|]. constructor; [reflexivity|]. constructor.
Defined.


(** ** The end-to-end scenarios of the specification *)

Section scenarios.
Import backend algorithm load_balancer rate_limiter.

(** S1: six requests against [b1, b2, b3], all healthy. *)
Example scenario_S1 :
  fst <$> NextBackend_calls 6 example.store3 NewRoundRobinStrategy example.pool3
  = Some [Ret 1; Ret 2; Ret 3; Ret 1; Ret 2; Ret 3]%nat.
Proof. by vm_compute. Qed.

(** S2: [b2] failed its probe; four requests go to [b1, b3, b1, b3]. *)
Example scenario_S2 :
  fst <$> NextBackend_calls 4 example.store3_b2_down NewRoundRobinStrategy example.pool3
  = Some [Ret 1; Ret 3; Ret 1; Ret 3]%nat.
Proof. by vm_compute. Qed.

(** A probe result lands while a selection runs: the first read meets
    the store with every backend down, the next reads the recovered
    store, and the second backend is returned. *)
Example selection_during_probe :
  NextBackend (fun j => if (j =? 0)%nat then example.store3_all_down else example.store3)
    NewRoundRobinStrategy example.pool3
  = Some (Ret 2%nat, {| current := 2 |}).
Proof. by vm_compute. Qed.

(** S3: no backend is healthy. *)
Example scenario_S3 :
  fst <$> GetNextBackend (still example.store3_all_down) example.lb3
  = Some (Error "no healthy backends available").
Proof. by vm_compute. Qed.

(** Limits rate 1, burst 2 stored for the client id of the API key
    alice, which is "api:alice"; of three immediate requests with that
    key the third is refused. *)
Example scenario_api_key :
  let r := http.mkRequest "GET" "/" {[ "X-Api-Key" := ["alice"] ]} "10.0.0.1:4000" None in
  let tb := (handler.HandleRateLimit (NewTokenBucket 100 50)
               (http.mkRequest "POST" "/admin/ratelimit/api:alice" ∅ "10.0.0.1:4000"
                  (Some (http.mkRateLimitRequest 1 2)))).1 in
  fst (Allow_at [5; 5; 5]%Q tb (middleware.getClientID r)) = [true; true; false].
Proof. by vm_compute. Qed.

End scenarios.

(** * Further properties of the code *)

(** ** Selection against a store that stays as it is *)

Section selection_order.
Import backend algorithm.

Variable h : gmap nat Backend.
Variable backends : list ptr.
Hypothesis Hlen : len backends <= MaxInt.
Hypothesis Hall : Forall (fun b => is_Some (h !! b)) backends.

(** The loop returns the first healthy backend it meets, going round
    from the cursor, and leaves the cursor just behind it; it returns
    the error, with the cursor back at the start, when it met none. *)
Lemma loop_first (d : nat) :
  forall (fuel k : nat) (start cur : Z),
    0 <= start < len backends ->
    0 <= cur < len backends ->
    Z.of_nat d = remaining (len backends) start cur ->
    (d <= fuel)%nat ->
    exists r c',
      NextBackend_loop fuel (still h) k backends start cur = Some (r, c')
      /\ ((exists (j : nat) b,
              (j < d)%nat /\ r = Ret b
              /\ backends !! Z.to_nat ((cur + Z.of_nat j) mod len backends) = Some b
              /\ IsHealthy h b = Some true
              /\ (forall (i : nat) b',
                    (i < j)%nat ->
                    backends !! Z.to_nat ((cur + Z.of_nat i) mod len backends) = Some b' ->
                    IsHealthy h b' = Some false)
              /\ c' = (cur + Z.of_nat j + 1) mod len backends)
          \/ (r = Error "no healthy backends available" /\ c' = start
              /\ forall (i : nat) b',
                   (i < d)%nat ->
                   backends !! Z.to_nat ((cur + Z.of_nat i) mod len backends) = Some b' ->
                   IsHealthy h b' = Some false)).
Proof.
  induction d as [|d IH]; intros fuel k start cur Hs Hc Hd Hf.
  { exfalso. unfold remaining in Hd. case_bool_decide; lia. }
  destruct fuel as [|fuel]; [lia|]. simpl. unfold still at 1.
  destruct (index_in_range backends cur Hc) as (b & Hb & Hin).
  rewrite index_lookup by lia. rewrite Hb.
  rewrite next_cursor_mod by done.
  pose proof (succ_mod_range cur _ Hc) as Hr.
  assert (Hcur0 : (cur + Z.of_nat 0) mod len backends = cur)
    by (rewrite Z.add_0_r; apply Z.mod_small; lia).
  destruct (IsHealthy h b) as [[|]|] eqn:Hh.
  - eexists _, _. split; [done|]. left. exists 0%nat, b.
    split; [lia|]. split; [done|]. rewrite Hcur0. split; [done|]. split; [done|].
    split; [intros i b' Hi; lia|]. by rewrite Z.add_0_r.
  - case_bool_decide as Hw.
    + eexists _, _. split; [done|]. right. split; [done|]. split; [done|].
      intros i b' Hi Hb'.
      assert (Z.of_nat (S d) = 1) as Hd1.
      { revert Hd Hw. unfold remaining. rewrite succ_mod by done.
        repeat case_bool_decide; lia. }
      assert (i = 0%nat) as -> by lia. rewrite Hcur0 in Hb'. congruence.
    + destruct (IH fuel (S k) start ((cur + 1) mod len backends))
        as (r & c' & Hl & Hres);
        [done|done|by apply (remaining_next backends)|lia|].
      exists r, c'. split; [done|].
      assert (Hshift : forall i : nat,
                 ((cur + 1) mod len backends + Z.of_nat i) mod len backends
                 = (cur + Z.of_nat (S i)) mod len backends).
      { intros i. rewrite Zplus_mod_idemp_l. f_equal. lia. }
      destruct Hres as [(j & b1 & Hj & -> & Hb1 & Hh1 & Hbefore & ->)|(-> & -> & Hnone)].
      * left. exists (S j), b1. split; [lia|]. split; [done|].
        rewrite Hshift in Hb1. split; [done|]. split; [done|]. split.
        -- intros [|i] b' Hi Hb'.
           ++ rewrite Hcur0 in Hb'. congruence.
           ++ apply (Hbefore i b'); [lia|]. by rewrite Hshift.
        -- rewrite <- Z.add_assoc, Zplus_mod_idemp_l. f_equal. lia.
      * right. split; [done|]. split; [done|].
        intros [|i] b' Hi Hb'.
        -- rewrite Hcur0 in Hb'. congruence.
        -- apply (Hnone i b'); [lia|]. by rewrite Hshift.
  - exfalso. apply IsHealthy_None in Hh.
    rewrite Forall_forall in Hall. destruct (Hall b Hin) as [x Hx]. congruence.
Qed.

(** Every position of the pool is met within one round from [c]. *)
Lemma round_reaches (c : Z) (p : nat) :
  0 <= c < len backends ->
  (p < length backends)%nat ->
  exists i : nat,
    (i < length backends)%nat
    /\ Z.to_nat ((c + Z.of_nat i) mod len backends) = p.
Proof.
  intros Hc Hp. unfold len in *.
  exists (Z.to_nat ((Z.of_nat p - c) mod Z.of_nat (length backends))).
  pose proof (Z.mod_pos_bound (Z.of_nat p - c) (Z.of_nat (length backends)) ltac:(lia)).
  split; [lia|]. rewrite Z2Nat.id by lia.
  rewrite Zplus_mod_idemp_r.
  replace (c + (Z.of_nat p - c)) with (Z.of_nat p) by lia.
  rewrite Z.mod_small by lia. lia.
Qed.

End selection_order.

(** X1: against a store that stays as it is, a call that returns a
    backend returns the first healthy one met going round the pool
    from the cursor: every backend passed over read unhealthy, and the
    cursor is left just behind the backend returned. *)
Theorem NextBackend_first_healthy
    (h : gmap nat backend.Backend) (s : algorithm.RoundRobinStrategy)
    (backends : list backend.ptr) (b : backend.ptr)
    (s' : algorithm.RoundRobinStrategy) :
  pool_ok h backends ->
  cursor_ok s backends ->
  algorithm.NextBackend (backend.still h) s backends = Some (Ret b, s') ->
  exists j : nat,
    (j < length backends)%nat
    /\ backends !! Z.to_nat ((algorithm.current s + Z.of_nat j) mod len backends) = Some b
    /\ backend.IsHealthy h b = Some true
    /\ (forall (i : nat) b',
          (i < j)%nat ->
          backends !! Z.to_nat ((algorithm.current s + Z.of_nat i) mod len backends) = Some b' ->
          backend.IsHealthy h b' = Some false)
    /\ algorithm.current s' = (algorithm.current s + Z.of_nat j + 1) mod len backends.
Proof.
  intros [Hlen Hall] Hc. unfold algorithm.NextBackend.
  rewrite bool_decide_eq_false_2 by (unfold cursor_ok in Hc; lia).
  destruct (loop_first h backends Hlen Hall (length backends) (length backends) 0
              (algorithm.current s) (algorithm.current s) Hc Hc
              (remaining_start backends _ Hc) ltac:(lia))
    as (r & c' & -> & Hres).
  intros Heq. simplify_eq.
  destruct Hres as [(j & b1 & Hj & Hr & Hb1 & Hh1 & Hbefore & ->)|(Hr & _)]; [|done].
  simplify_eq. exists j. eauto.
Qed.

Lemma NextBackend_first_healthy_witness :
  exists j : nat,
    (j < length example.pool3)%nat
    /\ example.pool3 !! Z.to_nat ((1 + Z.of_nat j) mod len example.pool3) = Some 3%nat
    /\ backend.IsHealthy example.store3_b2_down 3%nat = Some true
    /\ (forall (i : nat) b',
          (i < j)%nat ->
          example.pool3 !! Z.to_nat ((1 + Z.of_nat i) mod len example.pool3) = Some b' ->
          backend.IsHealthy example.store3_b2_down b' = Some false)
    /\ algorithm.current {| algorithm.current := 0 |}
       = (1 + Z.of_nat j + 1) mod len example.pool3.
Proof.
  apply (NextBackend_first_healthy example.store3_b2_down
           {| algorithm.current := 1 |} example.pool3 3%nat {| algorithm.current := 0 |}).
  - split; [by vm_compute|]. apply (bool_decide_unpack _). by vm_compute.
  - by vm_compute.
  - by vm_compute.
Defined.

(** X2: against a store that stays as it is, with the cursor in the
    pool, a call returns an error exactly when every backend of the
    pool reads unhealthy; the error is then no healthy backends
    available, and the cursor is left where it was. *)
Theorem NextBackend_error_iff_none_healthy
    (h : gmap nat backend.Backend) (s : algorithm.RoundRobinStrategy)
    (backends : list backend.ptr) :
  pool_ok h backends ->
  cursor_ok s backends ->
  exists r s',
    algorithm.NextBackend (backend.still h) s backends = Some (r, s')
    /\ ((exists msg, r = Error msg)
        <-> Forall (fun b => backend.IsHealthy h b = Some false) backends)
    /\ (Forall (fun b => backend.IsHealthy h b = Some false) backends ->
        r = Error "no healthy backends available" /\ s' = s).
Proof.
  intros [Hlen Hall] Hc. unfold algorithm.NextBackend.
  rewrite bool_decide_eq_false_2 by (unfold cursor_ok in Hc; lia).
  destruct (loop_first h backends Hlen Hall (length backends) (length backends) 0
              (algorithm.current s) (algorithm.current s) Hc Hc
              (remaining_start backends _ Hc) ltac:(lia))
    as (r & c' & -> & Hres).
  exists r, {| algorithm.current := c' |}. split; [done|].
  destruct Hres as [(j & b1 & Hj & -> & Hb1 & Hh1 & _)|(-> & -> & Hnone)].
  - assert (Hgood : ~ Forall (fun b => backend.IsHealthy h b = Some false) backends).
    { intros Hbad. rewrite Forall_forall in Hbad.
      assert (b1 ∈ backends) as Hin by (apply list_elem_of_lookup; eauto).
      specialize (Hbad b1 Hin). congruence. }
    split; [|done]. split; [intros [msg Hm]; done|done].
  - assert (Hbad : Forall (fun b => backend.IsHealthy h b = Some false) backends).
    { apply Forall_lookup. intros p b Hp.
      destruct (round_reaches backends (algorithm.current s) p Hc) as (i & Hi & Hip);
        [by eapply lookup_lt_Some|].
      apply (Hnone i b Hi). by rewrite Hip. }
    split; [split; eauto|]. intros _. split; [done|]. by destruct s.
Qed.

Lemma NextBackend_error_iff_none_healthy_witness :
  exists r s',
    algorithm.NextBackend (backend.still example.store3_all_down)
      {| algorithm.current := 2 |} example.pool3 = Some (r, s')
    /\ ((exists msg, r = Error msg)
        <-> Forall (fun b => backend.IsHealthy example.store3_all_down b = Some false)
              example.pool3)
    /\ (Forall (fun b => backend.IsHealthy example.store3_all_down b = Some false)
          example.pool3 ->
        r = Error "no healthy backends available" /\ s' = {| algorithm.current := 2 |}).
Proof.
  apply (NextBackend_error_iff_none_healthy example.store3_all_down
           {| algorithm.current := 2 |} example.pool3).
  - split; [by vm_compute|]. apply (bool_decide_unpack _). by vm_compute.
  - by vm_compute.
Defined.

(** X3: on a pool that is not empty, a cursor that does not index the
    pool makes the call panic at its first indexing, whatever the
    stores hold; the cursor is left as it was, so every later call on
    that pool panics as well. *)
Theorem NextBackend_cursor_outside
    (hs : nat -> gmap nat backend.Backend) (s : algorithm.RoundRobinStrategy)
    (backends : list backend.ptr) :
  backends <> [] ->
  ~ (0 <= algorithm.current s < len backends) ->
  algorithm.NextBackend hs s backends = Some (Panic, s).
Proof.
  intros Hne Hc. unfold algorithm.NextBackend.
  destruct backends as [|b0 bs]; [done|].
  rewrite bool_decide_eq_false_2 by (unfold len; simpl; lia).
  simpl. rewrite index_out_of_range by done. by destruct s.
Qed.

Lemma NextBackend_cursor_outside_witness :
  algorithm.NextBackend (backend.still example.store3) {| algorithm.current := 3 |}
    example.pool3
  = Some (Panic, {| algorithm.current := 3 |}).
Proof.
  apply (NextBackend_cursor_outside (backend.still example.store3)
           {| algorithm.current := 3 |} example.pool3).
  - by vm_compute.
  - vm_compute. intros [_ H]. discriminate H.
Defined.

(** ** Successive selections among the healthy backends *)

Section healthy_cycle.
Import backend algorithm.
Local Open Scope list_scope.

Lemma rotate_rotate {A} (a b : nat) (l : list A) :
  rotate a (rotate b l) = rotate (a + b) l.
Proof.
  destruct l as [|x l0].
  { unfold rotate. by destruct a, b. }
  set (l := x :: l0).
  assert (0 < length l)%nat as Hpos by (simpl; lia).
  apply list_eq. intros i.
  destruct (decide (i < length l)%nat) as [Hi|Hi].
  - rewrite lookup_rotate_r by (by rewrite length_rotate).
    rewrite length_rotate.
    rewrite lookup_rotate_r by (by apply rotate_nat_add_lt).
    rewrite lookup_rotate_r by done. f_equal.
    unfold rotate_nat_add.
    pose proof (Z.mod_pos_bound (Z.of_nat a + Z.of_nat i) (Z.of_nat (length l)) ltac:(lia)).
    rewrite Z2Nat.id by lia. rewrite Zplus_mod_idemp_r. do 2 f_equal. lia.
  - rewrite !lookup_ge_None_2; [done|rewrite length_rotate; lia|
      rewrite !length_rotate; lia].
Qed.

Lemma rotate_mod {A} (a : nat) (l : list A) :
  rotate (a mod length l) l = rotate a l.
Proof.
  unfold rotate. by rewrite Nat.Div0.mod_mod.
Qed.

Lemma rotate_le {A} (a : nat) (l : list A) :
  (a <= length l)%nat -> rotate a l = drop a l ++ take a l.
Proof.
  intros Ha. unfold rotate.
  destruct (decide (a = length l)) as [->|Hne].
  - rewrite Nat.Div0.mod_same. rewrite drop_all, firstn_all. simpl.
    by rewrite app_nil_r.
  - by rewrite Nat.mod_small by lia.
Qed.

Lemma filter_none {A} (P : A -> Prop) `{forall x, Decision (P x)} (l : list A) :
  Forall (fun x => ~ P x) l -> filter P l = [].
Proof.
  induction 1 as [|x l Hx Hl IH]; [done|].
  by rewrite filter_cons_False.
Qed.

(** Going round a list: what follows position [i mod M] in the list
    is at position [i mod M] of the list rotated by one. *)
Lemma lookup_rotated_one {A} (x : A) (tl : list A) (i : nat) :
  (tl ++ [x]) !! (i mod S (length tl))%nat
  = (x :: tl) !! (S i mod S (length tl))%nat.
Proof.
  remember (S (length tl)) as M eqn:HM.
  assert (Hk : (i mod M < M)%nat) by (apply Nat.mod_upper_bound; lia).
  assert (HS : (S i mod M = S (i mod M) mod M)%nat).
  { rewrite (Nat.div_mod_eq i M) at 1.
    replace (S (M * (i / M) + i mod M)) with (S (i mod M) + (i / M) * M)%nat by lia.
    by rewrite Nat.Div0.mod_add. }
  rewrite HS. destruct (decide (S (i mod M) = M)) as [E|E].
  - rewrite E, Nat.Div0.mod_same.
    assert (i mod M = length tl)%nat as -> by lia.
    simpl. by rewrite list_lookup_middle.
  - rewrite (Nat.mod_small (S (i mod M))) by lia. simpl.
    apply lookup_app_l. lia.
Qed.

Variable h : gmap nat Backend.
Variable backends : list ptr.
Hypothesis Hlen : len backends <= MaxInt.
Hypothesis Hall : Forall (fun b => is_Some (h !! b)) backends.

Lemma rotate_lookup (c : Z) (i : nat) :
  0 <= c < len backends ->
  (i < length backends)%nat ->
  rotate (Z.to_nat c) backends !! i
  = backends !! Z.to_nat ((c + Z.of_nat i) mod len backends).
Proof.
  intros Hc Hi. rewrite lookup_rotate_r by done. f_equal.
  unfold rotate_nat_add, len. by rewrite Z2Nat.id by lia.
Qed.

(** One call takes the first of the healthy backends in the order that
    starts at the cursor, and leaves the cursor where that order starts
    with the next of them. *)
Lemma NextBackend_takes_head (c : Z) (b : ptr) (tl : list ptr) :
  0 <= c < len backends ->
  filter (fun b => IsHealthy h b = Some true) (rotate (Z.to_nat c) backends) = b :: tl ->
  exists c',
    NextBackend (still h) {| current := c |} backends = Some (Ret b, {| current := c' |})
    /\ 0 <= c' < len backends
    /\ filter (fun b => IsHealthy h b = Some true) (rotate (Z.to_nat c') backends)
       = tl ++ [b].
Proof.
  intros Hc Hf. unfold NextBackend.
  rewrite bool_decide_eq_false_2 by lia. simpl.
  destruct (loop_first h backends Hlen Hall (length backends) (length backends) 0
              c c Hc Hc (remaining_start backends _ Hc) ltac:(lia))
    as (r & c' & -> & Hres).
  set (R := rotate (Z.to_nat c) backends) in *.
  assert (HlenR : length R = length backends) by apply length_rotate.
  destruct Hres as [(j & b1 & Hj & -> & Hb1 & Hh1 & Hbefore & ->)|(-> & -> & Hnone)].
  - assert (HRj : R !! j = Some b1) by (unfold R; by rewrite rotate_lookup).
    assert (Hpre : filter (fun b => IsHealthy h b = Some true) (take j R) = []).
    { apply filter_none. apply Forall_lookup. intros i b' Hi.
      apply lookup_take_Some in Hi as [Hi Hij].
      unfold R in Hi. rewrite rotate_lookup in Hi by (done || lia).
      rewrite (Hbefore i b' Hij Hi). done. }
    rewrite <- (take_drop_middle R j b1 HRj) in Hf.
    rewrite filter_app, Hpre, filter_cons_True in Hf by done.
    simpl in Hf. injection Hf as <- <-.
    exists ((c + Z.of_nat j + 1) mod len backends). split; [done|].
    split; [apply Z.mod_pos_bound; lia|].
    assert (Hrot : rotate (Z.to_nat ((c + Z.of_nat j + 1) mod len backends)) backends
                   = drop (S j) R ++ take (S j) R).
    { rewrite <- rotate_le by lia. unfold R. rewrite rotate_rotate.
      rewrite <- (rotate_mod (S j + Z.to_nat c)). f_equal.
      unfold len. rewrite Z2Nat.inj_mod by lia. rewrite Nat2Z.id. f_equal. lia. }
    rewrite Hrot, filter_app. f_equal.
    rewrite (take_S_r R j b1 HRj), filter_app, Hpre. simpl.
    by rewrite filter_cons_True, filter_nil.
  - exfalso.
    assert (Hbad : filter (fun b => IsHealthy h b = Some true) R = []).
    { apply filter_none. apply Forall_lookup. intros i b' Hi.
      assert (i < length backends)%nat as Hil
          by (rewrite <- HlenR; by eapply lookup_lt_Some).
      unfold R in Hi. rewrite rotate_lookup in Hi by done.
      rewrite (Hnone i b' Hil Hi). done. }
    congruence.
Qed.

(** [N] calls go round the healthy backends in the order that starts
    at the cursor. *)
Lemma calls_healthy_cycle (N : nat) :
  forall (c : Z) (b : ptr) (tl : list ptr),
    0 <= c < len backends ->
    filter (fun b => IsHealthy h b = Some true) (rotate (Z.to_nat c) backends) = b :: tl ->
    exists rs s',
      NextBackend_calls N h {| current := c |} backends = Some (rs, s')
      /\ length rs = N
      /\ forall i : nat, (i < N)%nat ->
           rs !! i = Ret <$> (b :: tl) !! (i mod S (length tl))%nat.
Proof.
  induction N as [|N IH]; intros c b tl Hc Hf.
  { exists [], {| current := c |}. split; [done|]. split; [done|]. intros i Hi. lia. }
  destruct (NextBackend_takes_head c b tl Hc Hf) as (c' & Hcall & Hc' & Hf').
  destruct (tl ++ [b]) as [|b2 tl2] eqn:Htl; [by destruct tl|].
  destruct (IH c' b2 tl2 Hc' Hf') as (rs & s' & Hrun & Hlr & Hseq).
  assert (Hl2 : length tl2 = length tl).
  { apply (f_equal length) in Htl. rewrite length_app in Htl. simpl in Htl. lia. }
  exists (Ret b :: rs), s'. split; [simpl; by rewrite Hcall, Hrun|].
  split; [simpl; lia|].
  intros [|i] Hi.
  - by rewrite Nat.Div0.mod_0_l.
  - simpl. rewrite (Hseq i) by lia. rewrite <- Htl, Hl2.
    by rewrite lookup_rotated_one.
Qed.

End healthy_cycle.

(** X4: successive calls on a freshly constructed strategy, against a
    store that stays as it is and a pool with at least one healthy
    backend, go round the healthy backends in pool order: call number
    [i] (from 0) returns the healthy backend number [i mod M], where
    [M] is the number of healthy backends; unhealthy ones are skipped
    every time. *)
Theorem NextBackend_calls_skip_unhealthy
    (h : gmap nat backend.Backend) (backends : list backend.ptr) (N : nat) :
  pool_ok h backends ->
  filter (fun b => backend.IsHealthy h b = Some true) backends <> [] ->
  exists rs s',
    algorithm.NextBackend_calls N h algorithm.NewRoundRobinStrategy backends
      = Some (rs, s')
    /\ length rs = N
    /\ forall i : nat, (i < N)%nat ->
         rs !! i
         = Ret <$> filter (fun b => backend.IsHealthy h b = Some true) backends
                     !! (i mod length
                                 (filter (fun b => backend.IsHealthy h b = Some true)
                                    backends))%nat.
Proof.
  intros [Hlen Hall] Hne.
  destruct (filter _ backends) as [|b tl] eqn:Hf; [done|].
  assert (Hpos : 0 <= 0 < len backends).
  { unfold len. destruct backends; [done|simpl; lia]. }
  apply (calls_healthy_cycle h backends Hlen Hall N 0 b tl Hpos).
  change (Z.to_nat 0) with 0%nat. rewrite (rotate_le 0) by lia.
  rewrite drop_0. simpl. by rewrite app_nil_r.
Qed.

Lemma NextBackend_calls_skip_unhealthy_witness :
  exists rs s',
    algorithm.NextBackend_calls 5 example.store3_b2_down algorithm.NewRoundRobinStrategy
      example.pool3 = Some (rs, s')
    /\ length rs = 5%nat
    /\ forall i : nat, (i < 5)%nat ->
         rs !! i
         = Ret <$> filter (fun b => backend.IsHealthy example.store3_b2_down b = Some true)
                     example.pool3
                     !! (i mod length
                                 (filter (fun b => backend.IsHealthy example.store3_b2_down b
                                                   = Some true)
                                    example.pool3))%nat.
Proof.
  apply (NextBackend_calls_skip_unhealthy example.store3_b2_down example.pool3 5).
  - split; [by vm_compute|]. apply (bool_decide_unpack _). by vm_compute.
  - by vm_compute.
Defined.


(** ** Connection accounting *)

Section connections.
Import backend.

Lemma wrap_int_add_l (a b : Z) : wrap_int (wrap_int a + b) = wrap_int (a + b).
Proof.
  unfold wrap_int. f_equal.
  replace ((a + 2 ^ 63) mod 2 ^ 64 - 2 ^ 63 + b + 2 ^ 63)
    with ((a + 2 ^ 63) mod 2 ^ 64 + b) by lia.
  rewrite Zplus_mod_idemp_l. f_equal. lia.
Qed.

Lemma lookup_Increment h b r :
  h !! b = Some r ->
  IncrementConnections h b !! b
  = Some (mkBackend (ID r) (URL r) (isHealthy r) (int_add (activeConnections r) 1)).
Proof. intros Hb. unfold IncrementConnections. by rewrite lookup_alter_eq, Hb. Qed.

Lemma lookup_Decrement h b r :
  h !! b = Some r ->
  DecrementConnections h b !! b
  = Some (mkBackend (ID r) (URL r) (isHealthy r) (int_add (activeConnections r) (-1))).
Proof. intros Hb. unfold DecrementConnections. by rewrite lookup_alter_eq, Hb. Qed.

Lemma wrap_int_range (z : Z) : MinInt <= wrap_int z <= MaxInt.
Proof.
  unfold wrap_int, MinInt, MaxInt.
  pose proof (Z.mod_pos_bound (z + 2 ^ 63) (2 ^ 64) ltac:(lia)). lia.
Qed.

Lemma count_requests_lookup (evs : list bool) :
  forall h b r,
    h !! b = Some r ->
    MinInt <= activeConnections r <= MaxInt ->
    count_requests evs h b !! b
    = Some (mkBackend (ID r) (URL r) (isHealthy r)
              (wrap_int (activeConnections r
                         + (Z.of_nat (length (filter (fun e => e = true) evs))
                            - Z.of_nat (length (filter (fun e => e = false) evs)))))).
Proof.
  induction evs as [|e evs IH]; intros h b r Hb Hr; simpl.
  { rewrite Hb. destruct r as [i u hl c]. simpl in *.
    do 2 f_equal. change (Z.of_nat 0 - Z.of_nat 0) with 0.
    rewrite Z.add_0_r. symmetry. by apply wrap_int_small. }
  destruct e.
  - rewrite (IH _ b _ (lookup_Increment h b r Hb)) by apply wrap_int_range. simpl.
    rewrite ?filter_cons_True by done. rewrite ?filter_cons_False by done. simpl length.
    f_equal. f_equal. unfold int_add. rewrite wrap_int_add_l. f_equal. lia.
  - rewrite (IH _ b _ (lookup_Decrement h b r Hb)) by apply wrap_int_range. simpl.
    rewrite ?filter_cons_False by done. rewrite ?filter_cons_True by done. simpl length.
    f_equal. f_equal. unfold int_add. rewrite wrap_int_add_l. f_equal. lia.
Qed.

End connections.

(** X5: [ServeHTTP] counts the request in before the proxy runs and out
    after it, also at the ends of the [int64] range: the proxy runs on
    a store in which the backend's count is one more, afterwards the
    count is one less than the proxy left it, so a proxy that leaves
    the count alone leaves the backend with the count it had; the
    health flag and the other backends are as the proxy left them. *)
Theorem ServeHTTP_counts {A}
    (Proxy : gmap nat backend.Backend -> gmap nat backend.Backend * A)
    (h : gmap nat backend.Backend) (b : backend.ptr) (r : backend.Backend) :
  h !! b = Some r ->
  MinInt <= backend.activeConnections r <= MaxInt ->
  exists h2 res,
    Proxy (backend.IncrementConnections h b) = (h2, res)
    /\ backend.ServeHTTP Proxy h b = Some (backend.DecrementConnections h2 b, res)
    /\ backend.ActiveConnections (backend.IncrementConnections h b) b
       = Some (wrap_int (backend.activeConnections r + 1))
    /\ (forall c, backend.ActiveConnections h2 b = Some c ->
          backend.ActiveConnections (backend.DecrementConnections h2 b) b
          = Some (wrap_int (c - 1)))
    /\ (backend.ActiveConnections h2 b
        = backend.ActiveConnections (backend.IncrementConnections h b) b ->
        backend.ActiveConnections (backend.DecrementConnections h2 b) b
        = Some (backend.activeConnections r))
    /\ backend.IsHealthy (backend.DecrementConnections h2 b) b = backend.IsHealthy h2 b
    /\ (forall b', b' <> b -> backend.DecrementConnections h2 b !! b' = h2 !! b').
Proof.
  intros Hb Hr. destruct (Proxy (backend.IncrementConnections h b)) as [h2 res] eqn:HP.
  exists h2, res. split; [done|]. split.
  { unfold backend.ServeHTTP. by rewrite Hb, HP. }
  assert (Hinc : backend.ActiveConnections (backend.IncrementConnections h b) b
                 = Some (wrap_int (backend.activeConnections r + 1))).
  { unfold backend.ActiveConnections. by rewrite (lookup_Increment h b r Hb). }
  assert (Hdec : forall c, backend.ActiveConnections h2 b = Some c ->
                   backend.ActiveConnections (backend.DecrementConnections h2 b) b
                   = Some (wrap_int (c - 1))).
  { intros c Hc. unfold backend.ActiveConnections in *.
    destruct (h2 !! b) as [r2|] eqn:H2; [|done]. simpl in Hc. simplify_eq.
    by rewrite (lookup_Decrement h2 b r2 H2). }
  split; [done|]. split; [done|]. split; [|split].
  - intros Hsame. rewrite Hinc in Hsame. rewrite (Hdec _ Hsame). f_equal.
    replace (wrap_int (backend.activeConnections r + 1) - 1)
      with (wrap_int (backend.activeConnections r + 1) + -1) by lia.
    rewrite wrap_int_add_l.
    replace (backend.activeConnections r + 1 + -1)
      with (backend.activeConnections r) by lia.
    by apply wrap_int_small.
  - unfold backend.IsHealthy, backend.DecrementConnections.
    rewrite lookup_alter_eq. by destruct (h2 !! b).
  - intros b' Hne. unfold backend.DecrementConnections. by rewrite lookup_alter_ne.
Qed.

Lemma ServeHTTP_counts_witness :
  exists h2 res,
    (fun h1 => (h1, 200)) (backend.IncrementConnections example.store3 1%nat) = (h2, res)
    /\ backend.ServeHTTP (fun h1 => (h1, 200)) example.store3 1%nat
       = Some (backend.DecrementConnections h2 1%nat, res)
    /\ backend.ActiveConnections (backend.IncrementConnections example.store3 1%nat) 1%nat
       = Some (wrap_int (backend.activeConnections
                           (backend.mkBackend "b1" "http://b1:8080" true 0) + 1))
    /\ (forall c, backend.ActiveConnections h2 1%nat = Some c ->
          backend.ActiveConnections (backend.DecrementConnections h2 1%nat) 1%nat
          = Some (wrap_int (c - 1)))
    /\ (backend.ActiveConnections h2 1%nat
        = backend.ActiveConnections (backend.IncrementConnections example.store3 1%nat) 1%nat ->
        backend.ActiveConnections (backend.DecrementConnections h2 1%nat) 1%nat
        = Some (backend.activeConnections
                  (backend.mkBackend "b1" "http://b1:8080" true 0)))
    /\ backend.IsHealthy (backend.DecrementConnections h2 1%nat) 1%nat
       = backend.IsHealthy h2 1%nat
    /\ (forall b', b' <> 1%nat -> backend.DecrementConnections h2 1%nat !! b' = h2 !! b').
Proof.
  apply (ServeHTTP_counts (fun h1 => (h1, 200)) example.store3 1%nat
           (backend.mkBackend "b1" "http://b1:8080" true 0)).
  - by vm_compute.
  - by vm_compute.
Defined.

(** X6: requests start and end on a backend in any order; whatever the
    order, its counter holds the count it had plus the number of
    starts less the number of ends (wrapped to [int64]).  From a count
    of 0, with no more ends than starts, that is the number of requests
    in flight, which is never negative. *)
Theorem connections_count_in_flight
    (evs : list bool) (h : gmap nat backend.Backend) (b : backend.ptr)
    (r : backend.Backend) :
  h !! b = Some r ->
  MinInt <= backend.activeConnections r <= MaxInt ->
  backend.ActiveConnections (count_requests evs h b) b
  = Some (wrap_int (backend.activeConnections r
                    + (Z.of_nat (length (filter (fun e => e = true) evs))
                       - Z.of_nat (length (filter (fun e => e = false) evs)))))
  /\ (backend.activeConnections r = 0 ->
      (length (filter (fun e => e = false) evs)
       <= length (filter (fun e => e = true) evs))%nat ->
      Z.of_nat (length (filter (fun e => e = true) evs)) <= MaxInt ->
      exists n : nat,
        backend.ActiveConnections (count_requests evs h b) b = Some (Z.of_nat n)
        /\ (n + length (filter (fun e => e = false) evs)
            = length (filter (fun e => e = true) evs))%nat).
Proof.
  intros Hb Hr.
  assert (Hc : backend.ActiveConnections (count_requests evs h b) b
               = Some (wrap_int (backend.activeConnections r
                    + (Z.of_nat (length (filter (fun e => e = true) evs))
                       - Z.of_nat (length (filter (fun e => e = false) evs)))))).
  { unfold backend.ActiveConnections.
    by rewrite (count_requests_lookup evs h b r Hb Hr). }
  split; [done|]. intros H0 Hle Hmax.
  exists (length (filter (fun e => e = true) evs)
          - length (filter (fun e => e = false) evs))%nat.
  split; [|lia]. rewrite Hc, H0. f_equal.
  rewrite wrap_int_small by (unfold MinInt, MaxInt in *; lia). lia.
Qed.

Lemma connections_count_in_flight_witness :
  backend.ActiveConnections
    (count_requests [true; true; false; true; false] example.store3 2%nat) 2%nat
  = Some (wrap_int (backend.activeConnections
                      (backend.mkBackend "b2" "http://b2:8080" true 0)
                    + (Z.of_nat (length (filter (fun e => e = true)
                                           [true; true; false; true; false]))
                       - Z.of_nat (length (filter (fun e => e = false)
                                             [true; true; false; true; false]))))).
Proof.
  apply (connections_count_in_flight [true; true; false; true; false]
           example.store3 2%nat (backend.mkBackend "b2" "http://b2:8080" true 0)).
  - by vm_compute.
  - by vm_compute.
Defined.

(** ** Rounds of health probes *)

Section probes.
Import backend algorithm load_balancer.

Lemma SetHealthy_lookup h b r v :
  h !! b = Some r ->
  SetHealthy h b v !! b = Some (mkBackend (ID r) (URL r) v (activeConnections r)).
Proof. intros Hb. unfold SetHealthy. by rewrite lookup_alter_eq, Hb. Qed.

Lemma SetHealthy_other h b b' v : b' <> b -> SetHealthy h b v !! b' = h !! b'.
Proof. intros Hne. unfold SetHealthy. by rewrite lookup_alter_ne. Qed.

Lemma SetHealthy_same h b r :
  h !! b = Some r -> SetHealthy h b (isHealthy r) = h.
Proof.
  intros Hb. apply map_eq. intros p. destruct (decide (p = b)) as [->|Hne].
  - rewrite (SetHealthy_lookup h b r) by done. destruct r. symmetry. exact Hb.
  - by apply SetHealthy_other.
Qed.

(** The store a probe leaves, and its log lines, which only depend on
    what the probe met and on the flag it found. *)
Lemma checkBackendHealth_store h b p r :
  h !! b = Some r ->
  exists logs,
    checkBackendHealth h b p
    = Some (SetHealthy h b (flag_after p (isHealthy r)), logs)
    /\ forall h0 r0,
         h0 !! b = Some r0 -> isHealthy r0 = isHealthy r ->
         snd <$> checkBackendHealth h0 b p = Some logs.
Proof.
  intros Hb. unfold checkBackendHealth. rewrite Hb.
  destruct p as [| |code]; simpl; eexists;
    (split;
     [|intros h0 r0 H0 Hs; unfold checkBackendHealth; rewrite H0; simpl;
       rewrite ?Hs; reflexivity]).
  - by rewrite (SetHealthy_same h b r).
  - done.
  - done.
Qed.

Lemma HealthCheck_from_flags (bs : list ptr) :
  forall (i : nat) h meets,
    NoDup bs ->
    Forall (fun b => is_Some (h !! b)) bs ->
    exists h',
      HealthCheck_from i h bs meets = Some h'
      /\ (forall (j : nat) b r,
            bs !! j = Some b -> h !! b = Some r ->
            h' !! b = Some (mkBackend (ID r) (URL r)
                              (flag_after (meets (i + j)%nat) (isHealthy r))
                              (activeConnections r)))
      /\ (forall b, b ∉ bs -> h' !! b = h !! b).
Proof.
  induction bs as [|b bs IH]; intros i h meets Hnd Hall.
  { exists h. split; [done|]. split; [intros j b r Hj; done|done]. }
  apply NoDup_cons in Hnd as [Hnin Hnd].
  apply Forall_cons in Hall as [[r0 Hb0] Hall].
  destruct (checkBackendHealth_store h b (meets i) r0 Hb0) as (logs & Hck & _).
  simpl. rewrite Hck.
  destruct (IH (S i) (SetHealthy h b (flag_after (meets i) (isHealthy r0))) meets Hnd)
    as (h' & Hrun & Hflags & Hframe).
  { eapply Forall_impl; [exact Hall|]. intros b' [r' Hr']. simpl.
    destruct (decide (b' = b)) as [->|Hne].
    - rewrite (SetHealthy_lookup h b r0) by done. eauto.
    - rewrite SetHealthy_other by done. eauto. }
  exists h'. split; [done|]. split.
  - intros [|j] b1 r1 Hj Hb1; simpl in Hj.
    + assert (b1 = b) as -> by congruence.
      assert (r1 = r0) as -> by congruence.
      rewrite Hframe by done.
      rewrite (SetHealthy_lookup h b r0) by done. by rewrite Nat.add_0_r.
    + assert (b1 <> b) as Hne.
      { intros ->. apply Hnin. apply list_elem_of_lookup. eauto. }
      rewrite (Hflags j b1 r1 Hj) by (by rewrite SetHealthy_other).
      by replace (S i + j)%nat with (i + S j)%nat by lia.
  - intros b1 Hb1. apply not_elem_of_cons in Hb1 as [Hne Hb1].
    rewrite Hframe by done. by apply SetHealthy_other.
Qed.

End probes.

Section none_healthy.
Import backend algorithm load_balancer.

(** With no healthy backend the call fails and the strategy is as it
    was. *)
Lemma NextBackend_none_healthy h s backends :
  pool_ok h backends ->
  cursor_ok s backends ->
  Forall (fun b => IsHealthy h b = Some false) backends ->
  NextBackend (still h) s backends
  = Some (Error "no healthy backends available", s).
Proof.
  intros [Hlen Hall] Hc Hbad. unfold NextBackend.
  rewrite bool_decide_eq_false_2 by (unfold cursor_ok in Hc; lia).
  destruct (loop_first h backends Hlen Hall (length backends) (length backends) 0
              (current s) (current s) Hc Hc
              (remaining_start backends _ Hc) ltac:(lia))
    as (r & c' & -> & Hres).
  destruct Hres as [(j & b1 & Hj & -> & Hb1 & Hh1 & _)|(-> & -> & _)].
  - exfalso. rewrite Forall_forall in Hbad.
    assert (b1 ∈ backends) as Hin by (apply list_elem_of_lookup; eauto).
    specialize (Hbad b1 Hin). congruence.
  - by destruct s.
Qed.

End none_healthy.

(** X7: probes of two different backends can be run in either order:
    the store they leave and the lines each of them logs are the same.
    (So the probes of one round, which run side by side, can be taken
    one after the other.) *)
Theorem checkBackendHealth_commute
    (h : gmap nat backend.Backend) (b1 b2 : backend.ptr)
    (p1 p2 : load_balancer.probe) :
  b1 <> b2 ->
  is_Some (h !! b1) ->
  is_Some (h !! b2) ->
  exists h1 h2 h12 l1 l2,
    load_balancer.checkBackendHealth h b1 p1 = Some (h1, l1)
    /\ load_balancer.checkBackendHealth h1 b2 p2 = Some (h12, l2)
    /\ load_balancer.checkBackendHealth h b2 p2 = Some (h2, l2)
    /\ load_balancer.checkBackendHealth h2 b1 p1 = Some (h12, l1).
Proof.
  intros Hne [r1 Hr1] [r2 Hr2].
  destruct (checkBackendHealth_store h b1 p1 r1 Hr1) as (l1 & Hc1 & Hl1).
  destruct (checkBackendHealth_store h b2 p2 r2 Hr2) as (l2 & Hc2 & Hl2).
  set (h1 := backend.SetHealthy h b1 (flag_after p1 (backend.isHealthy r1))) in *.
  set (h2 := backend.SetHealthy h b2 (flag_after p2 (backend.isHealthy r2))) in *.
  assert (H12 : h1 !! b2 = Some r2) by (unfold h1; by rewrite SetHealthy_other).
  assert (H21 : h2 !! b1 = Some r1) by (unfold h2; by rewrite SetHealthy_other).
  destruct (checkBackendHealth_store h1 b2 p2 r2 H12) as (l2' & Hc12 & _).
  destruct (checkBackendHealth_store h2 b1 p1 r1 H21) as (l1' & Hc21 & _).
  pose proof (Hl2 h1 r2 H12 eq_refl) as E2. rewrite Hc12 in E2. simpl in E2.
  pose proof (Hl1 h2 r1 H21 eq_refl) as E1. rewrite Hc21 in E1. simpl in E1.
  simplify_eq.
  exists h1, h2, (backend.SetHealthy h1 b2 (flag_after p2 (backend.isHealthy r2))), l1, l2.
  split; [done|]. split; [done|]. split; [done|].
  rewrite Hc21. do 2 f_equal. unfold h1, h2, backend.SetHealthy.
  by apply alter_alter_ne.
Qed.

Lemma checkBackendHealth_commute_witness :
  exists h1 h2 h12 l1 l2,
    load_balancer.checkBackendHealth example.store3 1%nat load_balancer.TransportError
      = Some (h1, l1)
    /\ load_balancer.checkBackendHealth h1 3%nat (load_balancer.Response 500)
       = Some (h12, l2)
    /\ load_balancer.checkBackendHealth example.store3 3%nat (load_balancer.Response 500)
       = Some (h2, l2)
    /\ load_balancer.checkBackendHealth h2 1%nat load_balancer.TransportError
       = Some (h12, l1).
Proof.
  apply (checkBackendHealth_commute example.store3 1%nat 3%nat
           load_balancer.TransportError (load_balancer.Response 500)).
  - by vm_compute.
  - eexists. by vm_compute.
  - eexists. by vm_compute.
Defined.

(** X8: one round of probes over a pool of distinct backends leaves
    every backend of the pool with the flag its own probe decides
    (unchanged, false, or status = 200) and everything else in the
    store as it was. *)
Theorem HealthCheck_flags
    (h : gmap nat backend.Backend) (lb : load_balancer.loadBalancer)
    (meets : nat -> load_balancer.probe) :
  NoDup (load_balancer.backends lb) ->
  Forall (fun b => is_Some (h !! b)) (load_balancer.backends lb) ->
  exists h',
    load_balancer.HealthCheck h lb meets = Some h'
    /\ (forall (j : nat) b r,
          load_balancer.backends lb !! j = Some b -> h !! b = Some r ->
          h' !! b = Some (backend.mkBackend (backend.ID r) (backend.URL r)
                            (flag_after (meets j) (backend.isHealthy r))
                            (backend.activeConnections r)))
    /\ (forall b, b ∉ load_balancer.backends lb -> h' !! b = h !! b).
Proof.
  intros Hnd Hall. unfold load_balancer.HealthCheck.
  apply (HealthCheck_from_flags (load_balancer.backends lb) 0 h meets Hnd Hall).
Qed.

Lemma HealthCheck_flags_witness :
  exists h',
    load_balancer.HealthCheck example.store3 example.lb3
      (fun j => if (j =? 1)%nat then load_balancer.Response 500
                else load_balancer.Response 200) = Some h'
    /\ (forall (j : nat) b r,
          load_balancer.backends example.lb3 !! j = Some b ->
          example.store3 !! b = Some r ->
          h' !! b = Some (backend.mkBackend (backend.ID r) (backend.URL r)
                            (flag_after (if (j =? 1)%nat then load_balancer.Response 500
                                         else load_balancer.Response 200)
                               (backend.isHealthy r))
                            (backend.activeConnections r)))
    /\ (forall b, b ∉ load_balancer.backends example.lb3 -> h' !! b = example.store3 !! b).
Proof.
  apply (HealthCheck_flags example.store3 example.lb3).
  - apply (bool_decide_unpack _). by vm_compute.
  - apply (bool_decide_unpack _). by vm_compute.
Defined.

(** X9: when every probe of a round fails (transport error or a status
    other than 200), the next selection returns the error no healthy
    backends available, and leaves the balancer as it was. *)
Theorem HealthCheck_all_fail_then_error
    (h : gmap nat backend.Backend) (lb : load_balancer.loadBalancer)
    (meets : nat -> load_balancer.probe) :
  NoDup (load_balancer.backends lb) ->
  pool_ok h (load_balancer.backends lb) ->
  (match load_balancer.strategy lb with
   | algorithm.RoundRobin rr => cursor_ok rr (load_balancer.backends lb)
   end) ->
  (forall j, probe_fails (meets j)) ->
  exists h',
    load_balancer.HealthCheck h lb meets = Some h'
    /\ load_balancer.GetNextBackend (backend.still h') lb
       = Some (Error "no healthy backends available", lb).
Proof.
  destruct lb as [bs [rr]]. simpl. intros Hnd [Hlen Hall] Hc Hfail.
  destruct (HealthCheck_from_flags bs 0 h meets Hnd Hall) as (h' & Hrun & Hflags & _).
  exists h'. split; [done|].
  unfold load_balancer.GetNextBackend. simpl.
  rewrite (NextBackend_none_healthy h' rr bs); [done| |done|].
  - split; [done|]. apply Forall_lookup. intros j b Hj.
    rewrite Forall_forall in Hall.
    destruct (Hall b) as [r Hr]; [apply list_elem_of_lookup; eauto|].
    rewrite (Hflags j b r Hj Hr). eauto.
  - apply Forall_lookup. intros j b Hj.
    rewrite Forall_forall in Hall.
    destruct (Hall b) as [r Hr]; [apply list_elem_of_lookup; eauto|].
    unfold backend.IsHealthy. rewrite (Hflags j b r Hj Hr). simpl. f_equal.
    specialize (Hfail j). destruct (meets j) as [| |code]; simpl in *; [done|done|].
    by rewrite bool_decide_eq_false_2.
Qed.

Lemma HealthCheck_all_fail_then_error_witness :
  exists h',
    load_balancer.HealthCheck example.store3 example.lb3
      (fun _ => load_balancer.TransportError) = Some h'
    /\ load_balancer.GetNextBackend (backend.still h') example.lb3
       = Some (Error "no healthy backends available", example.lb3).
Proof.
  apply (HealthCheck_all_fail_then_error example.store3 example.lb3
           (fun _ => load_balancer.TransportError)).
  - apply (bool_decide_unpack _). by vm_compute.
  - split; [by vm_compute|]. apply (bool_decide_unpack _). by vm_compute.
  - by vm_compute.
  - intros j. exact I.
Defined.

(** X10: a probe that meets again what the last probe of the backend
    met leaves the store as it is and logs no transition: nothing for a
    response, only the connection-failed line for a transport error. *)
Theorem checkBackendHealth_repeated
    (h : gmap nat backend.Backend) (b : backend.ptr) (p : load_balancer.probe)
    (r : backend.Backend) :
  h !! b = Some r ->
  exists h1 l1,
    load_balancer.checkBackendHealth h b p = Some (h1, l1)
    /\ load_balancer.checkBackendHealth h1 b p = Some (h1, steady_logs p).
Proof.
  intros Hb.
  destruct (checkBackendHealth_store h b p r Hb) as (l1 & Hc & _).
  eexists _, l1. split; [exact Hc|].
  set (v := flag_after p (backend.isHealthy r)).
  assert (H1 : backend.SetHealthy h b v !! b
               = Some (backend.mkBackend (backend.ID r) (backend.URL r) v
                         (backend.activeConnections r)))
    by (by apply SetHealthy_lookup).
  unfold load_balancer.checkBackendHealth. rewrite H1.
  assert (Hv : flag_after p v = v) by (unfold v; by destruct p).
  pose proof (SetHealthy_same _ b _ H1) as Hs. simpl in Hs.
  destruct p as [| |code]; subst v; simpl in *.
  - done.
  - by rewrite Hs.
  - unfold load_balancer.StatusOK. rewrite Hs.
    by rewrite (bool_decide_eq_true_2 (bool_decide (code = 200) = bool_decide (code = 200))).
Qed.

Lemma checkBackendHealth_repeated_witness :
  exists h1 l1,
    load_balancer.checkBackendHealth example.store3 2%nat load_balancer.TransportError
      = Some (h1, l1)
    /\ load_balancer.checkBackendHealth h1 2%nat load_balancer.TransportError
       = Some (h1, steady_logs load_balancer.TransportError).
Proof.
  apply (checkBackendHealth_repeated example.store3 2%nat load_balancer.TransportError
           (backend.mkBackend "b2" "http://b2:8080" true 0)).
  by vm_compute.
Defined.

(** ** Construction of the balancer *)

Section construction.
Import backend load_balancer.
Local Open Scope list_scope.
Variable url_Parse : string -> string + string.

Lemma enabled_cons_true c cfgs :
  config.Enabled c = true -> enabled (c :: cfgs) = c :: enabled cfgs.
Proof. intros Hc. unfold enabled. by rewrite filter_cons_True. Qed.

Lemma enabled_cons_false c cfgs :
  config.Enabled c = false -> enabled (c :: cfgs) = enabled cfgs.
Proof.
  intros Hc. unfold enabled. rewrite filter_cons_False; [done|]. by rewrite Hc.
Qed.

(** The loop of [NewLoadBalancer] appends one freshly allocated backend
    per enabled configuration, in order, and touches nothing else. *)
Lemma new_backends_Ret cfgs :
  forall h acc bs h',
    new_backends url_Parse cfgs h acc = Ret (bs, h') ->
    exists news,
      bs = acc ++ news
      /\ Forall2 (built_from url_Parse h') news (enabled cfgs)
      /\ NoDup news
      /\ Forall (fun b => h !! b = None) news
      /\ (forall p, p ∉ news -> h' !! p = h !! p).
Proof.
  induction cfgs as [|c cfgs IH]; intros h acc bs h' Hrun; simpl in Hrun.
  { simplify_eq. exists []. rewrite app_nil_r. repeat split; try constructor. }
  destruct (config.Enabled c) eqn:Hen; simpl in Hrun.
  2:{ rewrite (enabled_cons_false c cfgs Hen). by apply IH. }
  rewrite (enabled_cons_true c cfgs Hen).
  fold (backend_address c) in Hrun.
  destruct (url_Parse (backend_address c)) as [u|e] eqn:Hu; [|done].
  apply IH in Hrun as (news & -> & Hbuilt & Hnd & Hnew & Hkeep).
  assert (Hb : fresh h ∉ news).
  { intros Hin. rewrite Forall_forall in Hnew. specialize (Hnew _ Hin).
    by rewrite lookup_insert_eq in Hnew. }
  assert (Hfresh : h !! fresh h = None) by apply (NewBackend_fresh h "" "").
  exists (fresh h :: news). rewrite <- app_assoc. split; [done|].
  split; [|split; [|split]].
  - constructor; [|done]. exists u. split; [done|].
    rewrite (Hkeep _ Hb). by rewrite lookup_insert_eq.
  - by constructor.
  - constructor; [done|]. eapply Forall_impl; [exact Hnew|].
    intros p Hp. simpl in Hp. apply lookup_insert_None in Hp. tauto.
  - intros p Hp. apply not_elem_of_cons in Hp as [Hne Hp].
    rewrite (Hkeep _ Hp). by rewrite lookup_insert_ne.
Qed.

(** The loop fails only on an enabled configuration whose address does
    not parse. *)
Lemma new_backends_Error cfgs :
  forall h acc err,
    new_backends url_Parse cfgs h acc = Error err ->
    exists c e,
      c ∈ enabled cfgs
      /\ url_Parse (backend_address c) = inr e
      /\ err = "invalid backend URL: " +:+ e.
Proof.
  induction cfgs as [|c cfgs IH]; intros h acc err Hrun; simpl in Hrun; [done|].
  destruct (config.Enabled c) eqn:Hen; simpl in Hrun.
  2:{ rewrite (enabled_cons_false c cfgs Hen). by eapply IH. }
  rewrite (enabled_cons_true c cfgs Hen).
  fold (backend_address c) in Hrun.
  destruct (url_Parse (backend_address c)) as [u|e] eqn:Hu.
  - apply IH in Hrun as (c' & e & Hin & He & ->).
    exists c', e. split; [by apply elem_of_cons; right|done].
  - simplify_eq. exists c, e. split; [by apply elem_of_cons; left|done].
Qed.

Lemma new_backends_no_Panic cfgs :
  forall h acc, new_backends url_Parse cfgs h acc <> Panic.
Proof.
  induction cfgs as [|c cfgs IH]; intros h acc; simpl; [done|].
  destruct (config.Enabled c); simpl; [|by apply IH].
  destruct (url_Parse _); [by apply IH|done].
Qed.

End construction.

(** X11: a balancer that [NewLoadBalancer] returns has one backend per
    enabled configuration, in the order of the configuration, each with
    the configuration's id and parsed address, healthy and without
    connections; the backends are distinct and newly allocated, the
    records already in the store are untouched, and the strategy is a
    round robin with its cursor at 0. *)
Theorem NewLoadBalancer_pool
    (url_Parse : string -> string + string) (cfg : config.Config)
    (h h' : gmap nat backend.Backend) (lb : load_balancer.loadBalancer) :
  load_balancer.NewLoadBalancer url_Parse cfg h = Ret (lb, h') ->
  Forall2 (built_from url_Parse h') (load_balancer.backends lb)
    (enabled (config.Backends cfg))
  /\ NoDup (load_balancer.backends lb)
  /\ Forall (fun b => h !! b = None) (load_balancer.backends lb)
  /\ (forall p, p ∉ load_balancer.backends lb -> h' !! p = h !! p)
  /\ load_balancer.strategy lb = algorithm.RoundRobin {| algorithm.current := 0 |}.
Proof.
  unfold load_balancer.NewLoadBalancer, algorithm.GetStrategy.
  case_bool_decide as Hm; [|done].
  destruct (load_balancer.new_backends _ _ _ _) as [[bs h1]| |] eqn:Hrun; [|done|done].
  case_bool_decide; [done|]. intros [= <- <-]. simpl.
  apply new_backends_Ret in Hrun as (news & -> & ? & ? & ? & ?). simpl. done.
Qed.

Lemma NewLoadBalancer_pool_witness :
  Forall2 (built_from inl example.store_cfg3)
    (load_balancer.backends example.lb_cfg3)
    (enabled (config.Backends example.cfg3))
  /\ NoDup (load_balancer.backends example.lb_cfg3)
  /\ Forall (fun b => (∅ : gmap nat backend.Backend) !! b = None)
       (load_balancer.backends example.lb_cfg3)
  /\ (forall p, p ∉ load_balancer.backends example.lb_cfg3 ->
       example.store_cfg3 !! p = (∅ : gmap nat backend.Backend) !! p)
  /\ load_balancer.strategy example.lb_cfg3
     = algorithm.RoundRobin {| algorithm.current := 0 |}.
Proof.
  apply (NewLoadBalancer_pool inl example.cfg3 ∅ example.store_cfg3 example.lb_cfg3).
  by vm_compute.
Defined.

Section construction_outcome.
Import backend load_balancer.
Local Open Scope list_scope.
Variable url_Parse : string -> string + string.

(** When every enabled address parses the loop returns. *)
Lemma new_backends_parses cfgs :
  forall h acc,
    Forall (parses url_Parse) (enabled cfgs) ->
    exists bs h', new_backends url_Parse cfgs h acc = Ret (bs, h').
Proof.
  induction cfgs as [|c cfgs IH]; intros h acc Hall; simpl; [eauto|].
  destruct (config.Enabled c) eqn:Hen; simpl.
  2:{ rewrite (enabled_cons_false c cfgs Hen) in Hall. by apply IH. }
  rewrite (enabled_cons_true c cfgs Hen) in Hall.
  apply Forall_cons in Hall as [[u Hu] Hall].
  fold (backend_address c). rewrite Hu. by apply IH.
Qed.

Lemma built_from_parses h news cfgs :
  Forall2 (built_from url_Parse h) news cfgs -> Forall (parses url_Parse) cfgs.
Proof.
  induction 1 as [|b c news cfgs [u [Hu _]] _ IH]; constructor; [by exists u|done].
Qed.

End construction_outcome.

(** When [NewLoadBalancer] returns a balancer. *)
Lemma NewLoadBalancer_Ret_iff
    (url_Parse : string -> string + string) (cfg : config.Config)
    (h : gmap nat backend.Backend) :
  (exists lb h', load_balancer.NewLoadBalancer url_Parse cfg h = Ret (lb, h'))
  <-> config.Method (config.LoadBalancer cfg) = "RoundRobin"
      /\ Forall (parses url_Parse) (enabled (config.Backends cfg))
      /\ enabled (config.Backends cfg) <> [].
Proof.
  unfold load_balancer.NewLoadBalancer, algorithm.GetStrategy. split.
  - intros (lb & h' & Hrun).
    case_bool_decide as Hm; [|done]. split; [done|].
    destruct (load_balancer.new_backends _ _ _ _) as [[bs h1]| |] eqn:Hnew;
      [|done|done].
    case_bool_decide as Hlen; [done|].
    apply new_backends_Ret in Hnew as (news & -> & Hbuilt & _). simpl in *.
    split; [by eapply built_from_parses|].
    intros Hnone. rewrite Hnone in Hbuilt. apply Forall2_nil_inv_r in Hbuilt.
    by subst.
  - intros (Hm & Hall & Hsome).
    rewrite bool_decide_eq_true_2 by done.
    destruct (new_backends_parses url_Parse (config.Backends cfg) h [] Hall)
      as (bs & h' & Hnew).
    rewrite Hnew.
    apply new_backends_Ret in Hnew as (news & -> & Hbuilt & _). simpl in *.
    case_bool_decide as Hlen; [|eauto].
    exfalso. apply Hsome. destruct news; [|done].
    by apply Forall2_nil_inv_l in Hbuilt.
Qed.

(** X12: [NewLoadBalancer] returns a balancer exactly when the method
    is RoundRobin, the address of every enabled backend parses, and at
    least one backend is enabled.  Disabled backends play no part:
    their addresses are not even parsed. *)
Theorem NewLoadBalancer_succeeds_iff
    (url_Parse : string -> string + string) (cfg : config.Config)
    (h : gmap nat backend.Backend) :
  (exists lb h', load_balancer.NewLoadBalancer url_Parse cfg h = Ret (lb, h'))
  <-> config.Method (config.LoadBalancer cfg) = "RoundRobin"
      /\ Forall (parses url_Parse) (enabled (config.Backends cfg))
      /\ enabled (config.Backends cfg) <> [].
Proof. apply NewLoadBalancer_Ret_iff. Qed.

(** The errors of [NewLoadBalancer]. *)
Lemma NewLoadBalancer_Error_cases
    (url_Parse : string -> string + string) (cfg : config.Config)
    (h : gmap nat backend.Backend) :
  load_balancer.NewLoadBalancer url_Parse cfg h <> Panic
  /\ forall err,
       load_balancer.NewLoadBalancer url_Parse cfg h = Error err ->
       (config.Method (config.LoadBalancer cfg) <> "RoundRobin"
        /\ err = "failed to create balancing strategy: unknown balancing strategy: "
                 +:+ config.Method (config.LoadBalancer cfg))
       \/ (config.Method (config.LoadBalancer cfg) = "RoundRobin"
           /\ exists c e,
                c ∈ enabled (config.Backends cfg)
                /\ url_Parse (backend_address c) = inr e
                /\ err = "invalid backend URL: " +:+ e)
       \/ (config.Method (config.LoadBalancer cfg) = "RoundRobin"
           /\ enabled (config.Backends cfg) = []
           /\ err = "no enabled backends configured").
Proof.
  unfold load_balancer.NewLoadBalancer, algorithm.GetStrategy.
  case_bool_decide as Hm.
  - destruct (load_balancer.new_backends _ _ _ _) as [[bs h1]|e|] eqn:Hnew.
    + split; [by case_bool_decide|]. intros err.
      case_bool_decide as Hlen; [|done]. intros [= <-]. right. right.
      split; [done|]. split; [|done].
      apply new_backends_Ret in Hnew as (news & -> & Hbuilt & _). simpl in *.
      destruct news; [|done]. by apply Forall2_nil_inv_l in Hbuilt.
    + split; [done|]. intros err [= <-]. right. left. split; [done|].
      by eapply new_backends_Error.
    + by apply new_backends_no_Panic in Hnew.
  - split; [done|]. intros err [= <-]. left. split; [done|].
    reflexivity.
Qed.

(** X13: [NewLoadBalancer] never panics, and an error it returns is one
    of three: the method is not RoundRobin (the message carries the
    name); or the method is RoundRobin and the address of an enabled
    backend does not parse (the message carries the parse error); or
    the method is RoundRobin, every enabled address parses --- there is
    none --- and no backend is enabled. *)
Theorem NewLoadBalancer_errors
    (url_Parse : string -> string + string) (cfg : config.Config)
    (h : gmap nat backend.Backend) :
  load_balancer.NewLoadBalancer url_Parse cfg h <> Panic
  /\ forall err,
       load_balancer.NewLoadBalancer url_Parse cfg h = Error err ->
       (config.Method (config.LoadBalancer cfg) <> "RoundRobin"
        /\ err = "failed to create balancing strategy: unknown balancing strategy: "
                 +:+ config.Method (config.LoadBalancer cfg))
       \/ (config.Method (config.LoadBalancer cfg) = "RoundRobin"
           /\ exists c e,
                c ∈ enabled (config.Backends cfg)
                /\ url_Parse (backend_address c) = inr e
                /\ err = "invalid backend URL: " +:+ e)
       \/ (config.Method (config.LoadBalancer cfg) = "RoundRobin"
           /\ enabled (config.Backends cfg) = []
           /\ err = "no enabled backends configured").
Proof. apply NewLoadBalancer_Error_cases. Qed.

Lemma NewLoadBalancer_errors_witness :
  (config.Method (config.LoadBalancer example.cfg3) <> "RoundRobin"
   /\ "invalid backend URL: no route"
      = "failed to create balancing strategy: unknown balancing strategy: "
        +:+ config.Method (config.LoadBalancer example.cfg3))
  \/ (config.Method (config.LoadBalancer example.cfg3) = "RoundRobin"
      /\ exists c e,
           c ∈ enabled (config.Backends example.cfg3)
           /\ (fun _ : string => @inr string string "no route") (backend_address c) = inr e
           /\ "invalid backend URL: no route" = "invalid backend URL: " +:+ e)
  \/ (config.Method (config.LoadBalancer example.cfg3) = "RoundRobin"
      /\ enabled (config.Backends example.cfg3) = []
      /\ "invalid backend URL: no route" = "no enabled backends configured").
Proof.
  apply (proj2 (NewLoadBalancer_errors (fun _ => inr "no route") example.cfg3 ∅)
           "invalid backend URL: no route").
  by vm_compute.
Defined.

(** ** Validation of the configuration *)

Section validation.
Import config.
Local Open Scope list_scope.

Lemma count_enabled_nonempty bs :
  forall i n,
    Forall (fun c => ID c <> EmptyString) bs ->
    exists m, count_enabled i n bs = inr m.
Proof.
  induction bs as [|c bs IH]; intros i n Hall; simpl; [eauto|].
  apply Forall_cons in Hall as [Hc Hall].
  rewrite bool_decide_eq_false_2 by done. by apply IH.
Qed.

(** Without an empty id the loop counts the enabled backends. *)
Lemma count_enabled_inr bs :
  forall i n,
    Forall (fun c => ID c <> EmptyString) bs ->
    0 <= n -> n + len bs <= MaxInt ->
    count_enabled i n bs = inr (n + len (enabled bs)).
Proof.
  induction bs as [|c bs IH]; intros i n Hall Hn Hlen; simpl.
  { unfold len. simpl. f_equal. lia. }
  apply Forall_cons in Hall as [Hc Hall].
  rewrite bool_decide_eq_false_2 by done.
  unfold len in Hlen. simpl length in Hlen.
  destruct (Enabled c) eqn:Hen.
  - rewrite (enabled_cons_true c bs Hen).
    unfold int_add. rewrite wrap_int_small by (unfold MinInt, MaxInt in *; lia).
    rewrite IH; [|done|lia|unfold len; lia].
    f_equal. unfold len. simpl length. lia.
  - rewrite (enabled_cons_false c bs Hen). apply IH; [done|lia|unfold len; lia].
Qed.

(** The loop stops at the first backend without an id. *)
Lemma count_enabled_inl bs :
  forall i n (j : nat) c,
    bs !! j = Some c -> ID c = EmptyString ->
    Forall (fun c => ID c <> EmptyString) (take j bs) ->
    count_enabled i n bs = inl (EmptyID (i + j)).
Proof.
  induction bs as [|c0 bs IH]; intros i n j c Hj Hc Hbefore; [done|].
  destruct j as [|j]; simpl in *.
  - simplify_eq. rewrite bool_decide_eq_true_2 by done. do 2 f_equal. lia.
  - apply Forall_cons in Hbefore as [Hc0 Hbefore].
    rewrite bool_decide_eq_false_2 by done.
    rewrite (IH (S i) _ j c Hj Hc Hbefore). do 2 f_equal. lia.
Qed.

Lemma first_empty_id (bs : list BackendConfig) :
  Forall (fun c => ID c <> EmptyString) bs
  \/ exists (j : nat) c,
       bs !! j = Some c /\ ID c = EmptyString
       /\ Forall (fun c => ID c <> EmptyString) (take j bs).
Proof.
  induction bs as [|c bs IH]; [by left|].
  destruct (decide (ID c = EmptyString)) as [Hc|Hc].
  { right. exists 0%nat, c. simpl. split; [done|]. split; [done|constructor]. }
  destruct IH as [Hall|(j & c' & Hj & Hc' & Hbefore)].
  - left. by constructor.
  - right. exists (S j), c'. simpl. split; [done|]. split; [done|by constructor].
Qed.

(** [x <= 0] is false of positive numbers, of +Inf and of a NaN. *)
Lemma float64_le_0_spec (x : float64) :
  float64_le_0 x = false <-> rate_not_le_0 x.
Proof.
  destruct x as [q| | |]; simpl; [|done|done|done].
  split.
  - intros Hle. apply Qnot_le_lt. intros H. apply Qle_bool_iff in H. congruence.
  - intros Hlt. apply not_true_is_false. intros H. apply Qle_bool_iff in H.
    by apply (Qlt_not_le _ _ Hlt).
Qed.

Lemma method_supported (m : string) :
  m ∈ SupportedBalancingMethods <-> m = "RoundRobin".
Proof. unfold SupportedBalancingMethods. by rewrite list_elem_of_singleton. Qed.

Lemma enabled_len_0 (bs : list BackendConfig) :
  len (enabled bs) = 0 <-> enabled bs = [].
Proof. unfold len. destruct (enabled bs); simpl; split; (done || lia). Qed.

(** The configurations [validateConfig] accepts. *)
Lemma validateConfig_None_iff (cfg : Config) :
  len (Backends cfg) <= MaxInt ->
  validateConfig cfg = None
  <-> Method (LoadBalancer cfg) = "RoundRobin"
      /\ Forall (fun c => ID c <> EmptyString) (Backends cfg)
      /\ enabled (Backends cfg) <> []
      /\ (RateLimitEnabled (RateLimit cfg) = true ->
          rate_not_le_0 (DefaultRate (RateLimit cfg))
          /\ 0 < DefaultBurst (RateLimit cfg)).
Proof.
  intros Hlen. unfold validateConfig.
  pose proof (method_supported (Method (LoadBalancer cfg))) as Hm.
  case_bool_decide as Hsup; simpl; [|split; [done|tauto]].
  apply Hm in Hsup.
  case_bool_decide as Hnone.
  { split; [done|]. intros (_ & _ & Hen & _). exfalso. apply Hen.
    destruct (Backends cfg); [done|]. unfold len in Hnone. simpl in Hnone. lia. }
  destruct (first_empty_id (Backends cfg)) as [Hall|(j & c & Hj & Hc & Hbefore)].
  2:{ rewrite (count_enabled_inl _ 0 0 j c Hj Hc Hbefore).
      split; [done|]. intros (_ & Hall & _). exfalso.
      rewrite Forall_forall in Hall. apply (Hall c); [|done].
      apply list_elem_of_lookup. eauto. }
  rewrite (count_enabled_inr _ 0 0 Hall) by lia. rewrite Z.add_0_l.
  case_bool_decide as Hen.
  { apply enabled_len_0 in Hen. split; [done|]. tauto. }
  assert (enabled (Backends cfg) <> []) by (by rewrite <- enabled_len_0).
  destruct (RateLimitEnabled (RateLimit cfg)); [|by split].
  pose proof (float64_le_0_spec (DefaultRate (RateLimit cfg))) as Hrate.
  destruct (float64_le_0 (DefaultRate (RateLimit cfg))) eqn:Hr.
  { split; [done|]. intros (_ & _ & _ & Hpos).
    destruct (Hpos eq_refl) as [Hr' _]. by apply Hrate in Hr'. }
  assert (rate_not_le_0 (DefaultRate (RateLimit cfg))) by (by apply Hrate).
  case_bool_decide as Hb.
  - split; [done|]. intros (_ & _ & _ & Hpos). destruct (Hpos eq_refl). lia.
  - split; [|done]. intros _. repeat split; (done || lia).
Qed.

End validation.

(** X14: for a configuration of at most MaxInt backends,
    [validateConfig] returns no error exactly when the method is
    RoundRobin, no backend has an empty id, at least one backend is
    enabled and, when rate limiting is enabled, the default burst is
    positive and the default rate is not [<= 0].  That lets through a
    default rate of +Inf and one that is a NaN, of which every
    comparison is false, besides the positive numbers.  With rate
    limiting disabled the two defaults are not looked at. *)
Theorem validateConfig_accepts_iff (cfg : config.Config) :
  len (config.Backends cfg) <= MaxInt ->
  config.validateConfig cfg = None
  <-> config.Method (config.LoadBalancer cfg) = "RoundRobin"
      /\ Forall (fun c => config.ID c <> EmptyString) (config.Backends cfg)
      /\ enabled (config.Backends cfg) <> []
      /\ (config.RateLimitEnabled (config.RateLimit cfg) = true ->
          match config.DefaultRate (config.RateLimit cfg) with
          | Finite q => (0 < q)%Q
          | PosInf => True
          | NegInf => False
          | NaN => True
          end
          /\ 0 < config.DefaultBurst (config.RateLimit cfg)).
Proof. apply validateConfig_None_iff. Qed.

Lemma validateConfig_accepts_iff_witness :
  config.validateConfig
    (config.mkConfig (config.Server example.cfg3) (config.LoadBalancer example.cfg3)
       (config.Backends example.cfg3) (config.Logging example.cfg3)
       (config.mkRateLimitConfig true NaN 20)) = None.
Proof.
  apply (validateConfig_accepts_iff
           (config.mkConfig (config.Server example.cfg3)
              (config.LoadBalancer example.cfg3)
              (config.Backends example.cfg3) (config.Logging example.cfg3)
              (config.mkRateLimitConfig true NaN 20))).
  - by vm_compute.
  - split; [reflexivity|]. split; [|split].
    + apply (bool_decide_unpack _). by vm_compute.
    + by vm_compute.
    + intros _. split; [exact I|reflexivity].
Defined.

(** X15: [validateConfig] reports backend number [j] as having an empty
    id exactly when the method is RoundRobin and [j] is the first
    backend of the configuration whose id is empty; whether backends
    are enabled and what the rate limits are plays no part. *)
Theorem validateConfig_first_empty_id (cfg : config.Config) (j : nat) :
  config.validateConfig cfg = Some (config.EmptyID j)
  <-> config.Method (config.LoadBalancer cfg) = "RoundRobin"
      /\ (exists c, config.Backends cfg !! j = Some c /\ config.ID c = EmptyString)
      /\ Forall (fun c => config.ID c <> EmptyString) (take j (config.Backends cfg)).
Proof.
  unfold config.validateConfig.
  pose proof (method_supported (config.Method (config.LoadBalancer cfg))) as Hm.
  case_bool_decide as Hsup; simpl; [|split; [done|tauto]].
  apply Hm in Hsup.
  case_bool_decide as Hnone.
  { split; [done|]. intros (_ & (c & Hc & _) & _).
    destruct (config.Backends cfg); [done|]. unfold len in Hnone. simpl in Hnone. lia. }
  destruct (first_empty_id (config.Backends cfg)) as [Hall|(j' & c & Hj & Hc & Hbefore)].
  - destruct (count_enabled_nonempty _ 0%nat 0 Hall) as [m ->].
    split.
    + intros Hrun. exfalso. repeat case_bool_decide; repeat case_match; done.
    + intros (_ & (c & Hc & Hid) & _). exfalso.
      rewrite Forall_forall in Hall. apply (Hall c); [|done].
      apply list_elem_of_lookup. eauto.
  - rewrite (count_enabled_inl _ 0 0 j' c Hj Hc Hbefore). simpl. split.
    + intros [= <-]. eauto.
    + intros (_ & (c' & Hc' & Hid') & Hbefore'). do 2 f_equal.
      destruct (Nat.lt_trichotomy j j') as [Hlt|[->|Hgt]]; [|done|]; exfalso.
      * rewrite Forall_forall in Hbefore. apply (Hbefore c'); [|done].
        apply list_elem_of_lookup. exists j. rewrite lookup_take_lt by lia. done.
      * rewrite Forall_forall in Hbefore'. apply (Hbefore' c); [|done].
        apply list_elem_of_lookup. exists j'. rewrite lookup_take_lt by lia. done.
Qed.

(** X16: on a configuration that [validateConfig] accepts,
    [NewLoadBalancer] can only fail on the address of an enabled
    backend: either every such address parses and a balancer is
    returned, or one does not and the error is invalid backend URL with
    the parse error.  The method and the no-enabled-backends checks of
    [NewLoadBalancer] cannot fail after validation. *)
Theorem validated_config_builds
    (url_Parse : string -> string + string) (cfg : config.Config)
    (h : gmap nat backend.Backend) :
  len (config.Backends cfg) <= MaxInt ->
  config.validateConfig cfg = None ->
  (Forall (parses url_Parse) (enabled (config.Backends cfg))
   /\ exists lb h', load_balancer.NewLoadBalancer url_Parse cfg h = Ret (lb, h'))
  \/ (exists c e,
        c ∈ enabled (config.Backends cfg)
        /\ url_Parse (backend_address c) = inr e
        /\ load_balancer.NewLoadBalancer url_Parse cfg h
           = Error ("invalid backend URL: " +:+ e)).
Proof.
  intros Hlen Hok. apply (validateConfig_None_iff cfg Hlen) in Hok
    as (Hm & _ & Hen & _).
  destruct (load_balancer.NewLoadBalancer url_Parse cfg h) as [[lb h']|err|] eqn:Hrun.
  - left. split; [|eauto].
    by apply (NewLoadBalancer_Ret_iff url_Parse cfg h); eauto.
  - right.
    destruct (proj2 (NewLoadBalancer_Error_cases url_Parse cfg h) err Hrun)
      as [[Hbad _]|[(_ & c & e & Hc & He & ->)|(_ & Hnone & _)]]; [done| |done].
    eauto.
  - by destruct (proj1 (NewLoadBalancer_Error_cases url_Parse cfg h)).
Qed.

Lemma validated_config_builds_witness :
  (Forall (parses inl) (enabled (config.Backends example.cfg3))
   /\ exists lb h', load_balancer.NewLoadBalancer inl example.cfg3 ∅ = Ret (lb, h'))
  \/ (exists c e,
        c ∈ enabled (config.Backends example.cfg3)
        /\ @inl string string (backend_address c) = inr e
        /\ load_balancer.NewLoadBalancer inl example.cfg3 ∅
           = Error ("invalid backend URL: " +:+ e)).
Proof.
  apply (validated_config_builds inl example.cfg3 ∅); by vm_compute.
Defined.

(** X17: the first selection on a balancer just built, before any probe
    has written a flag, returns the backend of the first enabled
    configuration and moves the cursor to 1 (to 0 in a pool of one). *)
Theorem NewLoadBalancer_first_selection
    (url_Parse : string -> string + string) (cfg : config.Config)
    (h h' : gmap nat backend.Backend) (lb : load_balancer.loadBalancer) :
  len (config.Backends cfg) <= MaxInt ->
  load_balancer.NewLoadBalancer url_Parse cfg h = Ret (lb, h') ->
  exists b c rest,
    enabled (config.Backends cfg) = c :: rest
    /\ built_from url_Parse h' b c
    /\ load_balancer.GetNextBackend (backend.still h') lb
       = Some (Ret b,
               load_balancer.mkLoadBalancer (load_balancer.backends lb)
                 (algorithm.RoundRobin
                    {| algorithm.current := 1 mod len (load_balancer.backends lb) |})).
Proof.
  intros Hlen Hrun.
  unfold load_balancer.NewLoadBalancer, algorithm.GetStrategy in Hrun.
  case_bool_decide as Hm; [|done].
  destruct (load_balancer.new_backends _ _ _ _) as [[bs h1]| |] eqn:Hnew; [|done|done].
  case_bool_decide as Hbs; [done|]. simplify_eq. simpl.
  apply new_backends_Ret in Hnew as (news & -> & Hbuilt & _). simpl in *.
  pose proof (Forall2_length _ _ _ Hbuilt) as Hsame.
  pose proof (length_filter (fun c => config.Enabled c = true) (config.Backends cfg))
    as Hle.
  fold (enabled (config.Backends cfg)) in Hle.
  destruct (enabled (config.Backends cfg)) as [|c rest] eqn:Hen.
  { apply Forall2_nil_inv_r in Hbuilt. by subst. }
  apply Forall2_cons_inv_r in Hbuilt as (b & news' & Hb & Hrest & ->).
  exists b, c, rest. split; [done|]. split; [done|].
  unfold load_balancer.GetNextBackend, algorithm.NewRoundRobinStrategy. simpl.
  rewrite (NextBackend_at_cursor (b :: news')) with (b := b); [done| | |done|].
  - unfold len in *. rewrite Hsame. lia.
  - unfold len. simpl. lia.
  - destruct Hb as (u & _ & Hu). unfold backend.IsHealthy. by rewrite Hu.
Qed.

Lemma NewLoadBalancer_first_selection_witness :
  exists b c rest,
    enabled (config.Backends example.cfg3) = c :: rest
    /\ built_from inl example.store_cfg3 b c
    /\ load_balancer.GetNextBackend (backend.still example.store_cfg3) example.lb_cfg3
       = Some (Ret b,
               load_balancer.mkLoadBalancer (load_balancer.backends example.lb_cfg3)
                 (algorithm.RoundRobin
                    {| algorithm.current :=
                         1 mod len (load_balancer.backends example.lb_cfg3) |})).
Proof.
  apply (NewLoadBalancer_first_selection inl example.cfg3 ∅); by vm_compute.
Defined.

(** ** The limiter's two maps *)

Section limiter_maps.
Import rate_limiter.

Lemma Limiter_Allow_keeps lim now :
  limit (Limiter_Allow lim now).2 = limit lim
  /\ burst (Limiter_Allow lim now).2 = burst lim.
Proof. unfold Limiter_Allow. by destruct (Qle_bool 1 _). Qed.

(** What [Allow] leaves: the client's bucket is replaced by one with
    the limits of the bucket it was admitted against; the rest is
    untouched. *)
Lemma Allow_state tb clientID now :
  exists lim,
    limiters (Allow tb clientID now).2 = <[clientID := lim]> (limiters tb)
    /\ clientLimits (Allow tb clientID now).2 = clientLimits tb
    /\ defaultRate (Allow tb clientID now).2 = defaultRate tb
    /\ defaultBurst (Allow tb clientID now).2 = defaultBurst tb
    /\ match limiters tb !! clientID with
       | Some lim0 => limit lim = limit lim0 /\ burst lim = burst lim0
       | None => limit lim = GetRate tb clientID /\ burst lim = GetBurst tb clientID
       end.
Proof.
  unfold Allow, getLimiter.
  destruct (limiters tb !! clientID) as [lim0|] eqn:Hl.
  - pose proof (Limiter_Allow_keeps lim0 now) as Hk.
    destruct (Limiter_Allow lim0 now) as [a lim']. simpl in *.
    exists lim'. done.
  - set (lim0 := NewLimiter _ _).
    pose proof (Limiter_Allow_keeps lim0 now) as Hk.
    destruct (Limiter_Allow lim0 now) as [a lim']. simpl in *.
    exists lim'. rewrite insert_insert_eq. done.
Qed.

(** The answer of [Allow] depends on the client's own entries only. *)
Lemma Allow_ext tb1 tb2 clientID now :
  limiters tb1 !! clientID = limiters tb2 !! clientID ->
  GetClientLimits tb1 clientID = GetClientLimits tb2 clientID ->
  (Allow tb1 clientID now).1 = (Allow tb2 clientID now).1.
Proof.
  intros Hl Hg. unfold Allow, getLimiter. rewrite Hl, Hg.
  destruct (limiters tb2 !! clientID) as [lim0|].
  - by destruct (Limiter_Allow lim0 now).
  - by destruct (Limiter_Allow _ now).
Qed.

(** An update is a [SetClientLimits] of the updated limits. *)
Lemma UpdateClientLimits_Set tb clientID updateFn :
  UpdateClientLimits tb clientID updateFn
  = SetClientLimits tb clientID
      (Rate (updateFn (GetClientLimits tb clientID)))
      (Burst (updateFn (GetClientLimits tb clientID))).
Proof.
  unfold UpdateClientLimits, SetClientLimits.
  by destruct (updateFn (GetClientLimits tb clientID)).
Qed.

Lemma GetClientLimits_ext tb1 tb2 clientID :
  clientLimits tb1 !! clientID = clientLimits tb2 !! clientID ->
  defaultRate tb1 = defaultRate tb2 ->
  defaultBurst tb1 = defaultBurst tb2 ->
  GetClientLimits tb1 clientID = GetClientLimits tb2 clientID.
Proof. intros Hc Hr Hb. unfold GetClientLimits. by rewrite Hc, Hr, Hb. Qed.

Lemma buckets_match_Set tb clientID R B :
  buckets_match tb -> buckets_match (SetClientLimits tb clientID R B).
Proof.
  intros [Hlim Hcl]. split.
  - intros id lim. unfold GetRate, GetBurst, GetClientLimits. simpl.
    destruct (decide (id = clientID)) as [->|Hne].
    + rewrite !lookup_insert_eq. by intros [= <-].
    + rewrite !lookup_insert_ne by done. apply Hlim.
  - intros id. simpl. destruct (decide (id = clientID)) as [->|Hne].
    + rewrite !lookup_insert_eq. eauto.
    + rewrite !lookup_insert_ne by done. apply Hcl.
Qed.

Lemma buckets_match_Delete tb clientID :
  buckets_match tb -> buckets_match (DeleteClientLimits tb clientID).
Proof.
  intros [Hlim Hcl]. split.
  - intros id lim. unfold GetRate, GetBurst, GetClientLimits. simpl.
    destruct (decide (id = clientID)) as [->|Hne].
    + by rewrite lookup_delete_eq.
    + rewrite !lookup_delete_ne by done. apply Hlim.
  - intros id. simpl. destruct (decide (id = clientID)) as [->|Hne].
    + rewrite !lookup_delete_eq. by intros [? ?].
    + rewrite !lookup_delete_ne by done. apply Hcl.
Qed.

Lemma buckets_match_Allow tb clientID now :
  buckets_match tb -> buckets_match (Allow tb clientID now).2.
Proof.
  intros [Hlim Hcl].
  destruct (Allow_state tb clientID now) as (lim & Hl & Hc & Hr & Hb & Hsame).
  assert (Hget : forall id, GetClientLimits (Allow tb clientID now).2 id
                            = GetClientLimits tb id).
  { intros id. apply GetClientLimits_ext; [by rewrite Hc|done|done]. }
  split.
  - intros id lim1. unfold GetRate, GetBurst. rewrite Hget, Hl.
    destruct (decide (id = clientID)) as [->|Hne].
    + rewrite lookup_insert_eq. intros [= <-].
      destruct (limiters tb !! clientID) as [lim0|] eqn:Hl0; [|done].
      destruct Hsame as [-> ->]. by apply Hlim.
    + rewrite lookup_insert_ne by done. apply Hlim.
  - intros id. rewrite Hc, Hl. intros Hsome.
    destruct (decide (id = clientID)) as [->|Hne].
    + rewrite lookup_insert_eq. eauto.
    + rewrite lookup_insert_ne by done. by apply Hcl.
Qed.

Lemma limits_positive_Set tb clientID R B :
  (0 < R)%Q -> 0 < B ->
  limits_positive tb -> limits_positive (SetClientLimits tb clientID R B).
Proof.
  intros HR HB Hpos id limits. simpl.
  destruct (decide (id = clientID)) as [->|Hne].
  - rewrite lookup_insert_eq. by intros [= <-].
  - rewrite lookup_insert_ne by done. apply Hpos.
Qed.

Lemma limits_positive_Delete tb clientID :
  limits_positive tb -> limits_positive (DeleteClientLimits tb clientID).
Proof.
  intros Hpos id limits. simpl. intros Hl.
  apply lookup_delete_Some in Hl as [_ Hl]. by apply Hpos in Hl.
Qed.

End limiter_maps.

(** X18: operations taken one at a time keep the limiter's two maps in
    step: a client's bucket carries the rate and burst that
    [GetRate] and [GetBurst] report for the client, and every client
    with stored limits has a bucket.  This holds of a new limiter and
    is kept by [Allow], [SetClientLimits], [DeleteClientLimits] and
    [UpdateClientLimits]. *)
Theorem buckets_match_invariant
    (tb : rate_limiter.TokenBucket) (clientID : string) (now R : Q) (B : Z)
    (updateFn : rate_limiter.UserLimits -> rate_limiter.UserLimits) :
  buckets_match (rate_limiter.NewTokenBucket R B)
  /\ (buckets_match tb ->
      buckets_match (rate_limiter.Allow tb clientID now).2
      /\ buckets_match (rate_limiter.SetClientLimits tb clientID R B)
      /\ buckets_match (rate_limiter.DeleteClientLimits tb clientID)
      /\ buckets_match (rate_limiter.UpdateClientLimits tb clientID updateFn)).
Proof.
  split.
  { split; intros id; simpl; [by intros ?|]; rewrite lookup_empty; by intros [? ?]. }
  intros Hok. split; [by apply buckets_match_Allow|].
  split; [by apply buckets_match_Set|].
  split; [by apply buckets_match_Delete|].
  rewrite UpdateClientLimits_Set. by apply buckets_match_Set.
Qed.

Lemma buckets_match_invariant_witness :
  buckets_match (rate_limiter.Allow (rate_limiter.NewTokenBucket 10 20) "alice" 0).2
  /\ buckets_match
       (rate_limiter.SetClientLimits (rate_limiter.NewTokenBucket 10 20) "alice" 10 20)
  /\ buckets_match
       (rate_limiter.DeleteClientLimits (rate_limiter.NewTokenBucket 10 20) "alice")
  /\ buckets_match
       (rate_limiter.UpdateClientLimits (rate_limiter.NewTokenBucket 10 20) "alice" id).
Proof.
  apply (proj2 (buckets_match_invariant (rate_limiter.NewTokenBucket 10 20)
                  "alice" 0 10 20 id)).
  split; intros c; simpl; [by intros ?|]; rewrite lookup_empty; by intros [? ?].
Defined.

(** X19: clients do not interfere.  After an admission, a change, a
    deletion or an update for one client, every other client has the
    bucket and the limits it had, and a call of [Allow] for it answers
    as it would have. *)
Theorem clients_isolated
    (tb : rate_limiter.TokenBucket) (clientID other : string) (now t R : Q) (B : Z)
    (updateFn : rate_limiter.UserLimits -> rate_limiter.UserLimits) :
  clientID <> other ->
  Forall (fun tb' =>
            rate_limiter.limiters tb' !! other = rate_limiter.limiters tb !! other
            /\ rate_limiter.GetClientLimits tb' other
               = rate_limiter.GetClientLimits tb other
            /\ (rate_limiter.Allow tb' other t).1 = (rate_limiter.Allow tb other t).1)
    [(rate_limiter.Allow tb clientID now).2;
     rate_limiter.SetClientLimits tb clientID R B;
     rate_limiter.DeleteClientLimits tb clientID;
     rate_limiter.UpdateClientLimits tb clientID updateFn].
Proof.
  intros Hne.
  assert (Hstep : forall tb',
             rate_limiter.limiters tb' !! other = rate_limiter.limiters tb !! other ->
             rate_limiter.clientLimits tb' !! other
             = rate_limiter.clientLimits tb !! other ->
             rate_limiter.defaultRate tb' = rate_limiter.defaultRate tb ->
             rate_limiter.defaultBurst tb' = rate_limiter.defaultBurst tb ->
             rate_limiter.limiters tb' !! other = rate_limiter.limiters tb !! other
             /\ rate_limiter.GetClientLimits tb' other
                = rate_limiter.GetClientLimits tb other
             /\ (rate_limiter.Allow tb' other t).1 = (rate_limiter.Allow tb other t).1).
  { intros tb' Hl Hc Hr Hb.
    assert (rate_limiter.GetClientLimits tb' other
            = rate_limiter.GetClientLimits tb other)
      by (by apply GetClientLimits_ext).
    split; [done|]. split; [done|]. by apply Allow_ext. }
  repeat apply Forall_cons_2; [| | | |constructor].
  - destruct (Allow_state tb clientID now) as (lim & Hl & Hc & Hr & Hb & _).
    apply Hstep; [|by rewrite Hc|done|done].
    rewrite Hl. by rewrite lookup_insert_ne.
  - apply Hstep; simpl; [| |done|done]; by rewrite lookup_insert_ne.
  - apply Hstep; simpl; [| |done|done]; by rewrite lookup_delete_ne.
  - rewrite UpdateClientLimits_Set.
    apply Hstep; simpl; [| |done|done]; by rewrite lookup_insert_ne.
Qed.

Lemma clients_isolated_witness :
  Forall (fun tb' =>
            rate_limiter.limiters tb' !! "bob"
            = rate_limiter.limiters (rate_limiter.NewTokenBucket 10 20) !! "bob"
            /\ rate_limiter.GetClientLimits tb' "bob"
               = rate_limiter.GetClientLimits (rate_limiter.NewTokenBucket 10 20) "bob"
            /\ (rate_limiter.Allow tb' "bob" 1).1
               = (rate_limiter.Allow (rate_limiter.NewTokenBucket 10 20) "bob" 1).1)
    [(rate_limiter.Allow (rate_limiter.NewTokenBucket 10 20) "alice" 0).2;
     rate_limiter.SetClientLimits (rate_limiter.NewTokenBucket 10 20) "alice" 1 1;
     rate_limiter.DeleteClientLimits (rate_limiter.NewTokenBucket 10 20) "alice";
     rate_limiter.UpdateClientLimits (rate_limiter.NewTokenBucket 10 20) "alice" id].
Proof.
  apply (clients_isolated (rate_limiter.NewTokenBucket 10 20) "alice" "bob" 0 1 1 1 id).
  done.
Defined.

(** X20: [UpdateClientLimits] is [SetClientLimits] of what the update
    function makes of the client's current limits --- the defaults when
    nothing is stored for the client.  So an update, like a change,
    replaces the client's bucket by a new one, whatever the old one
    held. *)
Theorem UpdateClientLimits_as_Set
    (tb : rate_limiter.TokenBucket) (clientID : string)
    (updateFn : rate_limiter.UserLimits -> rate_limiter.UserLimits) :
  rate_limiter.UpdateClientLimits tb clientID updateFn
  = rate_limiter.SetClientLimits tb clientID
      (rate_limiter.Rate (updateFn (rate_limiter.GetClientLimits tb clientID)))
      (rate_limiter.Burst (updateFn (rate_limiter.GetClientLimits tb clientID)))
  /\ rate_limiter.GetClientLimits
       (rate_limiter.UpdateClientLimits tb clientID updateFn) clientID
     = updateFn (rate_limiter.GetClientLimits tb clientID)
  /\ rate_limiter.limiters
       (rate_limiter.UpdateClientLimits tb clientID updateFn) !! clientID
     = Some (rate_limiter.NewLimiter
               (rate_limiter.Rate (updateFn (rate_limiter.GetClientLimits tb clientID)))
               (rate_limiter.Burst (updateFn (rate_limiter.GetClientLimits tb clientID)))).
Proof.
  split; [apply UpdateClientLimits_Set|].
  unfold rate_limiter.GetClientLimits at 1. simpl.
  by rewrite !lookup_insert_eq.
Qed.

(** ** The middleware and the handlers *)

(** X21: the rate-limiting middleware answers by itself exactly when
    the path is neither /health nor under /admin/ and [Allow] refuses
    the request's client; its answer is then a 429.  A request to
    /health or under /admin/ leaves the limiter as it is; any request
    leaves the stored limits and the buckets of the other clients as
    they are, and keeps the two maps in step. *)
Theorem Middleware_limiter
    (tb : rate_limiter.TokenBucket) (r : http.Request) (now : Q) :
  let exempt :=
    gostrings.HasPrefix (http.Path r) "/admin/"
    || bool_decide (http.Path r = "/health") in
  let clientID := middleware.getClientID r in
  ((exists w, (middleware.Middleware tb r now).2 = middleware.Stopped w)
   <-> exempt = false /\ (rate_limiter.Allow tb clientID now).1 = false)
  /\ (forall w, (middleware.Middleware tb r now).2 = middleware.Stopped w ->
        http.ReplyStatus w = 429)
  /\ (exempt = true -> (middleware.Middleware tb r now).1 = tb)
  /\ rate_limiter.clientLimits (middleware.Middleware tb r now).1
     = rate_limiter.clientLimits tb
  /\ (forall other, other <> clientID ->
        rate_limiter.limiters (middleware.Middleware tb r now).1 !! other
        = rate_limiter.limiters tb !! other)
  /\ (buckets_match tb -> buckets_match (middleware.Middleware tb r now).1).
Proof.
  intros exempt clientID. unfold middleware.Middleware.
  fold exempt. fold clientID.
  destruct exempt; simpl.
  { split; [split; [by intros [w ?]|by intros [? _]]|]. done. }
  pose proof (buckets_match_Allow tb clientID now) as Hinv.
  destruct (Allow_state tb clientID now) as (lim & Hl & Hc & _).
  destruct (rate_limiter.Allow tb clientID now) as [allowed tb'] eqn:Hrun.
  simpl in *.
  assert (Hframe : forall other, other <> clientID ->
                     rate_limiter.limiters tb' !! other
                     = rate_limiter.limiters tb !! other).
  { intros other Hne. rewrite Hl. by rewrite lookup_insert_ne. }
  destruct allowed; simpl.
  - split; [split; [by intros [w ?]|by intros [_ ?]]|]. done.
  - split; [split; eauto|]. split; [by intros w [= <-]|]. done.
Qed.

Lemma Middleware_limiter_witness :
  buckets_match
    (middleware.Middleware (rate_limiter.NewTokenBucket 10 20)
       (http.mkRequest "GET" "/api/items" ∅ "10.1.2.3:5555" None) 0).1.
Proof.
  apply (Middleware_limiter (rate_limiter.NewTokenBucket 10 20)
           (http.mkRequest "GET" "/api/items" ∅ "10.1.2.3:5555" None) 0).
  split; intros c; simpl; [by intros ?|]; rewrite lookup_empty; by intros [? ?].
Defined.

Section admin_state.
Import gostrings http rate_limiter handler.

Lemma Split_segment (s : string) :
  ~ len (Split s "/") < 4 -> exists clientID, Split s "/" !! 3%nat = Some clientID.
Proof.
  intros Hlen. apply lookup_lt_is_Some. unfold len in Hlen. lia.
Qed.

Lemma invalid_limits (limits : RateLimitRequest) :
  Qle_bool (http.Rate limits) 0 || bool_decide (http.Burst limits <= 0) = false ->
  (0 < http.Rate limits)%Q /\ 0 < http.Burst limits.
Proof.
  intros Hv. apply orb_false_elim in Hv as [Hr Hb].
  apply bool_decide_eq_false in Hb. split; [|lia].
  apply Qnot_le_lt. intros Hle. apply Qle_bool_iff in Hle. congruence.
Qed.

(** What the admin rate-limit endpoint does to the limiter, and the
    status it answers with. *)
Lemma HandleRateLimit_state tb r :
  ((HandleRateLimit tb r).1 = tb
   /\ (StatusCode (HandleRateLimit tb r).2 = 400
       \/ StatusCode (HandleRateLimit tb r).2 = 405
       \/ (StatusCode (HandleRateLimit tb r).2 = 200 /\ Method r = "GET")))
  \/ (exists clientID limits,
        Split (Path r) "/" !! 3%nat = Some clientID
        /\ Body r = Some limits
        /\ (0 < http.Rate limits)%Q /\ 0 < http.Burst limits
        /\ (HandleRateLimit tb r).1
           = SetClientLimits tb clientID (http.Rate limits) (http.Burst limits)
        /\ ((Method r = "POST" /\ (HandleRateLimit tb r).2 = WriteHeader 201)
            \/ (Method r = "PUT" /\ (HandleRateLimit tb r).2 = WriteHeader 200)))
  \/ (exists clientID,
        Split (Path r) "/" !! 3%nat = Some clientID
        /\ Method r = "DELETE"
        /\ (HandleRateLimit tb r).1 = DeleteClientLimits tb clientID
        /\ (HandleRateLimit tb r).2 = WriteHeader 204).
Proof.
  destruct (decide (len (Split (Path r) "/") < 4)) as [Hshort|Hlong].
  { rewrite HandleRateLimit_short by done. left. simpl. split; [done|by left]. }
  destruct (Split_segment _ Hlong) as [clientID Hid].
  rewrite (HandleRateLimit_segment tb r clientID Hid).
  case_bool_decide as HG.
  { left. simpl. split; [done|]. right. right. done. }
  case_bool_decide as HP.
  { unfold createRateLimit. destruct (Body r) as [limits|] eqn:Hbody.
    2:{ left. simpl. split; [done|by left]. }
    destruct (Qle_bool _ _ || _) eqn:Hv.
    { left. simpl. split; [done|by left]. }
    apply invalid_limits in Hv as [Hr Hb].
    right. left. exists clientID, limits. simpl. eauto 10. }
  case_bool_decide as HU.
  { unfold updateRateLimit. destruct (Body r) as [limits|] eqn:Hbody.
    2:{ left. simpl. split; [done|by left]. }
    destruct (Qle_bool _ _ || _) eqn:Hv.
    { left. simpl. split; [done|by left]. }
    apply invalid_limits in Hv as [Hr Hb].
    right. left. exists clientID, limits. simpl.
    rewrite UpdateClientLimits_Set. simpl. eauto 10. }
  case_bool_decide as HD.
  { right. right. exists clientID. simpl. done. }
  left. simpl. split; [done|]. right. by left.
Qed.

End admin_state.

(** X22: the admin rate-limit endpoint keeps the limiter well formed:
    if every stored entry has a positive rate and a positive burst, and
    the two maps are in step, the same holds after any request,
    whatever its method, path and body. *)
Theorem HandleRateLimit_keeps_limits_positive
    (tb : rate_limiter.TokenBucket) (r : http.Request) :
  limits_positive tb ->
  buckets_match tb ->
  limits_positive (handler.HandleRateLimit tb r).1
  /\ buckets_match (handler.HandleRateLimit tb r).1.
Proof.
  intros Hpos Hok.
  destruct (HandleRateLimit_state tb r)
    as [[-> _]|[(id & limits & _ & _ & Hr & Hb & -> & _)|(id & _ & _ & -> & _)]].
  - done.
  - split; [by apply limits_positive_Set|by apply buckets_match_Set].
  - split; [by apply limits_positive_Delete|by apply buckets_match_Delete].
Qed.

Lemma HandleRateLimit_keeps_limits_positive_witness :
  limits_positive
    (handler.HandleRateLimit (rate_limiter.NewTokenBucket 10 20)
       (http.mkRequest "POST" "/admin/ratelimit/alice" ∅ "10.1.2.3:5555"
          (Some (http.mkRateLimitRequest 5 7)))).1
  /\ buckets_match
       (handler.HandleRateLimit (rate_limiter.NewTokenBucket 10 20)
          (http.mkRequest "POST" "/admin/ratelimit/alice" ∅ "10.1.2.3:5555"
             (Some (http.mkRateLimitRequest 5 7)))).1.
Proof.
  apply (HandleRateLimit_keeps_limits_positive (rate_limiter.NewTokenBucket 10 20)).
  - intros c l. simpl. by rewrite lookup_empty.
  - split; intros c; simpl; [by intros ?|]; rewrite lookup_empty; by intros [? ?].
Defined.

(** X23: the admin rate-limit endpoint changes the limiter only when it
    accepts a POST (answered 201), a PUT (answered 200) or a DELETE
    (answered 204).  A request answered 400 or 405, and any GET,
    whatever it is answered, leaves the limiter exactly as it was; a
    request that is no GET is answered 200, 201, 204, 400 or 405. *)
Theorem HandleRateLimit_refusals_change_nothing
    (tb : rate_limiter.TokenBucket) (r : http.Request) :
  (http.StatusCode (handler.HandleRateLimit tb r).2 = 400
   \/ http.StatusCode (handler.HandleRateLimit tb r).2 = 405
   \/ http.Method r = "GET" ->
   (handler.HandleRateLimit tb r).1 = tb)
  /\ ((handler.HandleRateLimit tb r).1 <> tb ->
      (http.Method r = "POST" /\ http.StatusCode (handler.HandleRateLimit tb r).2 = 201)
      \/ (http.Method r = "PUT" /\ http.StatusCode (handler.HandleRateLimit tb r).2 = 200)
      \/ (http.Method r = "DELETE"
          /\ http.StatusCode (handler.HandleRateLimit tb r).2 = 204))
  /\ (http.Method r <> "GET" ->
      http.StatusCode (handler.HandleRateLimit tb r).2 ∈ [200; 201; 204; 400; 405]).
Proof.
  destruct (HandleRateLimit_state tb r)
    as [[Hsame Hst]|[(id & limits & _ & _ & _ & _ & _ & Hst)|(id & _ & Hm & _ & Hst)]].
  - split; [done|]. split; [done|]. intros Hng.
    destruct Hst as [->|[->|[_ Hg]]]; [set_solver|set_solver|done].
  - destruct Hst as [[Hm ->]|[Hm ->]]; simpl.
    + split; [|split; [by intros _; left|intros _; set_solver]].
      intros [?|[?|Hg]]; try done. rewrite Hm in Hg. done.
    + split; [|split; [by intros _; right; left|intros _; set_solver]].
      intros [?|[?|Hg]]; try done. rewrite Hm in Hg. done.
  - rewrite Hst. simpl.
    split; [|split; [by intros _; right; right|intros _; set_solver]].
    intros [?|[?|Hg]]; try done. rewrite Hm in Hg. done.
Qed.

Lemma HandleRateLimit_refusals_change_nothing_witness :
  (handler.HandleRateLimit (rate_limiter.NewTokenBucket 10 20)
     (http.mkRequest "POST" "/admin/ratelimit/alice" ∅ "10.1.2.3:5555"
        (Some (http.mkRateLimitRequest 5 0)))).1
  = rate_limiter.NewTokenBucket 10 20.
Proof.
  apply (HandleRateLimit_refusals_change_nothing (rate_limiter.NewTokenBucket 10 20)
           (http.mkRequest "POST" "/admin/ratelimit/alice" ∅ "10.1.2.3:5555"
              (Some (http.mkRateLimitRequest 5 0)))).
  left. reflexivity.
Defined.

(** X24: a PUT and a POST with the same path and body leave the same
    limiter state: the PUT replaces the client's limits outright, using
    nothing of what was stored.  They are refused alike, with the same
    answer; accepted, the POST answers 201 and the PUT 200. *)
Theorem PUT_as_POST
    (tb : rate_limiter.TokenBucket) (post put : http.Request) :
  http.Method post = "POST" ->
  http.Method put = "PUT" ->
  http.Path put = http.Path post ->
  http.Body put = http.Body post ->
  (handler.HandleRateLimit tb put).1 = (handler.HandleRateLimit tb post).1
  /\ ((handler.HandleRateLimit tb post).2 = http.WriteHeader 201
      /\ (handler.HandleRateLimit tb put).2 = http.WriteHeader 200
      \/ (handler.HandleRateLimit tb put).2 = (handler.HandleRateLimit tb post).2
         /\ http.StatusCode (handler.HandleRateLimit tb post).2 = 400).
Proof.
  intros Hpost Hput Hpath Hbody.
  destruct (decide (len (gostrings.Split (http.Path post) "/") < 4)) as [Hshort|Hlong].
  { rewrite !HandleRateLimit_short by (by rewrite ?Hpath). split; [done|]. by right. }
  destruct (Split_segment _ Hlong) as [clientID Hid].
  rewrite (HandleRateLimit_segment tb post clientID Hid).
  rewrite (HandleRateLimit_segment tb put clientID) by (by rewrite Hpath).
  rewrite Hpost, Hput. simpl.
  unfold handler.createRateLimit, handler.updateRateLimit. rewrite Hbody.
  destruct (http.Body post) as [limits|]; [|split; [done|by right]].
  destruct (Qle_bool _ _ || _); [split; [done|by right]|].
  rewrite UpdateClientLimits_Set. simpl. split; [done|by left].
Qed.

Lemma PUT_as_POST_witness :
  (handler.HandleRateLimit (rate_limiter.NewTokenBucket 10 20)
     (http.mkRequest "PUT" "/admin/ratelimit/alice" ∅ "10.1.2.3:5555"
        (Some (http.mkRateLimitRequest 5 7)))).1
  = (handler.HandleRateLimit (rate_limiter.NewTokenBucket 10 20)
       (http.mkRequest "POST" "/admin/ratelimit/alice" ∅ "10.1.2.3:5555"
          (Some (http.mkRateLimitRequest 5 7)))).1.
Proof.
  apply (PUT_as_POST (rate_limiter.NewTokenBucket 10 20)
           (http.mkRequest "POST" "/admin/ratelimit/alice" ∅ "10.1.2.3:5555"
              (Some (http.mkRateLimitRequest 5 7)))
           (http.mkRequest "PUT" "/admin/ratelimit/alice" ∅ "10.1.2.3:5555"
              (Some (http.mkRateLimitRequest 5 7))));
    reflexivity.
Defined.

(** X25: what the admin rate-limit endpoint stores is what the limiter
    then holds for the client of the path, which is what a GET on the
    same path reads.  After a POST or PUT with positive rate and burst,
    [GetClientLimits] returns exactly those limits for the fourth
    segment of the path; after a DELETE it returns the defaults of the
    limiter. *)
Theorem admin_write_then_limits
    (tb : rate_limiter.TokenBucket) (r : http.Request) (clientID : string) :
  gostrings.Split (http.Path r) "/" !! 3%nat = Some clientID ->
  (forall limits,
      http.Method r = "POST" \/ http.Method r = "PUT" ->
      http.Body r = Some limits ->
      (0 < http.Rate limits)%Q -> 0 < http.Burst limits ->
      rate_limiter.GetClientLimits (handler.HandleRateLimit tb r).1 clientID
      = rate_limiter.mkUserLimits (http.Rate limits) (http.Burst limits))
  /\ (http.Method r = "DELETE" ->
      rate_limiter.GetClientLimits (handler.HandleRateLimit tb r).1 clientID
      = rate_limiter.mkUserLimits (rate_limiter.defaultRate tb)
          (rate_limiter.defaultBurst tb)).
Proof.
  intros Hid. rewrite (HandleRateLimit_segment tb r clientID Hid). split.
  - intros limits Hm Hbody Hr Hb.
    assert (Hstate :
      (if bool_decide (http.Method r = "GET") then handler.getRateLimit tb clientID
       else if bool_decide (http.Method r = "POST")
            then handler.createRateLimit tb r clientID
       else if bool_decide (http.Method r = "PUT")
            then handler.updateRateLimit tb r clientID
       else if bool_decide (http.Method r = "DELETE")
            then handler.deleteRateLimit tb clientID
       else (tb, http.Error "Method not allowed" http.StatusMethodNotAllowed)).1
      = rate_limiter.SetClientLimits tb clientID (http.Rate limits) (http.Burst limits)).
    { destruct Hm as [-> | ->]; simpl;
        unfold handler.createRateLimit, handler.updateRateLimit;
        rewrite Hbody, (valid_limits limits Hr Hb); [done|].
      by rewrite UpdateClientLimits_Set. }
    rewrite Hstate. unfold rate_limiter.GetClientLimits.
    simpl. by rewrite lookup_insert_eq.
  - intros Hm. rewrite Hm. simpl. unfold rate_limiter.GetClientLimits.
    simpl. by rewrite lookup_delete_eq.
Qed.

Lemma admin_write_then_limits_witness :
  rate_limiter.GetClientLimits
    (handler.HandleRateLimit (rate_limiter.NewTokenBucket 10 20)
       (http.mkRequest "PUT" "/admin/ratelimit/alice" ∅ "10.1.2.3:5555"
          (Some (http.mkRateLimitRequest 5 7)))).1 "alice"
  = rate_limiter.mkUserLimits 5 7.
Proof.
  apply (proj1 (admin_write_then_limits (rate_limiter.NewTokenBucket 10 20)
                  (http.mkRequest "PUT" "/admin/ratelimit/alice" ∅ "10.1.2.3:5555"
                     (Some (http.mkRateLimitRequest 5 7)))
                  "alice" eq_refl)
           (http.mkRateLimitRequest 5 7)).
  - by right.
  - reflexivity.
  - reflexivity.
  - reflexivity.
Defined.

(** X26: the strategy endpoint answers 200 exactly to a POST whose body
    decodes to the name RoundRobin; it then installs a new round robin,
    with the cursor at 0, and names it in the answer.  Any other
    request is answered 405 (not a POST) or 400 and leaves the balancer
    as it was; an unknown name is reported in the error.  The pool is
    never changed. *)
Theorem AdminChangeStrategy_outcome
    (lb : load_balancer.loadBalancer) (r : http.Request) (decoded : option string) :
  load_balancer.backends (Handler.AdminChangeStrategy lb r decoded).1
  = load_balancer.backends lb
  /\ (http.ReplyStatus (Handler.AdminChangeStrategy lb r decoded).2 = 200
      <-> http.Method r = "POST" /\ decoded = Some "RoundRobin")
  /\ (http.ReplyStatus (Handler.AdminChangeStrategy lb r decoded).2 = 200 ->
      load_balancer.GetStrategy (Handler.AdminChangeStrategy lb r decoded).1
      = algorithm.RoundRobin {| algorithm.current := 0 |}
      /\ http.ReplyBody (Handler.AdminChangeStrategy lb r decoded).2
         = [("message", "Strategy changed successfully"); ("strategy", "RoundRobin")])
  /\ (http.ReplyStatus (Handler.AdminChangeStrategy lb r decoded).2 <> 200 ->
      (Handler.AdminChangeStrategy lb r decoded).1 = lb
      /\ (http.ReplyStatus (Handler.AdminChangeStrategy lb r decoded).2 = 405
          <-> http.Method r <> "POST")
      /\ (http.ReplyStatus (Handler.AdminChangeStrategy lb r decoded).2 = 400
          <-> http.Method r = "POST"))
  /\ (forall name,
        http.Method r = "POST" -> decoded = Some name -> name <> "RoundRobin" ->
        http.ReplyBody (Handler.AdminChangeStrategy lb r decoded).2
        = [("error", "unknown balancing strategy: " +:+ name)]).
Proof.
  unfold Handler.AdminChangeStrategy, algorithm.GetStrategy.
  case_bool_decide as Hm; simpl.
  2:{ split; [done|]. split; [split; [done|by intros [? _]]|].
      split; [done|]. split; [|done]. intros _. split; [done|].
      split; split; done. }
  destruct decoded as [name|]; simpl.
  2:{ split; [done|]. split; [split; [done|by intros [_ ?]]|].
      split; [done|]. split; [|done]. intros _. split; [done|].
      split; split; done. }
  case_bool_decide as Hn; simpl.
  - subst name. split; [done|]. split; [done|]. split; [done|]. split; [done|].
    by intros name _ [= <-] ?.
  - split; [done|]. split; [split; [done|by intros [_ [= ?]]]|].
    split; [done|]. split.
    + intros _. split; [done|]. split; split; done.
    + by intros name' _ [= <-] _.
Qed.

Lemma AdminChangeStrategy_outcome_witness :
  load_balancer.GetStrategy
    (Handler.AdminChangeStrategy
       (load_balancer.mkLoadBalancer example.pool3
          (algorithm.RoundRobin {| algorithm.current := 2 |}))
       (http.mkRequest "POST" "/admin/strategy" ∅ "10.1.2.3:5555" None)
       (Some "RoundRobin")).1
  = algorithm.RoundRobin {| algorithm.current := 0 |}
  /\ http.ReplyBody
       (Handler.AdminChangeStrategy
          (load_balancer.mkLoadBalancer example.pool3
             (algorithm.RoundRobin {| algorithm.current := 2 |}))
          (http.mkRequest "POST" "/admin/strategy" ∅ "10.1.2.3:5555" None)
          (Some "RoundRobin")).2
     = [("message", "Strategy changed successfully"); ("strategy", "RoundRobin")].
Proof.
  apply (AdminChangeStrategy_outcome
           (load_balancer.mkLoadBalancer example.pool3
              (algorithm.RoundRobin {| algorithm.current := 2 |}))
           (http.mkRequest "POST" "/admin/strategy" ∅ "10.1.2.3:5555" None)
           (Some "RoundRobin")).
  reflexivity.
Defined.

(** X27: changing the strategy restarts the rotation.  After an
    accepted request to the strategy endpoint the next selection
    returns the first backend of the pool when it is healthy, wherever
    the cursor stood before. *)
Theorem AdminChangeStrategy_restarts_rotation
    (h : gmap nat backend.Backend) (lb : load_balancer.loadBalancer)
    (r : http.Request) (b : backend.ptr) (rest : list backend.ptr) :
  http.Method r = "POST" ->
  load_balancer.backends lb = b :: rest ->
  len (load_balancer.backends lb) <= MaxInt ->
  backend.IsHealthy h b = Some true ->
  load_balancer.GetNextBackend (backend.still h)
    (Handler.AdminChangeStrategy lb r (Some "RoundRobin")).1
  = Some (Ret b,
          load_balancer.mkLoadBalancer (load_balancer.backends lb)
            (algorithm.RoundRobin
               {| algorithm.current := 1 mod len (load_balancer.backends lb) |})).
Proof.
  intros Hm Hpool Hlen Hh.
  unfold Handler.AdminChangeStrategy. rewrite Hm. simpl.
  unfold load_balancer.GetNextBackend, algorithm.NewRoundRobinStrategy. simpl.
  rewrite (NextBackend_at_cursor (load_balancer.backends lb) Hlen h 0 b); [done| |
    by rewrite Hpool|done].
  rewrite Hpool. unfold len. simpl. lia.
Qed.

Lemma AdminChangeStrategy_restarts_rotation_witness :
  load_balancer.GetNextBackend (backend.still example.store3)
    (Handler.AdminChangeStrategy
       (load_balancer.mkLoadBalancer example.pool3
          (algorithm.RoundRobin {| algorithm.current := 2 |}))
       (http.mkRequest "POST" "/admin/strategy" ∅ "10.1.2.3:5555" None)
       (Some "RoundRobin")).1
  = Some (Ret 1%nat,
          load_balancer.mkLoadBalancer example.pool3
            (algorithm.RoundRobin {| algorithm.current := 1 mod len example.pool3 |})).
Proof.
  apply (AdminChangeStrategy_restarts_rotation example.store3
           (load_balancer.mkLoadBalancer example.pool3
              (algorithm.RoundRobin {| algorithm.current := 2 |}))
           (http.mkRequest "POST" "/admin/strategy" ∅ "10.1.2.3:5555" None)
           1%nat [2%nat; 3%nat]).
  - reflexivity.
  - reflexivity.
  - by vm_compute.
  - reflexivity.
Defined.

Section proxying.
Import backend algorithm load_balancer.

(** A call against a store that stays as it is returns a healthy
    backend of the pool, or the error when there is none. *)
Lemma NextBackend_still_cases h s backends :
  pool_ok h backends ->
  cursor_ok s backends ->
  (exists b s', NextBackend (still h) s backends = Some (Ret b, s')
                /\ b ∈ backends /\ IsHealthy h b = Some true)
  \/ (NextBackend (still h) s backends
      = Some (Error "no healthy backends available", s)
      /\ Forall (fun b => IsHealthy h b = Some false) backends).
Proof.
  intros [Hlen Hall] Hc. unfold NextBackend.
  rewrite bool_decide_eq_false_2 by (unfold cursor_ok in Hc; lia).
  destruct (loop_first h backends Hlen Hall (length backends) (length backends) 0
              (current s) (current s) Hc Hc
              (remaining_start backends _ Hc) ltac:(lia))
    as (r & c' & -> & Hres).
  destruct Hres as [(j & b1 & Hj & -> & Hb1 & Hh1 & _)|(-> & -> & Hnone)].
  - left. exists b1, {| current := c' |}. split; [done|]. split; [|done].
    apply list_elem_of_lookup. eauto.
  - right. split; [by destruct s|].
    apply Forall_lookup. intros p b Hp.
    destruct (round_reaches backends (current s) p Hc) as (i & Hi & Hip);
      [by eapply lookup_lt_Some|].
    apply (Hnone i b Hi). by rewrite Hip.
Qed.

End proxying.

(** X28: the proxying handler, on a pool whose pointers hold records
    and with the cursor in the pool.  It answers 503 exactly when no
    backend of the pool is healthy, and then changes neither the store
    nor the balancer.  Otherwise the request goes to a healthy backend
    of the pool, whose connection count is one more while its proxy
    runs and is taken down by one afterwards, also when the proxy
    panics; the handler panics exactly when the proxy does. *)
Theorem LoadBalancer_serves_healthy {A}
    (Proxy : backend.ptr -> gmap nat backend.Backend
             -> gmap nat backend.Backend * option A)
    (h : gmap nat backend.Backend) (lb : load_balancer.loadBalancer) :
  pool_ok h (load_balancer.backends lb) ->
  (match load_balancer.strategy lb with
   | algorithm.RoundRobin rr => cursor_ok rr (load_balancer.backends lb)
   end) ->
  (Forall (fun b => backend.IsHealthy h b = Some false) (load_balancer.backends lb)
   /\ exists w,
        Handler.LoadBalancer Proxy (backend.still h) h lb
        = Some (h, lb, Handler.Unavailable w)
        /\ http.ReplyStatus w = 503)
  \/ (exists b lb' h2 out,
        b ∈ load_balancer.backends lb
        /\ backend.IsHealthy h b = Some true
        /\ load_balancer.backends lb' = load_balancer.backends lb
        /\ Proxy b (backend.IncrementConnections h b) = (h2, out)
        /\ Handler.LoadBalancer Proxy (backend.still h) h lb
           = Some (backend.DecrementConnections h2 b, lb',
                   match out with
                   | Some res => Handler.Proxied b res
                   | None => Handler.Panicked
                   end)).
Proof.
  destruct lb as [bs [rr]]. simpl. intros Hpool Hc.
  unfold Handler.LoadBalancer, load_balancer.GetNextBackend. simpl.
  destruct (NextBackend_still_cases h rr bs Hpool Hc)
    as [(b & s' & -> & Hin & Hh)|[-> Hbad]].
  - right. simpl. unfold backend.ServeHTTP.
    unfold backend.IsHealthy in Hh.
    destruct (h !! b) as [rec|] eqn:Hb; [|done].
    destruct (Proxy b (backend.IncrementConnections h b)) as [h2 out] eqn:HP.
    exists b, (load_balancer.mkLoadBalancer bs (algorithm.RoundRobin s')), h2, out.
    simpl. unfold backend.IsHealthy. rewrite Hb. by destruct out.
  - left. split; [done|]. eexists. split; [reflexivity|done].
Qed.

Lemma LoadBalancer_serves_healthy_witness :
  (Forall (fun b => backend.IsHealthy example.store3_b2_down b = Some false)
     (load_balancer.backends example.lb3)
   /\ exists w,
        Handler.LoadBalancer
          (fun b h => (h, if bool_decide (b = 1%nat) then None else Some tt))
          (backend.still example.store3_b2_down) example.store3_b2_down example.lb3
        = Some (example.store3_b2_down, example.lb3, Handler.Unavailable w)
        /\ http.ReplyStatus w = 503)
  \/ (exists b lb' h2 out,
        b ∈ load_balancer.backends example.lb3
        /\ backend.IsHealthy example.store3_b2_down b = Some true
        /\ load_balancer.backends lb' = load_balancer.backends example.lb3
        /\ (fun (b : backend.ptr) (h : gmap nat backend.Backend) =>
              (h, if bool_decide (b = 1%nat) then None else Some tt)) b
             (backend.IncrementConnections example.store3_b2_down b) = (h2, out)
        /\ Handler.LoadBalancer
             (fun b h => (h, if bool_decide (b = 1%nat) then None else Some tt))
             (backend.still example.store3_b2_down) example.store3_b2_down example.lb3
           = Some (backend.DecrementConnections h2 b, lb',
                   match out with
                   | Some res => Handler.Proxied b res
                   | None => Handler.Panicked
                   end)).
Proof.
  apply (LoadBalancer_serves_healthy
           (fun b h => (h, if bool_decide (b = 1%nat) then None else Some tt))
           example.store3_b2_down example.lb3).
  - split; [by vm_compute|]. apply (bool_decide_unpack _). by vm_compute.
  - by vm_compute.
Defined.
